(** * The GitLab input plugin of telegraf: collection walkers, title parsing
      and lifecycle, embedded from [plugins/inputs/gitlab/gitlab.go] and its
      two earlier variants. *)

From Stdlib Require Import ZArith Ascii String List Lia Bool.
From stdpp Require Import base option list gmap strings.

Local Open Scope Z_scope.

(** ** Go strings

    The titles the plugin parses come out of the JSON decoder, which only
    delivers valid UTF-8.  [regexp], [strings.ToUpper], [strings.Replacer]
    and [strings.Split] all work rune by rune on such text, so a Go string is
    taken as the sequence of its code points. *)

Definition rune := Z.
Definition gostring := list rune.

Definition rune_of_ascii (a : ascii) : rune := Z.of_N (N_of_ascii a).

(** A Go string literal of ASCII text. *)
Definition runes (s : string) : gostring := map rune_of_ascii (list_ascii_of_string s).

(** The case tables of Go's [unicode] package are not part of this
    repository: [To_UpperCase r] stands for [unicode.To(unicode.UpperCase, r)],
    which [unicode.ToUpper] consults for runes above [unicode.MaxASCII]. *)
Class UnicodeTables := To_UpperCase : rune -> rune.

(** ** Character classes of the two patterns (RE2 syntax: [\d] and [\W] are
    ASCII classes, [\W] is the complement of [[0-9A-Za-z_]]). *)

Definition in_range (lo hi r : rune) : bool := (lo <=? r) && (r <=? hi).

Definition is_lower (r : rune) : bool := in_range 97 122 r.
Definition is_upper (r : rune) : bool := in_range 65 90 r.
Definition is_digit (r : rune) : bool := in_range 48 57 r.
Definition is_letter (r : rune) : bool := is_lower r || is_upper r.
Definition is_word (r : rune) : bool := is_digit r || is_letter r || (r =? 95).
Definition is_nonword (r : rune) : bool := negb (is_word r).

(** ** A backtracking matcher for the fragment of RE2 the plugin uses

    [Repeat p lo hi] is the greedy repetition [p{lo,hi}] of a character class
    ([hi = None] is unbounded, so [p+] is [Repeat p 1 None]); [BeginText] is
    [^] without the multi-line flag. *)

Inductive regex :=
| Class (p : rune -> bool)
| Seq (r1 r2 : regex)
| Repeat (p : rune -> bool) (lo : nat) (hi : option nat)
| BeginText.

(** Length of the longest prefix of [s] inside class [p]. *)
Fixpoint span (p : rune -> bool) (s : gostring) : nat :=
  match s with
  | c :: s' => if p c then S (span p s') else 0%nat
  | [] => 0%nat
  end.

(** [countdown hi lo] is [hi, hi-1, ..., lo], empty when [hi < lo]: the
    repetition counts a greedy repetition tries, in the order it tries them. *)
Definition countdown (hi lo : nat) : list nat := rev (seq lo (S hi - lo)).

(** [ends r bot s]: the lengths of the prefixes of [s] that [r] matches, in
    the order a backtracking search finds them.  [bot] says whether [s] starts
    at the beginning of the searched text. *)
Fixpoint ends (r : regex) (bot : bool) (s : gostring) : list nat :=
  match r with
  | Class p =>
      match s with
      | c :: _ => if p c then [1%nat] else []
      | [] => []
      end
  | Seq r1 r2 =>
      n1 ← ends r1 bot s;
      n2 ← ends r2 (bot && (n1 =? 0)%nat) (drop n1 s);
      [(n1 + n2)%nat]
  | Repeat p lo hi =>
      let m := span p s in
      countdown (match hi with Some h => m `min` h | None => m end)%nat lo
  | BeginText => if bot then [0%nat] else []
  end.

(** Leftmost-first search: the first start position with a match, and there
    the first match of the backtracking order. *)
Fixpoint find_from (r : regex) (bot : bool) (s : gostring) : option gostring :=
  match ends r bot s with
  | n :: _ => Some (take n s)
  | [] =>
      match s with
      | [] => None
      | _ :: s' => find_from r false s'
      end
  end.

(** [Regexp.FindString]: the text of the leftmost match, the empty string
    if there is none. *)
Definition FindString (r : regex) (s : gostring) : gostring :=
  default [] (find_from r true s).

(** ** [strings] *)

(** [strings.NewReplacer(old1, new1, ...).Replace] for one-rune [old]s and
    [new]s: every rune is replaced after the first pair whose [old] it is. *)
Fixpoint replace_rune (pairs : list (rune * rune)) (c : rune) : rune :=
  match pairs with
  | [] => c
  | (o, n) :: rest => if c =? o then n else replace_rune rest c
  end.

Definition Replace (pairs : list (rune * rune)) (s : gostring) : gostring :=
  map (replace_rune pairs) s.

(** [unicode.ToUpper]. *)
Definition unicode_ToUpper `{UnicodeTables} (r : rune) : rune :=
  if r <=? 127 then (if is_lower r then r - 32 else r) else To_UpperCase r.

(** [strings.ToUpper]: its ASCII fast path and [Map(unicode.ToUpper, s)]
    agree, both map every rune through [unicode.ToUpper]. *)
Definition ToUpper `{UnicodeTables} (s : gostring) : gostring := map unicode_ToUpper s.

(** [strings.Split(s, sep)] for a one-rune separator; [cur] is the segment
    being read, reversed. *)
Fixpoint split_go (sep : rune) (cur : gostring) (s : gostring) : list gostring :=
  match s with
  | [] => [rev cur]
  | c :: s' => if c =? sep then rev cur :: split_go sep [] s' else split_go sep (c :: cur) s'
  end.

Definition Split (s : gostring) (sep : rune) : list gostring := split_go sep [] s.

(** ** The title parsers of gitlab.go *)

Definition slash : rune := 47.
Definition space : rune := 32.
Definition colon : rune := 58.
Definition dash : rune := 45.

(** [[a-zA-Z]+\W\d{2,5}] *)
Definition ticket_re : regex :=
  Seq (Repeat is_letter 1 None) (Seq (Class is_nonword) (Repeat is_digit 2 (Some 5%nat))).

(** [^[a-zA-Z]+\W[a-zA-Z]+\W\d{2,5}] *)
Definition mrtype_re : regex :=
  Seq BeginText
    (Seq (Repeat is_letter 1 None)
       (Seq (Class is_nonword)
          (Seq (Repeat is_letter 1 None)
             (Seq (Class is_nonword) (Repeat is_digit 2 (Some 5%nat)))))).

Definition findTicketID (s : gostring) : gostring := FindString ticket_re s.

(** The pairs of [strings.NewReplacer("/", "-", " ", "-", ":", "-")]. *)
Definition separators : list (rune * rune) := [(slash, dash); (space, dash); (colon, dash)].

Definition formatTicketID `{UnicodeTables} (s : gostring) : gostring :=
  ToUpper (Replace separators s).

(** [tempData[0]] is an index expression: [None] is the run-time panic of an
    index out of range. *)
Definition getMRType `{UnicodeTables} (s : gostring) : option gostring :=
  let sr := FindString mrtype_re s in
  let data := formatTicketID sr in
  let tempData := Split data dash in
  tempData !! 0%nat.

(** ** Records of the GitLab client library (go-gitlab), with the fields the
    plugin reads.  Times are instants on some clock; [CreatedAt], a pointer in
    Go, is always set in what the API sends and is taken as set. *)

Definition time := Z.

Module Project.
Record t := { ID : Z; Name : gostring }.
End Project.

Module User.
Record t := { Name : gostring; Username : gostring }.
End User.

Module MergeRequest.
Record t := {
  Title : gostring;
  State : gostring;
  ProjectID : Z;
  SourceProjectID : Z;
  TargetProjectID : Z;
  Upvotes : Z;
  Downvotes : Z;
  ChangesCount : gostring;
  Changes : list gostring;
  UserNotesCount : Z;
  WorkInProgress : bool;
  MergeStatus : gostring;
  Author : User.t;
  Assignee : User.t;
  UpdatedAt : option time;
  CreatedAt : time
}.
End MergeRequest.

Module Commit.
Record t := {
  ID : gostring;
  Title : gostring;
  Message : gostring;
  AuthorName : gostring;
  AuthorEmail : gostring;
  CommitterName : gostring;
  CommitterEmail : gostring;
  Stats : option (Z * Z * Z);
  Status : option gostring;
  CommittedDate : option time;
  CreatedAt : time
}.
End Commit.

(** What the client hands back with a page: the HTTP response, whose headers
    carry GitLab's paging hints ([X-Total], [X-Next-Page], ...). *)
Record Response := { StatusCode : Z; Header : list (string * string) }.

(** The triple [(items, response, err)] of a list call.  [fr_resp = None] is
    a nil response; [fr_err = Some e] a non-nil error. *)
Record fetch_result (A : Type) := {
  fr_items : list A;
  fr_resp : option Response;
  fr_err : option string
}.
Arguments fr_items {A} _.
Arguments fr_resp {A} _.
Arguments fr_err {A} _.

(** The client as the plugin uses it: the answers of the server, as a
    function of the request within one run.  Page options are
    [(Page, PerPage)]. *)
Record Client := {
  ListProjects : fetch_result Project.t;
  ListMergeRequests : Z -> Z -> fetch_result MergeRequest.t;
  ListCommits : Z -> Z -> Z -> fetch_result Commit.t
}.

(** ** The accumulator, as the trace of what a run does with it and with the
    client *)

Inductive value :=
| VInt (n : Z)
| VString (s : gostring)
| VBool (b : bool)
| VTime (t : option time)
| VStats (s : option (Z * Z * Z))
| VStatus (s : option gostring).

Record metric := {
  measurement : string;
  fields : gmap string value;
  tags : gmap string gostring;
  timestamp : time
}.

(** The errors the plugin builds with [fmt.Errorf]. *)
Inductive plugin_error :=
| ErrInvalidURL (endpoint : gostring)
| ErrHTTPGet (endpoint : gostring) (cause : string)
| ErrStatusNotOK
| ErrValueNotInMap
| ErrListProject (rep : gostring) (cause : string)
| ErrListMergeRequests (cause : string).

Inductive event :=
| EvListMergeRequests (page per_page : Z)
| EvListCommits (pid page per_page : Z)
| EvAddFields (m : metric)
| EvAddError (e : plugin_error)
| EvPrint (n : Z).

(** How a call ends: it returns (with its error result, if it has one), it
    panics, or the model's fuel for an unbounded [for] ran out. *)
Inductive outcome :=
| Return (err : option plugin_error)
| Panicked
| OutOfFuel.

(** How one turn of a pagination loop ends. *)
Inductive iter_result :=
| Continue (page : Z)
| Break
| Panic.

Inductive CancelFunc := cancel_ctx.

(** [struct Gitlab].  [ctx] holds the context's state (has its [Done] channel
    been closed), [wg] the counter of the wait group [h.wg] points to; [None]
    is nil. *)
Record Gitlab := {
  client : option Client;
  ctx : option bool;
  wg : option Z;
  cancel : option CancelFunc;
  currentPage : Z;
  projects : gmap Z gostring;
  Token : gostring;
  Endpoint : gostring;
  Repos : list gostring
}.

(** [&Gitlab{}], what the factory registered by [init] builds. *)
Definition Gitlab_zero : Gitlab :=
  {| client := None; ctx := None; wg := None; cancel := None; currentPage := 0;
     projects := ∅; Token := []; Endpoint := []; Repos := [] |}.

(** ** [mapkey]

    [range] over a Go map visits the entries in an order the language leaves
    open, and the order may change from one loop to the next.
    [mapkey_range] is the loop of [mapkey] over the entries in the order
    [range] hands them over.  That order is a parameter of the model:
    [range_order n m] is the order of the loop that the commit walker runs
    over [m] for a configured name with [n] names after it, so that every
    call of [mapkey] in a run has an order of its own; all that is known of
    it is that it is an arrangement of the entries of [m]. *)
Fixpoint mapkey_range (entries : list (Z * gostring)) (value : gostring) : Z * bool :=
  match entries with
  | [] => (0, false)
  | (k, v) :: rest => if bool_decide (v = value) then (k, true) else mapkey_range rest value
  end.

Class RangeOrder := {
  range_order : nat -> gmap Z gostring -> list (Z * gostring);
  range_order_perm : forall n m, range_order n m ≡ₚ map_to_list m
}.

Definition mapkey `{RangeOrder} (n : nat) (m : gmap Z gostring) (value : gostring) : Z * bool :=
  mapkey_range (range_order n m) value.

(** One of the orders: that of [map_to_list], in every loop.  It is there
    to run the walkers on examples. *)
Definition listed_order : RangeOrder :=
  {| range_order := fun _ m => map_to_list m;
     range_order_perm := fun _ m => Permutation_refl (map_to_list m) |}.

(** No two projects have the same name: then [mapkey] has one answer,
    whatever the order. *)
Definition distinct_names (m : gmap Z gostring) : Prop :=
  forall k k' v, m !! k = Some v -> m !! k' = Some v -> k = k'.

(** [h.projects[id]]: the zero value for a missing key. *)
Definition project_name (m : gmap Z gostring) (id : Z) : gostring := default [] (m !! id).

(** [for _, x := range items { ... acc.AddFields(...) }], where building the
    metric for an item may panic ([None]); the [bool] says whether the loop
    ran to its end. *)
Fixpoint range_AddFields {A} (mk : A -> option metric) (items : list A) : bool * list event :=
  match items with
  | [] => (true, [])
  | x :: rest =>
      match mk x with
      | None => (false, [])
      | Some m => let '(ok, evs) := range_AddFields mk rest in (ok, EvAddFields m :: evs)
      end
  end.

Definition len {A} (l : list A) : Z := Z.of_nat (length l).

Section Walkers.
Context `{UnicodeTables} `{RangeOrder}.

(** ** The metric of a merge request (gitlab.go, final variant) *)

Definition mr_fields (mr : MergeRequest.t) : gmap string value :=
  list_to_map
    [("upvotes"%string, VInt (MergeRequest.Upvotes mr));
     ("downvotes"%string, VInt (MergeRequest.Downvotes mr));
     ("changes"%string, VString (MergeRequest.ChangesCount mr));
     ("updated_at"%string, VTime (MergeRequest.UpdatedAt mr));
     ("notes_count"%string, VInt (MergeRequest.UserNotesCount mr));
     ("wip"%string, VBool (MergeRequest.WorkInProgress mr))].

Definition mr_tags (projects : gmap Z gostring) (ticketID mrType : gostring)
    (mr : MergeRequest.t) : gmap string gostring :=
  list_to_map
    [("merge_status"%string, MergeRequest.MergeStatus mr);
     ("author"%string, User.Name (MergeRequest.Author mr));
     ("username"%string, User.Username (MergeRequest.Author mr));
     ("assignee"%string, User.Name (MergeRequest.Assignee mr));
     ("project"%string, project_name projects (MergeRequest.ProjectID mr));
     ("source_project"%string, project_name projects (MergeRequest.SourceProjectID mr));
     ("target_project"%string, project_name projects (MergeRequest.TargetProjectID mr));
     ("state"%string, MergeRequest.State mr);
     ("jira_ticket_id"%string, ticketID);
     ("merge_request_type"%string, mrType)].

(** The body of [for _, mr := range mrs] up to the call of [AddFields]. *)
Definition mr_metric (projects : gmap Z gostring) (mr : MergeRequest.t) : option metric :=
  let ticketID := formatTicketID (findTicketID (MergeRequest.Title mr)) in
  mrType ← getMRType (MergeRequest.Title mr);
  Some {| measurement := "merge_requests";
          fields := mr_fields mr;
          tags := mr_tags projects ticketID mrType mr;
          timestamp := MergeRequest.CreatedAt mr |}.

(** ** [fetchMergeRequests]: one turn of its [for], the loop, the function *)

Definition mr_iter (cl : Client) (projects : gmap Z gostring) (pp page : Z)
    : iter_result * list event :=
  let r := ListMergeRequests cl page pp in
  let asked := [EvListMergeRequests page pp] in
  match fr_err r with
  | Some e => (Break, asked ++ [EvAddError (ErrListMergeRequests e)])
  | None =>
      let '(ok, evs) := range_AddFields (mr_metric projects) (fr_items r) in
      if negb ok then (Panic, asked ++ evs)
      else
        match fr_resp r with
        | None => (Panic, asked ++ evs)
        | Some _ =>
            let page' := page + 1 in
            if len (fr_items r) <? pp then (Break, asked ++ evs)
            else (Continue page', asked ++ evs)
        end
  end.

Fixpoint mr_loop (cl : Client) (projects : gmap Z gostring) (pp : Z) (fuel : nat) (page : Z)
    : outcome * list event :=
  match fuel with
  | O => (OutOfFuel, [])
  | S fuel' =>
      let '(r, evs) := mr_iter cl projects pp page in
      match r with
      | Continue page' =>
          let '(o, evs') := mr_loop cl projects pp fuel' page' in (o, evs ++ evs')
      | Break => (Return None, evs)
      | Panic => (Panicked, evs)
      end
  end.

(** [pp := 100; page := 0; for { ... }]; a nil [h.client] panics at the first
    call.  The deferred [h.wg.Done()] belongs to the goroutine and is in
    [step] below. *)
Definition fetchMergeRequests (h : Gitlab) (fuel : nat) : outcome * list event :=
  match client h with
  | None => (Panicked, [])
  | Some cl => mr_loop cl (projects h) 100 fuel 0
  end.

(** ** [fetchCommits] *)

Definition commit_metric (c : Commit.t) : metric :=
  {| measurement := "commits";
     fields := list_to_map
       [("stats"%string, VStats (Commit.Stats c));
        ("message"%string, VString (Commit.Message c));
        ("status"%string, VStatus (Commit.Status c));
        ("committed_at"%string, VTime (Commit.CommittedDate c))];
     tags := list_to_map
       [("ID"%string, Commit.ID c);
        ("title"%string, Commit.Title c);
        ("author_name"%string, Commit.AuthorName c);
        ("author_email"%string, Commit.AuthorEmail c);
        ("committer_name"%string, Commit.CommitterName c);
        ("committer_email"%string, Commit.CommitterEmail c)];
     timestamp := Commit.CreatedAt c |}.

(** One turn of the inner [for]: the error is reported and the turn goes on
    with whatever [commits] and [rs] the call returned. *)
Definition commits_iter (cl : Client) (rep : gostring) (key pp page : Z)
    : iter_result * list event :=
  let r := ListCommits cl key page pp in
  let asked := [EvListCommits key page pp] in
  let reported :=
    match fr_err r with
    | Some e => [EvAddError (ErrListProject rep e)]
    | None => []
    end in
  let '(ok, evs) := range_AddFields (fun c => Some (commit_metric c)) (fr_items r) in
  if negb ok then (Panic, asked ++ reported ++ evs)
  else
    match fr_resp r with
    | None => (Panic, asked ++ reported ++ evs)
    | Some _ =>
        let page' := page + 1 in
        if len (fr_items r) <? pp then (Break, asked ++ reported ++ evs)
        else (Continue page', asked ++ reported ++ evs)
    end.

Fixpoint commits_loop (cl : Client) (rep : gostring) (key pp : Z) (fuel : nat) (page : Z)
    : outcome * list event :=
  match fuel with
  | O => (OutOfFuel, [])
  | S fuel' =>
      let '(r, evs) := commits_iter cl rep key pp page in
      match r with
      | Continue page' =>
          let '(o, evs') := commits_loop cl rep key pp fuel' page' in (o, evs ++ evs')
      | Break => (Return None, evs)
      | Panic => (Panicked, evs)
      end
  end.

(** The head of the outer loop's body: [key, ok := mapkey(h.projects, rep)]
    and the report when [ok] is false.  Nothing leaves the body there.  [n]
    is the number of configured names after [rep]. *)
Definition resolve_repo (n : nat) (projects : gmap Z gostring) (rep : gostring)
    : Z * list event :=
  let '(key, ok) := mapkey n projects rep in
  (key, if ok then [] else [EvAddError ErrValueNotInMap]).

(** [for _, rep := range h.Repos { ... }]; every inner loop has [fuel] turns. *)
Fixpoint commits_range (cl : Client) (projects : gmap Z gostring) (fuel : nat)
    (repos : list gostring) : outcome * list event :=
  match repos with
  | [] => (Return None, [])
  | rep :: rest =>
      let '(key, reported) := resolve_repo (length rest) projects rep in
      let '(o, evs) := commits_loop cl rep key 100 fuel 0 in
      match o with
      | Return _ =>
          let '(o', evs') := commits_range cl projects fuel rest in
          (o', reported ++ evs ++ evs')
      | _ => (o, reported ++ evs)
      end
  end.

Definition fetchCommits (h : Gitlab) (fuel : nat) : outcome * list event :=
  match Repos h with
  | [] => (Return None, [])
  | rep :: rest =>
      match client h with
      | None =>
          let '(_, reported) := resolve_repo (length rest) (projects h) rep in
          (Panicked, reported)
      | Some cl => commits_range cl (projects h) fuel (Repos h)
      end
  end.

(** ** Lifecycle: [Start], [Stop], [Gather] *)

(** What [Start] needs from outside the plugin: whether [url.Parse] accepts
    the endpoint, and the client [gitlab.NewClient] and [SetBaseURL] set up
    for a token and a base URL. *)
Record World := {
  url_Parse : gostring -> bool;
  NewClient : gostring -> gostring -> Client
}.

Definition with_sync (h : Gitlab) (c : option bool) (f : option CancelFunc) (w : option Z)
    : Gitlab :=
  {| client := client h; ctx := c; wg := w; cancel := f; currentPage := currentPage h;
     projects := projects h; Token := Token h; Endpoint := Endpoint h; Repos := Repos h |}.

Definition with_client (h : Gitlab) (cl : option Client) : Gitlab :=
  {| client := cl; ctx := ctx h; wg := wg h; cancel := cancel h; currentPage := currentPage h;
     projects := projects h; Token := Token h; Endpoint := Endpoint h; Repos := Repos h |}.

Definition with_projects (h : Gitlab) (m : gmap Z gostring) : Gitlab :=
  {| client := client h; ctx := ctx h; wg := wg h; cancel := cancel h; currentPage := currentPage h;
     projects := m; Token := Token h; Endpoint := Endpoint h; Repos := Repos h |}.

(** [h.projects = make(map[int]string); for _, p := range ps { h.projects[p.ID] = p.Name }] *)
Definition build_projects (ps : list Project.t) : gmap Z gostring :=
  foldl (fun m p => <[Project.ID p := Project.Name p]> m) ∅ ps.

(** [Start] up to its two [go] statements, which it reaches exactly when it
    returns nil. *)
Definition Start (w : World) (h : Gitlab) : Gitlab * outcome :=
  let h1 := with_sync h (Some false) (Some cancel_ctx) (Some (0 + 1)) in
  if negb (url_Parse w (Endpoint h1)) then (h1, Return (Some (ErrInvalidURL (Endpoint h1))))
  else
    let cl := NewClient w (Token h1) (Endpoint h1) in
    let h2 := with_client h1 (Some cl) in
    let r := ListProjects cl in
    match fr_err r with
    | Some e => (h2, Return (Some (ErrHTTPGet (Endpoint h2) e)))
    | None =>
        let h3 := with_projects h2 (build_projects (fr_items r)) in
        match fr_resp r with
        | None => (h3, Panicked)
        | Some resp =>
            if negb (StatusCode resp =? 200) then (h3, Return (Some ErrStatusNotOK))
            else (h3, Return None)
        end
    end.

(** [h.cancel()]: calling a nil func panics ([None]); otherwise the context
    is cancelled. *)
Definition Stop_cancel (h : Gitlab) : option Gitlab :=
  match cancel h with
  | None => None
  | Some cancel_ctx => Some (with_sync h (Some true) (cancel h) (wg h))
  end.

(** [h.wg.Wait()]: panics on a nil wait group ([None]); otherwise it returns
    when the counter is zero ([Some true]) and blocks until then. *)
Definition Stop_wait (h : Gitlab) : option bool :=
  match wg h with
  | None => None
  | Some n => Some (n =? 0)
  end.

Inductive stop_outcome := StopReturns | StopBlocks | StopPanics.

(** [Stop] when no goroutine moves while it runs. *)
Definition Stop (h : Gitlab) : Gitlab * stop_outcome :=
  match Stop_cancel h with
  | None => (h, StopPanics)
  | Some h' =>
      match Stop_wait h' with
      | None => (h', StopPanics)
      | Some true => (h', StopReturns)
      | Some false => (h', StopBlocks)
      end
  end.

Definition Gather (h : Gitlab) : Gitlab * outcome := (h, Return None).

(** The public operations of the collector, and a caller running them one
    after the other; [None] once one of them has panicked. *)
Inductive op := OpDescription | OpSampleConfig | OpGather | OpStop | OpStart.

Definition apply_op (w : World) (o : op) (h : Gitlab) : option Gitlab :=
  match o with
  | OpDescription | OpSampleConfig => Some h
  | OpGather => Some (fst (Gather h))
  | OpStop => match Stop h with (_, StopPanics) => None | (h', _) => Some h' end
  | OpStart => match Start w h with (_, Panicked) => None | (h', _) => Some h' end
  end.

Fixpoint apply_ops (w : World) (ops : list op) (h : Gitlab) : option Gitlab :=
  match ops with
  | [] => Some h
  | o :: rest => h' ← apply_op w o h; apply_ops w rest h'
  end.

(** ** The goroutines

    After a [Start] that returned nil two goroutines run next to the caller.
    A state holds the shared struct, where each goroutine stands, where a
    call of [Stop] stands, and the accumulator's trace; a step is one turn of
    a pagination loop, or one statement of [Stop]. *)

Inductive mr_goroutine :=
| MRRun (page : Z)
| MRExited.

Inductive cm_goroutine :=
| CMRange (repos : list gostring)
| CMLoop (rep : gostring) (key page : Z) (rest : list gostring)
| CMExited.

Inductive stop_call :=
| StopNotCalled
| StopWaiting
| StopReturned.

Record State := {
  st_h : Gitlab;
  st_mr : mr_goroutine;
  st_cm : cm_goroutine;
  st_stop : stop_call;
  st_acc : list event;
  st_crashed : bool
}.

Definition launched (h : Gitlab) : State :=
  {| st_h := h; st_mr := MRRun 0; st_cm := CMRange (Repos h); st_stop := StopNotCalled;
     st_acc := []; st_crashed := false |}.

Definition crash (s : State) (evs : list event) : State :=
  {| st_h := st_h s; st_mr := st_mr s; st_cm := st_cm s; st_stop := st_stop s;
     st_acc := st_acc s ++ evs; st_crashed := true |}.

(** [h.wg.Done()]: [None] is the panic of a nil wait group or of a counter
    that would go negative. *)
Definition wg_Done (h : Gitlab) : option Gitlab :=
  match wg h with
  | None => None
  | Some n => if n - 1 <? 0 then None else Some (with_sync h (ctx h) (cancel h) (Some (n - 1)))
  end.

(** One turn of [fetchMergeRequests]; leaving the loop runs the deferred
    [h.wg.Done()]. *)
Definition step_mr (s : State) : option State :=
  match st_mr s with
  | MRExited => None
  | MRRun page =>
      match client (st_h s) with
      | None => Some (crash s [])
      | Some cl =>
          let '(r, evs) := mr_iter cl (projects (st_h s)) 100 page in
          match r with
          | Continue page' =>
              Some {| st_h := st_h s; st_mr := MRRun page'; st_cm := st_cm s;
                      st_stop := st_stop s; st_acc := st_acc s ++ evs;
                      st_crashed := false |}
          | Break =>
              match wg_Done (st_h s) with
              | None => Some (crash s evs)
              | Some h' =>
                  Some {| st_h := h'; st_mr := MRExited; st_cm := st_cm s;
                          st_stop := st_stop s; st_acc := st_acc s ++ evs;
                          st_crashed := false |}
              end
          | Panic => Some (crash s evs)
          end
      end
  end.

(** One step of [fetchCommits]: the head of the outer loop's body, or one
    turn of the inner loop.  It has no deferred call. *)
Definition step_cm (s : State) : option State :=
  let move (g : cm_goroutine) (evs : list event) :=
    Some {| st_h := st_h s; st_mr := st_mr s; st_cm := g; st_stop := st_stop s;
            st_acc := st_acc s ++ evs; st_crashed := false |} in
  match st_cm s with
  | CMExited => None
  | CMRange [] => move CMExited []
  | CMRange (rep :: rest) =>
      let '(key, reported) := resolve_repo (length rest) (projects (st_h s)) rep in
      move (CMLoop rep key 0 rest) reported
  | CMLoop rep key page rest =>
      match client (st_h s) with
      | None => Some (crash s [])
      | Some cl =>
          let '(r, evs) := commits_iter cl rep key 100 page in
          match r with
          | Continue page' => move (CMLoop rep key page' rest) evs
          | Break => move (CMRange rest) evs
          | Panic => Some (crash s evs)
          end
      end
  end.

(** The caller of [Stop]: first [h.cancel()], then [h.wg.Wait()], which is
    not enabled while the counter is above zero. *)
Definition step_stop (s : State) : option State :=
  match st_stop s with
  | StopNotCalled =>
      match Stop_cancel (st_h s) with
      | None => Some (crash s [])
      | Some h' =>
          Some {| st_h := h'; st_mr := st_mr s; st_cm := st_cm s; st_stop := StopWaiting;
                  st_acc := st_acc s; st_crashed := false |}
      end
  | StopWaiting =>
      match Stop_wait (st_h s) with
      | None => Some (crash s [])
      | Some true =>
          Some {| st_h := st_h s; st_mr := st_mr s; st_cm := st_cm s; st_stop := StopReturned;
                  st_acc := st_acc s; st_crashed := false |}
      | Some false => None
      end
  | StopReturned => None
  end.

Inductive actor := MergeRequestWalker | CommitWalker | Stopper.

(** A panic ends the process: nothing steps in a crashed state. *)
Definition step (a : actor) (s : State) : option State :=
  if st_crashed s then None
  else
    match a with
    | MergeRequestWalker => step_mr s
    | CommitWalker => step_cm s
    | Stopper => step_stop s
    end.

(** A schedule is the order in which the actors take their steps. *)
Fixpoint run (sched : list actor) (s : State) : option State :=
  match sched with
  | [] => Some s
  | a :: rest => s' ← step a s; run rest s'
  end.

(** Page requests in a trace. *)
Definition is_fetch (e : event) : bool :=
  match e with
  | EvListMergeRequests _ _ | EvListCommits _ _ _ => true
  | _ => false
  end.

Definition fetches (evs : list event) : list event := filter (fun e => is_fetch e = true) evs.

Definition metrics (evs : list event) : list metric :=
  omap (fun e => match e with EvAddFields m => Some m | _ => None end) evs.

End Walkers.

(** ** The early variant: [Gather] pages through the merge requests itself,
    with a label and a [goto] *)

Module Early.

Record Gitlab := {
  client : option Client;
  Token : gostring;
  Endpoint : gostring
}.

Definition mr_metric (projects : gmap Z gostring) (mr : MergeRequest.t) : metric :=
  {| measurement := "merge_requests";
     fields := list_to_map
       [("upvotes"%string, VInt (MergeRequest.Upvotes mr));
        ("downvotes"%string, VInt (MergeRequest.Downvotes mr));
        ("changes"%string, VString (MergeRequest.ChangesCount mr));
        ("changes_two"%string, VInt (len (MergeRequest.Changes mr)));
        ("wip"%string, VBool (MergeRequest.WorkInProgress mr))];
     tags := list_to_map
       [("author"%string, User.Name (MergeRequest.Author mr));
        ("username"%string, User.Username (MergeRequest.Author mr));
        ("assignee"%string, User.Name (MergeRequest.Assignee mr));
        ("project"%string, project_name projects (MergeRequest.ProjectID mr));
        ("state"%string, MergeRequest.State mr)];
     timestamp := MergeRequest.CreatedAt mr |}.

(** One pass from the label [getmr]: it ends in [goto getmr] with the next
    page number, in a [return], or in a panic. *)
Inductive pass_result :=
| Goto (cp : Z)
| Returns (err : option plugin_error)
| Panics.

Definition getmr_pass (cl : Client) (projects : gmap Z gostring) (cp : Z)
    : pass_result * list event :=
  let r := ListMergeRequests cl cp 100 in
  let asked := [EvListMergeRequests cp 100] in
  match fr_err r with
  | Some e => (Returns (Some (ErrListMergeRequests e)), asked)
  | None =>
      let printed := [EvPrint (len (fr_items r))] in
      let '(ok, evs) := range_AddFields (fun mr => Some (mr_metric projects mr)) (fr_items r) in
      if negb ok then (Panics, asked ++ printed ++ evs)
      else
        match fr_resp r with
        | None => (Panics, asked ++ printed ++ evs)
        | Some _ =>
            if len (fr_items r) =? 100 then
              let cp' := cp + 1 in (Goto cp', asked ++ printed ++ evs)
            else (Returns None, asked ++ printed ++ evs)
        end
  end.

(** From the label [getmr] to the end of [Gather]; every jump back to the
    label takes one unit of [fuel]. *)
Fixpoint getmr (cl : Client) (projects : gmap Z gostring) (fuel : nat) (cp : Z)
    : outcome * list event :=
  match fuel with
  | O => (OutOfFuel, [])
  | S fuel' =>
      let '(r, evs) := getmr_pass cl projects cp in
      match r with
      | Goto cp' => let '(o, evs') := getmr cl projects fuel' cp' in (o, evs ++ evs')
      | Returns err => (Return err, evs)
      | Panics => (Panicked, evs)
      end
  end.

Definition Gather (w : World) (h : Gitlab) (fuel : nat) : Gitlab * (outcome * list event) :=
  if negb (url_Parse w (Endpoint h)) then (h, (Return (Some (ErrInvalidURL (Endpoint h))), []))
  else
    let cl := match client h with
              | None => NewClient w (Token h) (Endpoint h)
              | Some cl => cl
              end in
    let h' := {| client := Some cl; Token := Token h; Endpoint := Endpoint h |} in
    let r := ListProjects cl in
    match fr_err r with
    | Some e => (h', (Return (Some (ErrHTTPGet (Endpoint h) e)), []))
    | None =>
        match fr_resp r with
        | None => (h', (Panicked, []))
        | Some resp =>
            let projects := build_projects (fr_items r) in
            if negb (StatusCode resp =? 200) then (h', (Return (Some ErrStatusNotOK), []))
            else (h', getmr cl projects fuel 0)
        end
    end.

End Early.

(** ** A source of items behind the client

    A list call on a source that holds [items] answers page [page] of size
    [pp] with the items at positions [page*pp .. page*pp + pp - 1] (pages
    are numbered from 0, as the walkers number them), without error. *)

Definition ok_response : Response := {| StatusCode := 200; Header := [] |}.

Definition page_of {A} (items : list A) (pp page : Z) : list A :=
  take (Z.to_nat pp) (drop (Z.to_nat (page * pp)) items).

Definition serve {A} (items : list A) (page pp : Z) : fetch_result A :=
  {| fr_items := page_of items pp page; fr_resp := Some ok_response; fr_err := None |}.

Definition source_client (ps : list Project.t) (mrs : list MergeRequest.t)
    (commits : Z -> list Commit.t) : Client :=
  {| ListProjects := {| fr_items := ps; fr_resp := Some ok_response; fr_err := None |};
     ListMergeRequests := serve mrs;
     ListCommits := fun pid => serve (commits pid) |}.

(** [ceil(n/p)] for [0 <= n], [0 < p]. *)
Definition ceil_div (n p : Z) : Z := (n + p - 1) / p.

(** ** The patterns as the specification words them

    The specification describes the ticket token as word characters, one
    non-word separator, two to five digits, and the type prefix as word
    characters, separator, word characters, separator, two to five digits at
    the start of the title.  These are those patterns, run by the same
    matcher, to be compared with [findTicketID] and [getMRType]. *)

Definition ticket_re_spec : regex :=
  Seq (Repeat is_word 1 None) (Seq (Class is_nonword) (Repeat is_digit 2 (Some 5%nat))).

Definition mrtype_re_spec : regex :=
  Seq BeginText
    (Seq (Repeat is_word 1 None)
       (Seq (Class is_nonword)
          (Seq (Repeat is_word 1 None)
             (Seq (Class is_nonword) (Repeat is_digit 2 (Some 5%nat)))))).

Definition findTicketID_spec (s : gostring) : gostring := FindString ticket_re_spec s.

Definition getMRType_spec `{UnicodeTables} (s : gostring) : option gostring :=
  Split (formatTicketID (FindString mrtype_re_spec s)) dash !! 0%nat.

(** ** What a pattern matches, without a search order

    [Matches r bot s n]: [r] matches the first [n] runes of [s]. *)
Inductive Matches : regex -> bool -> gostring -> nat -> Prop :=
| MClass p bot c s : p c = true -> Matches (Class p) bot (c :: s) 1
| MSeq r1 r2 bot s n1 n2 :
    Matches r1 bot s n1 ->
    Matches r2 (bot && (n1 =? 0)%nat) (drop n1 s) n2 ->
    Matches (Seq r1 r2) bot s (n1 + n2)
| MRepeat p lo hi bot s n :
    (lo <= n)%nat ->
    (n <= length s)%nat ->
    (forall h, hi = Some h -> (n <= h)%nat) ->
    Forall (fun c => p c = true) (take n s) ->
    Matches (Repeat p lo hi) bot s n
| MBeginText s : Matches BeginText true s 0.


(** ** The traces the walkers are expected to leave *)

(** The first [-]-separated segment of a string. *)
Definition first_segment (s : gostring) : gostring :=
  take (span (fun c => negb (c =? dash)) s) s.

Section Expected.
Context `{UnicodeTables}.

(** The metric of a merge request, with the type label read off as the first
    segment ([mr_metric_total] below: this is what [mr_metric] builds). *)
Definition mr_record (projects : gmap Z gostring) (mr : MergeRequest.t) : metric :=
  {| measurement := "merge_requests";
     fields := mr_fields mr;
     tags := mr_tags projects (formatTicketID (findTicketID (MergeRequest.Title mr)))
               (first_segment (formatTicketID (FindString mrtype_re (MergeRequest.Title mr)))) mr;
     timestamp := MergeRequest.CreatedAt mr |}.

(** A run over [pages], numbered from [page] on: for each page its request,
    then one [AddFields] per item in the order of the page. *)
Fixpoint walk_trace {A} (ask : Z -> event) (mk : A -> metric) (page : Z)
    (pages : list (list A)) : list event :=
  match pages with
  | [] => []
  | p :: rest =>
      ask page :: map (fun x => EvAddFields (mk x)) p ++ walk_trace ask mk (page + 1) rest
  end.

End Expected.

(** The client answers the first [length pages] merge-request pages of size
    [pp] with the lists in [pages], without error and with a response. *)
Definition serves_mrs (cl : Client) (pp : Z) (pages : list (list MergeRequest.t)) : Prop :=
  forall (i : nat) p, pages !! i = Some p ->
    fr_items (ListMergeRequests cl (Z.of_nat i) pp) = p /\
    fr_err (ListMergeRequests cl (Z.of_nat i) pp) = None /\
    is_Some (fr_resp (ListMergeRequests cl (Z.of_nat i) pp)).

Definition serves_commits (cl : Client) (pid pp : Z) (pages : list (list Commit.t)) : Prop :=
  forall (i : nat) p, pages !! i = Some p ->
    fr_items (ListCommits cl pid (Z.of_nat i) pp) = p /\
    fr_err (ListCommits cl pid (Z.of_nat i) pp) = None /\
    is_Some (fr_resp (ListCommits cl pid (Z.of_nat i) pp)).

(** Every page but the last is full, the last one is short. *)
Definition ends_short {A} (pp : Z) (pages : list (list A)) : Prop :=
  exists full short, pages = full ++ [short] /\
    Forall (fun p => pp <= len p) full /\ len short < pp.

(** ** Tokens, without a matcher *)

Definition all_in (p : rune -> bool) (s : gostring) : Prop := Forall (fun c => p c = true) s.

(** What the code's ticket pattern matches: a non-empty run of ASCII letters,
    one non-word rune, two to five digits. *)
Definition ticket_token (m : gostring) : Prop :=
  exists w c ds, m = w ++ c :: ds /\ w <> [] /\ all_in is_letter w /\
    is_nonword c = true /\ all_in is_digit ds /\ (2 <= length ds <= 5)%nat.

(** The specification's wording of it: word characters in place of letters. *)
Definition ticket_token_spec (m : gostring) : Prop :=
  exists w c ds, m = w ++ c :: ds /\ w <> [] /\ all_in is_word w /\
    is_nonword c = true /\ all_in is_digit ds /\ (2 <= length ds <= 5)%nat.

(** What the code's type pattern matches: letters, a non-word rune, letters,
    a non-word rune, two to five digits. *)
Definition type_token (m : gostring) : Prop :=
  exists w1 c1 w2 c2 ds, m = w1 ++ c1 :: w2 ++ c2 :: ds /\
    w1 <> [] /\ all_in is_letter w1 /\ is_nonword c1 = true /\
    w2 <> [] /\ all_in is_letter w2 /\ is_nonword c2 = true /\
    all_in is_digit ds /\ (2 <= length ds <= 5)%nat.

Definition type_token_spec (m : gostring) : Prop :=
  exists w1 c1 w2 c2 ds, m = w1 ++ c1 :: w2 ++ c2 :: ds /\
    w1 <> [] /\ all_in is_word w1 /\ is_nonword c1 = true /\
    w2 <> [] /\ all_in is_word w2 /\ is_nonword c2 = true /\
    all_in is_digit ds /\ (2 <= length ds <= 5)%nat.

(** [m] occurs in [s] after [length pre] runes. *)
Definition occurs_at (pre m s : gostring) : Prop := exists post, s = pre ++ m ++ post.

(** The type pattern after its [^]. *)
Definition type_body : regex :=
  Seq (Repeat is_letter 1 None)
    (Seq (Class is_nonword)
       (Seq (Repeat is_letter 1 None)
          (Seq (Class is_nonword) (Repeat is_digit 2 (Some 5%nat))))).


(** A rune on which the case table does nothing that normalizing again would
    undo: an ASCII rune, or one whose upper-case form the table gives is left
    alone by [unicode.ToUpper] and is not one of the separators. *)
Definition upper_stable `{UnicodeTables} (r : rune) : Prop :=
  r <= 127 \/
  (unicode_ToUpper (To_UpperCase r) = To_UpperCase r /\
   replace_rune separators (To_UpperCase r) = To_UpperCase r).

(** A case table for texts without cased letters above ASCII, to run the
    definitions on examples. *)
Definition caseless_tables : UnicodeTables := fun r => r.

(** [n] page requests in a row, from page [first] on. *)
Definition requests (ask : Z -> event) (first : Z) (n : nat) : list event :=
  map (fun i => ask (first + Z.of_nat i)) (seq 0 n).

(** [l] cut into [n] pieces of [pp] items and the rest. *)
Fixpoint chunks {A} (n pp : nat) (l : list A) : list (list A) :=
  match n with
  | O => [l]
  | S n' => take pp l :: chunks n' pp (drop pp l)
  end.

(** The pages a source of [items] serves to a walker that asks for pages of
    [pp] until one is short. *)
Definition pages_of {A} (items : list A) (pp : Z) : list (list A) :=
  chunks (Z.to_nat (len items / pp)) (Z.to_nat pp) items.

(** The same state with another cancellation signal. *)
Definition set_ctx (c : option bool) (s : State) : State :=
  {| st_h := with_sync (st_h s) c (cancel (st_h s)) (wg (st_h s));
     st_mr := st_mr s; st_cm := st_cm s; st_stop := st_stop s;
     st_acc := st_acc s; st_crashed := st_crashed s |}.

(** ** Concrete servers for the examples *)

Definition blank_user : User.t := {| User.Name := []; User.Username := [] |}.

Definition blank_mr : MergeRequest.t :=
  {| MergeRequest.Title := []; MergeRequest.State := []; MergeRequest.ProjectID := 0;
     MergeRequest.SourceProjectID := 0; MergeRequest.TargetProjectID := 0;
     MergeRequest.Upvotes := 0; MergeRequest.Downvotes := 0;
     MergeRequest.ChangesCount := []; MergeRequest.Changes := [];
     MergeRequest.UserNotesCount := 0; MergeRequest.WorkInProgress := false;
     MergeRequest.MergeStatus := []; MergeRequest.Author := blank_user;
     MergeRequest.Assignee := blank_user; MergeRequest.UpdatedAt := None;
     MergeRequest.CreatedAt := 0 |}.

Definition blank_commit : Commit.t :=
  {| Commit.ID := []; Commit.Title := []; Commit.Message := []; Commit.AuthorName := [];
     Commit.AuthorEmail := []; Commit.CommitterName := []; Commit.CommitterEmail := [];
     Commit.Stats := None; Commit.Status := None; Commit.CommittedDate := None;
     Commit.CreatedAt := 0 |}.

Definition two_projects : list Project.t :=
  [ {| Project.ID := 1; Project.Name := runes "a" |};
    {| Project.ID := 2; Project.Name := runes "b" |} ].

(** A server whose every merge-request page is full. *)
Definition endless_client : Client :=
  {| ListProjects := {| fr_items := two_projects; fr_resp := Some ok_response; fr_err := None |};
     ListMergeRequests := fun _ _ =>
       {| fr_items := replicate 100 blank_mr; fr_resp := Some ok_response; fr_err := None |};
     ListCommits := fun _ _ _ =>
       {| fr_items := []; fr_resp := Some ok_response; fr_err := None |} |}.

(** A server that cannot be reached once the projects are listed: the
    client library returns nil items, a nil response and the transport
    error. *)
Definition unreachable_client : Client :=
  {| ListProjects := {| fr_items := two_projects; fr_resp := Some ok_response; fr_err := None |};
     ListMergeRequests := fun _ _ =>
       {| fr_items := []; fr_resp := None; fr_err := Some "connection refused"%string |};
     ListCommits := fun _ _ _ =>
       {| fr_items := []; fr_resp := None; fr_err := Some "connection refused"%string |} |}.

(** A server with one commit in project 2 and a 404 for any other project;
    with a 404 the client library returns nil items, the response and an
    error. *)
Definition small_client : Client :=
  {| ListProjects := {| fr_items := two_projects; fr_resp := Some ok_response; fr_err := None |};
     ListMergeRequests := fun _ _ =>
       {| fr_items := []; fr_resp := Some ok_response; fr_err := None |};
     ListCommits := fun pid page pp =>
       if pid =? 2 then serve [blank_commit] page pp
       else {| fr_items := []; fr_resp := Some {| StatusCode := 404; Header := [] |};
               fr_err := Some "404 Project Not Found"%string |} |}.

(** A server without merge requests and with one commit in every project. *)
Definition one_commit_client : Client :=
  {| ListProjects := {| fr_items := two_projects; fr_resp := Some ok_response; fr_err := None |};
     ListMergeRequests := fun _ _ =>
       {| fr_items := []; fr_resp := Some ok_response; fr_err := None |};
     ListCommits := fun _ => serve [blank_commit] |}.

(** A collector with its settings read from the configuration, and never
    started: the unexported fields are as in [&Gitlab{}]. *)
Definition configured : Gitlab :=
  {| client := None; ctx := None; wg := None; cancel := None; currentPage := 0;
     projects := ∅; Token := runes "abcd1234"; Endpoint := runes "https://gitlab.com";
     Repos := [runes "a"; runes "b"] |}.

(** The collector as [Start] leaves it when it has launched the goroutines
    against [cl], with the projects of [two_projects]. *)
Definition started (cl : Client) (repos : list gostring) : Gitlab :=
  {| client := Some cl; ctx := Some false; wg := Some 1; cancel := Some cancel_ctx;
     currentPage := 0; projects := build_projects two_projects;
     Token := runes "abcd1234"; Endpoint := runes "https://gitlab.com"; Repos := repos |}.

Definition world_of (cl : Client) : World :=
  {| url_Parse := fun _ => true; NewClient := fun _ _ => cl |}.

(** ** The shape the pagination loops share

    [mr_loop] and [commits_loop] are the same [for] around different turns;
    [pagination_loop] is that [for] around any turn. *)
Fixpoint pagination_loop (iter : Z -> iter_result * list event) (fuel : nat) (page : Z)
    : outcome * list event :=
  match fuel with
  | O => (OutOfFuel, [])
  | S fuel' =>
      let '(r, evs) := iter page in
      match r with
      | Continue page' =>
          let '(o, evs') := pagination_loop iter fuel' page' in (o, evs ++ evs')
      | Break => (Return None, evs)
      | Panic => (Panicked, evs)
      end
  end.

(** A turn on a page [p] that came without error and with a response: the
    request, one [AddFields] per item, and on to the next page unless [p] is
    short. *)
Definition turn_on {A} (ask : Z -> event) (mk : A -> metric) (pp page : Z) (p : list A)
    : iter_result * list event :=
  (if len p <? pp then Break else Continue (page + 1),
   ask page :: map (fun x => EvAddFields (mk x)) p).

(** From page [k] on, the turns of [iter] are turns on the pages [pages]. *)
Definition turns_on {A} (iter : Z -> iter_result * list event) (ask : Z -> event)
    (mk : A -> metric) (pp : Z) (k : nat) (pages : list (list A)) : Prop :=
  forall (i : nat) p, pages !! i = Some p ->
    iter (Z.of_nat (k + i)) = turn_on ask mk pp (Z.of_nat (k + i)) p.

Definition ask_mrs (pp page : Z) : event := EvListMergeRequests page pp.
Definition ask_commits (pid pp page : Z) : event := EvListCommits pid page pp.

(** A server with 101 merge requests. *)
Definition two_pages : list (list MergeRequest.t) := [replicate 100 blank_mr; [blank_mr]].

Definition two_page_client : Client :=
  source_client two_projects (concat two_pages) (fun _ => []).

(** The merge-request page requests in a trace. *)
Definition is_mr_fetch (e : event) : bool :=
  match e with
  | EvListMergeRequests _ _ => true
  | _ => false
  end.

Definition mr_fetches (evs : list event) : list event :=
  filter (fun e => is_mr_fetch e = true) evs.

(** The cancellation property as the specification words it for the
    merge-request walker: once the signal has fired, the walker finishes at
    most the page it is on and asks for no further page. *)
Definition stops_after_current_page `{UnicodeTables} `{RangeOrder} : Prop :=
  forall h before s1 after s2,
    run before (launched h) = Some s1 ->
    ctx (st_h s1) = Some true ->
    run after s1 = Some s2 ->
    (length (mr_fetches (st_acc s2)) <= S (length (mr_fetches (st_acc s1))))%nat.

(** What holds of the wait group while the goroutines run. *)
Definition wg_tracks_mr (s : State) : Prop :=
  match st_mr s with
  | MRRun _ => wg (st_h s) = Some 1 /\ st_stop s <> StopReturned
  | MRExited => wg (st_h s) = Some 0
  end.

(** The state right after the cancellation step of a [Stop] called before
    any goroutine has moved. *)
Definition after_stop_request (h : Gitlab) : State :=
  {| st_h := with_sync h (Some true) (cancel h) (wg h); st_mr := MRRun 0;
     st_cm := CMRange (Repos h); st_stop := StopWaiting; st_acc := [];
     st_crashed := false |}.

(** ** The middle variant: [fetchMergeRequests] as a goroutine, before the
    ticket and type tags and before the commit walker *)

Module Middle.

Record Gitlab := {
  client : option Client;
  ctx : option bool;
  wg : option Z;
  cancel : option CancelFunc;
  currentPage : Z;
  projects : gmap Z gostring;
  Token : gostring;
  Endpoint : gostring
}.

Definition mr_metric (projects : gmap Z gostring) (mr : MergeRequest.t) : metric :=
  {| measurement := "merge_requests";
     fields := list_to_map
       [("upvotes"%string, VInt (MergeRequest.Upvotes mr));
        ("downvotes"%string, VInt (MergeRequest.Downvotes mr));
        ("changes"%string, VString (MergeRequest.ChangesCount mr));
        ("updated_at"%string, VTime (MergeRequest.UpdatedAt mr));
        ("notes_count"%string, VInt (MergeRequest.UserNotesCount mr));
        ("wip"%string, VBool (MergeRequest.WorkInProgress mr))];
     tags := list_to_map
       [("merge_status"%string, MergeRequest.MergeStatus mr);
        ("author"%string, User.Name (MergeRequest.Author mr));
        ("username"%string, User.Username (MergeRequest.Author mr));
        ("assignee"%string, User.Name (MergeRequest.Assignee mr));
        ("project"%string, project_name projects (MergeRequest.ProjectID mr));
        ("state"%string, MergeRequest.State mr)];
     timestamp := MergeRequest.CreatedAt mr |}.

Definition mr_iter (cl : Client) (projects : gmap Z gostring) (pp page : Z)
    : iter_result * list event :=
  let r := ListMergeRequests cl page pp in
  let asked := [EvListMergeRequests page pp] in
  match fr_err r with
  | Some e => (Break, asked ++ [EvAddError (ErrListMergeRequests e)])
  | None =>
      let '(ok, evs) :=
        range_AddFields (fun mr => Some (mr_metric projects mr)) (fr_items r) in
      if negb ok then (Panic, asked ++ evs)
      else
        match fr_resp r with
        | None => (Panic, asked ++ evs)
        | Some _ =>
            let page' := page + 1 in
            if len (fr_items r) <? pp then (Break, asked ++ evs)
            else (Continue page', asked ++ evs)
        end
  end.

Fixpoint mr_loop (cl : Client) (projects : gmap Z gostring) (pp : Z) (fuel : nat) (page : Z)
    : outcome * list event :=
  match fuel with
  | O => (OutOfFuel, [])
  | S fuel' =>
      let '(r, evs) := mr_iter cl projects pp page in
      match r with
      | Continue page' =>
          let '(o, evs') := mr_loop cl projects pp fuel' page' in (o, evs ++ evs')
      | Break => (Return None, evs)
      | Panic => (Panicked, evs)
      end
  end.

Definition fetchMergeRequests (h : Gitlab) (fuel : nat) : outcome * list event :=
  match client h with
  | None => (Panicked, [])
  | Some cl => mr_loop cl (projects h) 100 fuel 0
  end.

End Middle.

(** The four tags the final variant adds to a merge-request metric. *)
Definition added_tags : list string :=
  ["source_project"; "target_project"; "jira_ticket_id"; "merge_request_type"]%string.

(** ** Traces of the commit walker over several repositories *)

(** What the commit walker meets for one configured name: the key the name
    resolves to and the pages the server holds for that key. *)
Record repo_run := {
  rr_name : gostring;
  rr_key : Z;
  rr_pages : list (list Commit.t)
}.

Definition repo_trace (r : repo_run) : list event :=
  walk_trace (ask_commits (rr_key r) 100) commit_metric 0 (rr_pages r).

(** The errors reported in a trace. *)
Definition add_errors (evs : list event) : list plugin_error :=
  omap (fun e => match e with EvAddError e => Some e | _ => None end) evs.

(** The last project of a list with a given identifier. *)
Definition last_with_id (id : Z) (ps : list Project.t) : option Project.t :=
  last (filter (fun p => Project.ID p = id) ps).

(** A server with three full pages of merge requests and a failure on the
    fourth call. *)
Definition failing_client : Client :=
  {| ListProjects := {| fr_items := two_projects; fr_resp := Some ok_response; fr_err := None |};
     ListMergeRequests := fun page pp =>
       if page <? 3
       then {| fr_items := replicate 100 blank_mr; fr_resp := Some ok_response;
               fr_err := None |}
       else {| fr_items := []; fr_resp := Some {| StatusCode := 500; Header := [] |};
               fr_err := Some "500 Internal Server Error"%string |};
     ListCommits := fun pid page pp =>
       if page <? 1
       then {| fr_items := replicate 100 blank_commit; fr_resp := Some ok_response;
               fr_err := None |}
       else {| fr_items := []; fr_resp := Some {| StatusCode := 500; Header := [] |};
               fr_err := Some "500 Internal Server Error"%string |} |}.

(** A world whose [url.Parse] rejects every endpoint. *)
Definition world_rejecting_url (cl : Client) : World :=
  {| url_Parse := fun _ => false; NewClient := fun _ _ => cl |}.

Definition three_full_pages : list (list MergeRequest.t) :=
  replicate 3 (replicate 100 blank_mr).

Definition one_full_page : list (list Commit.t) := [replicate 100 blank_commit].

(** The repository [b] of [small_client]: key 2, one page with one commit. *)
Definition plan_b : list repo_run :=
  [ {| rr_name := runes "b"; rr_key := 2; rr_pages := [[blank_commit]] |} ].

(** What the trace says of the merge-request goroutine in every state. *)
Definition mr_pages_in_order (s : State) : Prop :=
  exists n : nat,
    mr_fetches (st_acc s) = requests (ask_mrs 100) 0 n /\
    (st_crashed s = false -> forall p, st_mr s = MRRun p -> p = Z.of_nat n).

(** ** Comparing the middle and the final variant *)

(** A trace with the tags [ks] taken out of every metric. *)
Definition without_tags (ks : list string) (e : event) : event :=
  match e with
  | EvAddFields m =>
      EvAddFields {| measurement := measurement m; fields := fields m;
                     tags := foldr delete (tags m) ks; timestamp := timestamp m |}
  | _ => e
  end.

(** The plugin of the middle variant with the settings and the state of a
    plugin of the final one (which has [Repos] in addition). *)
Definition middle_of (h : Gitlab) : Middle.Gitlab :=
  {| Middle.client := client h; Middle.ctx := ctx h; Middle.wg := wg h;
     Middle.cancel := cancel h; Middle.currentPage := currentPage h;
     Middle.projects := projects h; Middle.Token := Token h;
     Middle.Endpoint := Endpoint h |}.

(** * Properties *)

Lemma span_le p s : (span p s <= length s)%nat.
Proof. induction s as [|c s IH]; simpl; [lia|]. destruct (p c); simpl; lia. Qed.

Lemma span_take p s : Forall (fun c => p c = true) (take (span p s) s).
Proof.
  induction s as [|c s IH]; simpl; [constructor|].
  destruct (p c) eqn:E; simpl; [constructor; assumption | constructor].
Qed.

Lemma span_max p s n :
  (n <= length s)%nat -> Forall (fun c => p c = true) (take n s) -> (n <= span p s)%nat.
Proof.
  revert n. induction s as [|c s IH]; intros [|n] Hn Hall; simpl in *; try lia.
  inversion Hall as [|? ? Hc Hrest]; subst. rewrite Hc.
  apply le_n_S, IH; [lia | assumption].
Qed.

Lemma span_prefix p s n :
  (n <= span p s)%nat -> (n <= length s)%nat /\ Forall (fun c => p c = true) (take n s).
Proof.
  revert n. induction s as [|c s IH]; intros n Hn; simpl in *.
  - assert (n = 0%nat) by lia. subst. split; [lia | constructor].
  - destruct n as [|n]; [split; [lia | constructor]|].
    destruct (p c) eqn:E; [|lia].
    destruct (IH n) as [H1 H2]; [lia|]. split; [lia | constructor; assumption].
Qed.

Lemma elem_of_countdown n hi lo : n ∈ countdown hi lo <-> (lo <= n <= hi)%nat.
Proof.
  unfold countdown. rewrite list_elem_of_In, <- in_rev, in_seq. lia.
Qed.

Lemma ends_sound r : forall bot s n, n ∈ ends r bot s -> Matches r bot s n.
Proof.
  induction r as [p | r1 IH1 r2 IH2 | p lo hi |]; intros bot s n Hin; simpl in Hin.
  - destruct s as [|c s]; [by apply elem_of_nil in Hin|].
    destruct (p c) eqn:E; [|by apply elem_of_nil in Hin].
    apply list_elem_of_singleton in Hin. subst. by constructor.
  - apply list_elem_of_bind in Hin as (n1 & Hin & H1).
    apply list_elem_of_bind in Hin as (n2 & Hin & H2).
    apply list_elem_of_singleton in Hin. subst.
    constructor; auto.
  - apply elem_of_countdown in Hin as [Hlo Hhi].
    assert (Hsp : (n <= span p s)%nat) by (destruct hi; lia).
    apply span_prefix in Hsp as [Hlen Hall].
    constructor; auto. intros h ->. lia.
  - destruct bot; [|by apply elem_of_nil in Hin].
    apply list_elem_of_singleton in Hin. subst. constructor.
Qed.

Lemma ends_complete r bot s n : Matches r bot s n -> n ∈ ends r bot s.
Proof.
  induction 1 as [p bot c s Hc | r1 r2 bot s n1 n2 _ IH1 _ IH2
                 | p lo hi bot s n Hlo Hlen Hhi Hall |]; simpl.
  - rewrite Hc. by apply list_elem_of_singleton.
  - apply list_elem_of_bind. exists n1. split; [|assumption].
    apply list_elem_of_bind. exists n2. split; [|assumption].
    by apply list_elem_of_singleton.
  - apply elem_of_countdown. pose proof (span_max p s n Hlen Hall).
    destruct hi as [h|]; [specialize (Hhi h eq_refl)|]; lia.
  - by apply list_elem_of_singleton.
Qed.

Lemma ends_nil_iff r bot s : ends r bot s = [] <-> forall n, ~ Matches r bot s n.
Proof.
  split.
  - intros E n Hm. apply ends_complete in Hm. rewrite E in Hm. by apply elem_of_nil in Hm.
  - intros Hno. destruct (ends r bot s) as [|n l] eqn:E; [done|].
    exfalso. apply (Hno n), ends_sound. rewrite E. left.
Qed.

(** What [find_from] returns: the match at the first start position that has
    one, and there the first in the search order. *)
Lemma find_from_Some r : forall s bot m,
  find_from r bot s = Some m ->
  exists i n rest,
    (i <= length s)%nat /\
    (forall j, (j < i)%nat -> ends r (bot && bool_decide (j = 0%nat)) (drop j s) = []) /\
    ends r (bot && bool_decide (i = 0%nat)) (drop i s) = n :: rest /\
    m = take n (drop i s).
Proof.
  induction s as [|c s IH]; intros bot m Hf; simpl in Hf.
  - destruct (ends r bot []) as [|n l] eqn:E; [done|]. inversion Hf; subst.
    exists 0%nat, n, l. simpl. rewrite andb_true_r. repeat split; auto. intros; lia.
  - destruct (ends r bot (c :: s)) as [|n l] eqn:E.
    + apply IH in Hf as (i & n & rest & Hi & Hbefore & Hat & ->).
      exists (S i), n, rest. simpl in *.
      split; [lia|]. split; [|split; [by rewrite andb_false_r | reflexivity]].
      intros [|j] Hj; simpl.
      * by rewrite andb_true_r.
      * rewrite andb_false_r.
        apply Hbefore. lia.
    + inversion Hf; subst. exists 0%nat, n, l. simpl. rewrite andb_true_r.
      repeat split; auto; [lia | intros; lia].
Qed.

Lemma find_from_None r : forall s bot,
  find_from r bot s = None ->
  forall i, (i <= length s)%nat -> ends r (bot && bool_decide (i = 0%nat)) (drop i s) = [].
Proof.
  induction s as [|c s IH]; intros bot Hf i Hi; simpl in Hf.
  - destruct (ends r bot []) eqn:E; [|done]. simpl in Hi. assert (i = 0%nat) by lia. subst.
    simpl. by rewrite andb_true_r.
  - destruct (ends r bot (c :: s)) eqn:E; [|done].
    destruct i as [|i]; simpl.
    + by rewrite andb_true_r.
    + rewrite andb_false_r.
      specialize (IH false Hf i). simpl in IH. apply IH. simpl in Hi. lia.
Qed.

Lemma countdown_top hi lo : (lo <= hi)%nat -> countdown hi lo = hi :: rev (seq lo (hi - lo)).
Proof.
  intros Hle. unfold countdown.
  replace (S hi - lo)%nat with (S (hi - lo)) by lia.
  rewrite seq_S, rev_app_distr. simpl.
  replace (lo + (hi - lo))%nat with hi by lia. reflexivity.
Qed.

Lemma countdown_cons hi lo :
  (1 <= lo <= hi)%nat -> countdown hi lo = hi :: countdown (hi - 1) lo.
Proof.
  intros Hle. rewrite countdown_top by lia. unfold countdown.
  do 3 f_equal. lia.
Qed.

Lemma countdown_nil hi lo : (hi < lo)%nat -> countdown hi lo = [].
Proof. intros Hlt. unfold countdown. replace (S hi - lo)%nat with 0%nat by lia. reflexivity. Qed.

Lemma bind_all_nil {A B} (f : A -> list B) (l : list A) :
  (forall x, x ∈ l -> f x = []) -> l ≫= f = [].
Proof.
  induction l as [|x l IH]; intros Hf; [reflexivity|].
  rewrite bind_cons, Hf by left. simpl. apply IH. intros y Hy. apply Hf. by right.
Qed.

Lemma bind_return {A B} (f : A -> B) (l : list A) : l ≫= (fun x => [f x]) = f <$> l.
Proof. induction l as [|x l IH]; [reflexivity|]. rewrite bind_cons, IH. reflexivity. Qed.

Lemma span_next p s n :
  (n < span p s)%nat -> exists c rest, drop n s = c :: rest /\ p c = true.
Proof.
  revert n. induction s as [|c s IH]; intros n Hn; simpl in Hn; [lia|].
  destruct (p c) eqn:E; [|lia].
  destruct n as [|n]; simpl; [eauto|]. apply IH. lia.
Qed.

Lemma span_stop p s c rest : drop (span p s) s = c :: rest -> p c = false.
Proof.
  induction s as [|d s IH]; simpl; [done|].
  destruct (p d) eqn:E; simpl; [assumption|]. intros [= -> _]. assumption.
Qed.

Lemma letter_is_word c : is_letter c = true -> is_nonword c = false.
Proof.
  unfold is_nonword, is_word. intros ->. by rewrite orb_true_r.
Qed.

Lemma digit_is_word c : is_digit c = true -> is_nonword c = false.
Proof. unfold is_nonword, is_word. intros ->. reflexivity. Qed.

(** The search through [[a-zA-Z]+\W R]: of all the repetition counts only
    the whole run of letters can be followed by a non-word rune. *)
Lemma ends_letters_sep R bot t :
  ends (Seq (Repeat is_letter 1 None) (Seq (Class is_nonword) R)) bot t =
  match drop (span is_letter t) t with
  | c :: rest =>
      if (1 <=? span is_letter t)%nat && is_nonword c
      then (fun n => span is_letter t + (1 + n))%nat <$> ends R false rest
      else []
  | [] => []
  end.
Proof.
  set (sp := span is_letter t).
  change (ends (Seq (Repeat is_letter 1 None) (Seq (Class is_nonword) R)) bot t)
    with (countdown sp 1 ≫= fun n1 =>
            ends (Seq (Class is_nonword) R) (bot && (n1 =? 0)%nat) (drop n1 t) ≫= fun n2 =>
            [(n1 + n2)%nat]).
  destruct (Nat.leb_spec 1 sp) as [Hsp|Hsp].
  - rewrite countdown_cons, bind_cons by lia.
    rewrite (bind_all_nil _ (countdown (sp - 1) 1)), app_nil_r.
    + destruct (drop sp t) as [|c rest] eqn:Ed; [reflexivity|].
      cbn [ends]. destruct (is_nonword c); [|reflexivity].
      rewrite bind_singleton. cbn [drop]. rewrite andb_false_r.
      rewrite bind_return, bind_return, <- list_fmap_compose. reflexivity.
    + intros n1 Hn1. apply elem_of_countdown in Hn1.
      destruct (span_next is_letter t n1) as (c & rest & -> & Hc); [fold sp; lia|].
      cbn [ends]. rewrite (letter_is_word c Hc). reflexivity.
  - rewrite countdown_nil by lia. simpl.
    destruct (drop sp t); reflexivity.
Qed.

Lemma ends_digits bot t :
  ends (Repeat is_digit 2 (Some 5%nat)) bot t = countdown (span is_digit t `min` 5) 2.
Proof. reflexivity. Qed.

Lemma countdown_head hi lo n l :
  countdown hi lo = n :: l -> n = hi /\ forall x, x ∈ n :: l -> (x <= n)%nat.
Proof.
  intros E. assert (Hall : forall x, x ∈ n :: l -> (lo <= x <= hi)%nat).
  { intros x Hx. rewrite <- E in Hx. by apply elem_of_countdown in Hx. }
  destruct (Nat.le_gt_cases lo hi) as [Hle|Hgt].
  - rewrite countdown_top in E by assumption. injection E as <- _.
    split; [reflexivity|]. intros x Hx. apply Hall in Hx. lia.
  - rewrite countdown_nil in E by assumption. discriminate.
Qed.

(** In the search order of the ticket pattern the first match is the longest. *)
Lemma ends_ticket_head bot t n l :
  ends ticket_re bot t = n :: l -> forall x, x ∈ n :: l -> (x <= n)%nat.
Proof.
  unfold ticket_re. rewrite ends_letters_sep.
  destruct (drop (span is_letter t) t) as [|c rest]; [done|].
  destruct ((1 <=? span is_letter t)%nat && is_nonword c); [|done].
  rewrite ends_digits.
  destruct (countdown (span is_digit rest `min` 5) 2) as [|m ms] eqn:E; [done|].
  apply countdown_head in E as [_ Hmax].
  intros [= <- <-] x Hx.
  change (x ∈ (fun n => span is_letter t + (1 + n))%nat <$> (m :: ms)) in Hx.
  apply list_elem_of_fmap in Hx as (y & -> & Hy). specialize (Hmax y Hy). lia.
Qed.

Lemma span_app p w c rest :
  all_in p w -> p c = false -> span p (w ++ c :: rest) = length w.
Proof.
  induction 1 as [|d w Hd _ IH]; intros Hc; simpl.
  - by rewrite Hc.
  - rewrite Hd. f_equal. by apply IH.
Qed.

Lemma nonword_not_letter c : is_nonword c = true -> is_letter c = false.
Proof.
  intros Hc. destruct (is_letter c) eqn:E; [|reflexivity].
  apply letter_is_word in E. congruence.
Qed.

Lemma nonword_not_digit c : is_nonword c = true -> is_digit c = false.
Proof.
  intros Hc. destruct (is_digit c) eqn:E; [|reflexivity].
  apply digit_is_word in E. congruence.
Qed.

(** A run of letters, a separator and what follows: how a text splits at the
    end of its leading letters. *)
Lemma split_at_letters t c rest :
  drop (span is_letter t) t = c :: rest -> t = take (span is_letter t) t ++ c :: rest.
Proof. intros E. rewrite <- E. symmetry. apply take_drop. Qed.

Lemma elem_of_ends_letters_sep R bot t n :
  n ∈ ends (Seq (Repeat is_letter 1 None) (Seq (Class is_nonword) R)) bot t <->
  exists w c rest k, t = w ++ c :: rest /\ w <> [] /\ all_in is_letter w /\
    is_nonword c = true /\ k ∈ ends R false rest /\ n = (length w + (1 + k))%nat.
Proof.
  rewrite ends_letters_sep. split.
  - destruct (drop (span is_letter t) t) as [|c rest] eqn:Ed; [by intros ?%elem_of_nil|].
    destruct (Nat.leb_spec 1 (span is_letter t)) as [Hsp|Hsp]; [|by intros ?%elem_of_nil].
    destruct (is_nonword c) eqn:Hc; [|by intros ?%elem_of_nil]. simpl.
    intros (k & -> & Hk)%list_elem_of_fmap.
    pose proof (span_le is_letter t) as Hle.
    exists (take (span is_letter t) t), c, rest, k.
    split; [by apply split_at_letters|].
    split; [intros E; apply (f_equal length) in E; rewrite length_take in E; simpl in E; lia|].
    split; [apply span_take|].
    split; [assumption|]. split; [assumption|].
    rewrite length_take. lia.
  - intros (w & c & rest & k & -> & Hw & Hall & Hc & Hk & ->).
    rewrite (span_app is_letter w c rest Hall (nonword_not_letter c Hc)).
    rewrite drop_app_length. rewrite Hc.
    destruct w as [|d w]; [done|]. simpl.
    apply list_elem_of_fmap. eauto.
Qed.

Lemma elem_of_ends_digits bot t n :
  n ∈ ends (Repeat is_digit 2 (Some 5%nat)) bot t <->
  (2 <= n <= 5)%nat /\ (n <= length t)%nat /\ all_in is_digit (take n t).
Proof.
  rewrite ends_digits, elem_of_countdown. split.
  - intros [Hlo Hhi]. destruct (span_prefix is_digit t n) as [H1 H2]; [lia|].
    repeat split; auto; lia.
  - intros (Hn & Hlen & Hall). pose proof (span_max is_digit t n Hlen Hall). lia.
Qed.

(** The ticket pattern matches a prefix exactly when the prefix is a ticket
    token. *)
Lemma Matches_ticket bot t n :
  Matches ticket_re bot t n <-> (n <= length t)%nat /\ ticket_token (take n t).
Proof.
  split.
  - intros Hm%ends_complete. unfold ticket_re in Hm.
    apply elem_of_ends_letters_sep in Hm as (w & c & rest & k & -> & Hw & Hall & Hc & Hk & ->).
    apply elem_of_ends_digits in Hk as (Hk & Hlen & Hds).
    split; [rewrite length_app; simpl; lia|].
    exists w, c, (take k rest).
    split.
    { rewrite take_app_add'. 2: reflexivity. reflexivity. }
    repeat split; auto; rewrite length_take; lia.
  - intros (Hn & w & c & ds & E & Hw & Hall & Hc & Hds & Hlen).
    apply ends_sound. unfold ticket_re. apply elem_of_ends_letters_sep.
    assert (Ht : t = w ++ c :: (ds ++ drop n t)).
    { rewrite <- (take_drop n t) at 1. rewrite E, <- app_assoc. reflexivity. }
    exists w, c, (ds ++ drop n t), (length ds).
    split; [assumption|]. repeat split; auto.
    + apply elem_of_ends_digits. split; [lia|]. split; [rewrite length_app; lia|].
      rewrite take_app_length. assumption.
    + apply (f_equal length) in E. rewrite length_take, length_app in E. simpl in E. lia.
Qed.

Lemma occurs_at_drop pre m s :
  occurs_at pre m s ->
  (length pre <= length s)%nat /\ (length m <= length (drop (length pre) s))%nat /\
  take (length m) (drop (length pre) s) = m.
Proof.
  intros [post ->]. rewrite drop_app_length, take_app_length, !length_app.
  repeat split; lia.
Qed.

Lemma occurs_at_take i n s :
  (i <= length s)%nat -> occurs_at (take i s) (take n (drop i s)) s.
Proof.
  intros Hi. exists (drop n (drop i s)). by rewrite take_drop, take_drop.
Qed.

Lemma ticket_occurs_Matches bot pre m s :
  occurs_at pre m s -> ticket_token m ->
  Matches ticket_re bot (drop (length pre) s) (length m).
Proof.
  intros Ho Ht. apply occurs_at_drop in Ho as (_ & Hlen & E).
  apply Matches_ticket. split; [assumption|]. by rewrite E.
Qed.

(** C6, amended.  [findTicketID] returns the empty string when no part of
    the title is a ticket token (ASCII letters, one non-word rune, two to
    five digits).  Otherwise it returns a ticket token that occurs in the
    title, at the leftmost position where one occurs, and the longest one
    there.  It maps [Fix ABC-1234: bug] to [ABC-1234] and [no ticket here] to
    the empty string. *)
Theorem findTicketID_leftmost_token (s : gostring) :
  ((forall pre m, occurs_at pre m s -> ~ ticket_token m) -> findTicketID s = []) /\
  (forall pre0 m0, occurs_at pre0 m0 s -> ticket_token m0 ->
     exists pre, occurs_at pre (findTicketID s) s /\ ticket_token (findTicketID s) /\
       (forall pre' m', occurs_at pre' m' s -> ticket_token m' ->
          (length pre <= length pre')%nat) /\
       (forall m', occurs_at pre m' s -> ticket_token m' ->
          (length m' <= length (findTicketID s))%nat)) /\
  findTicketID (runes "Fix ABC-1234: bug") = runes "ABC-1234" /\
  findTicketID (runes "no ticket here") = [].
Proof.
  split; [|split; [|split; reflexivity]].
  - intros Hnone. unfold findTicketID, FindString.
    destruct (find_from ticket_re true s) as [m|] eqn:Ef; [|reflexivity]. exfalso.
    apply find_from_Some in Ef as (i & n & rest & Hi & _ & Hat & ->).
    assert (Hm : Matches ticket_re (true && bool_decide (i = 0%nat)) (drop i s) n).
    { apply ends_sound. rewrite Hat. left. }
    apply Matches_ticket in Hm as [_ Htok].
    exact (Hnone _ _ (occurs_at_take i n s Hi) Htok).
  - intros pre0 m0 Ho0 Ht0. unfold findTicketID, FindString.
    destruct (find_from ticket_re true s) as [m|] eqn:Ef.
    + apply find_from_Some in Ef as (i & n & rest & Hi & Hbefore & Hat & ->). simpl.
      assert (Hm : Matches ticket_re (true && bool_decide (i = 0%nat)) (drop i s) n).
      { apply ends_sound. rewrite Hat. left. }
      apply Matches_ticket in Hm as [Hn Htok].
      exists (take i s). split; [by apply occurs_at_take|]. split; [assumption|].
      rewrite !length_take. split.
      * intros pre' m' Ho' Ht'.
        destruct (Nat.le_gt_cases i (length pre')) as [Hle|Hgt]; [lia|]. exfalso.
        pose proof (ticket_occurs_Matches (true && bool_decide (length pre' = 0%nat))
                      pre' m' s Ho' Ht') as Hm'.
        apply ends_complete in Hm'. rewrite (Hbefore _ Hgt) in Hm'.
        by apply elem_of_nil in Hm'.
      * intros m' Ho' Ht'.
        pose proof (ticket_occurs_Matches (true && bool_decide (i = 0%nat))
                      (take i s) m' s Ho' Ht') as Hm'.
        rewrite length_take in Hm'. replace (i `min` length s)%nat with i in Hm' by lia.
        apply ends_complete in Hm'.
        rewrite Hat in Hm'. pose proof (ends_ticket_head _ _ _ _ Hat _ Hm'). lia.
    + exfalso.
      pose proof (ticket_occurs_Matches (true && bool_decide (length pre0 = 0%nat))
                    pre0 m0 s Ho0 Ht0) as Hm.
      apply ends_complete in Hm.
      rewrite (find_from_None _ _ _ Ef) in Hm; [by apply elem_of_nil in Hm|].
      by apply occurs_at_drop in Ho0 as [? _].
Qed.

Lemma ticket_token_spec_A1 : ticket_token_spec (runes "A1-23").
Proof.
  exists (runes "A1"), dash, (runes "23").
  split; [reflexivity|]. split; [discriminate|].
  split; [repeat constructor|]. split; [reflexivity|].
  split; [repeat constructor|]. simpl. lia.
Qed.

(** C6 as stated fails: [A1-23] is word characters, a separator and two
    digits, and the pattern worded that way finds it, but [findTicketID]
    returns the empty string, because its pattern asks for letters. *)
Lemma findTicketID_word_chars_counterexample :
  occurs_at [] (runes "A1-23") (runes "A1-23") /\
  ticket_token_spec (runes "A1-23") /\
  findTicketID_spec (runes "A1-23") = runes "A1-23" /\
  findTicketID (runes "A1-23") = [] /\
  ~ (forall s pre m, occurs_at pre m s -> ticket_token_spec m ->
       ticket_token_spec (findTicketID s)).
Proof.
  assert (Ho : occurs_at [] (runes "A1-23") (runes "A1-23")) by (by exists []).
  split; [exact Ho|]. split; [apply ticket_token_spec_A1|].
  split; [reflexivity|]. split; [reflexivity|].
  intros Hclaim. specialize (Hclaim _ _ _ Ho ticket_token_spec_A1).
  change (findTicketID (runes "A1-23")) with (@nil rune) in Hclaim.
  destruct Hclaim as (w & c & ds & E & _). by destruct w.
Qed.

Lemma split_go_first sep cur s :
  split_go sep cur s !! 0%nat =
  Some (rev cur ++ take (span (fun c => negb (c =? sep)) s) s).
Proof.
  revert cur. induction s as [|c s IH]; intros cur; simpl.
  - by rewrite app_nil_r.
  - destruct (c =? sep); simpl.
    + by rewrite app_nil_r.
    + rewrite IH. simpl. by rewrite <- app_assoc.
Qed.

Lemma Split_first s : Split s dash !! 0%nat = Some (first_segment s).
Proof. unfold Split. rewrite split_go_first. reflexivity. Qed.

Section Text.
Context `{UnicodeTables}.

Lemma getMRType_total s :
  getMRType s = Some (first_segment (formatTicketID (FindString mrtype_re s))).
Proof. unfold getMRType. apply Split_first. Qed.

End Text.

Lemma ends_BeginText R bot t :
  ends (Seq BeginText R) bot t = if bot then ends R true t else [].
Proof.
  destruct bot; [|reflexivity].
  change (ends (Seq BeginText R) true t)
    with ([0%nat] ≫= fun n1 =>
            ends R (true && (n1 =? 0)%nat) (drop n1 t) ≫= fun n2 => [(n1 + n2)%nat]).
  rewrite bind_singleton. simpl. rewrite bind_return. apply list_fmap_id.
Qed.

Lemma ends_mrtype bot t : ends mrtype_re bot t = if bot then ends type_body true t else [].
Proof. apply ends_BeginText. Qed.

Lemma elem_of_ends_type_body bot t n :
  n ∈ ends type_body bot t <-> (n <= length t)%nat /\ type_token (take n t).
Proof.
  unfold type_body. rewrite elem_of_ends_letters_sep. split.
  - intros (w1 & c1 & rest1 & k1 & -> & Hw1 & Hall1 & Hc1 & Hk1 & ->).
    apply elem_of_ends_letters_sep in Hk1
      as (w2 & c2 & rest2 & k2 & -> & Hw2 & Hall2 & Hc2 & Hk2 & ->).
    apply elem_of_ends_digits in Hk2 as (Hk & Hlen & Hds).
    split; [rewrite !length_app; simpl; rewrite length_app; simpl; lia|].
    exists w1, c1, w2, c2, (take k2 rest2). split.
    { rewrite take_app_add' by reflexivity. simpl.
      rewrite take_app_add' by reflexivity. reflexivity. }
    repeat split; auto; rewrite length_take; lia.
  - intros (Hn & w1 & c1 & w2 & c2 & ds & E & Hw1 & Hall1 & Hc1 & Hw2 & Hall2 & Hc2 & Hds & Hlen).
    assert (Ht : t = w1 ++ c1 :: (w2 ++ c2 :: (ds ++ drop n t))).
    { rewrite <- (take_drop n t) at 1. rewrite E, <- app_assoc. simpl.
      rewrite <- app_assoc. reflexivity. }
    assert (En : n = (length w1 + (1 + (length w2 + (1 + length ds))))%nat).
    { apply (f_equal length) in E. rewrite length_take, length_app in E. simpl in E.
      rewrite length_app in E. simpl in E. lia. }
    exists w1, c1, (w2 ++ c2 :: (ds ++ drop n t)), (length w2 + (1 + length ds))%nat.
    split; [assumption|]. repeat split; auto.
    apply elem_of_ends_letters_sep.
    exists w2, c2, (ds ++ drop n t), (length ds).
    repeat split; auto.
    apply elem_of_ends_digits. split; [lia|]. split; [rewrite length_app; lia|].
    by rewrite take_app_length.
Qed.

(** In the search order of the type pattern the first match is the longest. *)
Lemma ends_type_body_head bot t n l :
  ends type_body bot t = n :: l -> forall x, x ∈ n :: l -> (x <= n)%nat.
Proof.
  unfold type_body. rewrite ends_letters_sep.
  destruct (drop (span is_letter t) t) as [|c rest]; [done|].
  destruct ((1 <=? span is_letter t)%nat && is_nonword c); [|done].
  rewrite ends_letters_sep.
  destruct (drop (span is_letter rest) rest) as [|c' rest']; [done|].
  destruct ((1 <=? span is_letter rest)%nat && is_nonword c'); [|done].
  rewrite ends_digits.
  destruct (countdown (span is_digit rest' `min` 5) 2) as [|m ms] eqn:E; [done|].
  apply countdown_head in E as [_ Hmax].
  rewrite <- list_fmap_compose.
  intros E2 x Hx. rewrite <- E2 in Hx.
  apply list_elem_of_fmap in Hx as (y & -> & Hy). specialize (Hmax y Hy).
  rewrite fmap_cons in E2. injection E2 as <- _. simpl. lia.
Qed.

Lemma find_from_false_mrtype s : find_from mrtype_re false s = None.
Proof. induction s as [|c s IH]; simpl; rewrite ?ends_mrtype; auto. Qed.

Lemma FindString_mrtype s :
  FindString mrtype_re s =
  match ends type_body true s with
  | n :: _ => take n s
  | [] => []
  end.
Proof.
  unfold FindString.
  destruct s as [|c s]; cbn [find_from]; rewrite ends_mrtype.
  - destruct (ends type_body true []); reflexivity.
  - destruct (ends type_body true (c :: s)); [|reflexivity].
    by rewrite find_from_false_mrtype.
Qed.

Lemma first_segment_app u x :
  all_in (fun c => negb (c =? dash)) u -> first_segment (u ++ dash :: x) = u.
Proof.
  intros Hu. unfold first_segment.
  rewrite (span_app _ u dash x Hu) by reflexivity.
  apply take_app_length.
Qed.

Lemma is_letter_cases c :
  is_letter c = true -> (97 <= c <= 122) \/ (65 <= c <= 90).
Proof. unfold is_letter, is_lower, is_upper, in_range. lia. Qed.

Section Text.
Context `{UnicodeTables}.

Lemma replace_letter c :
  is_letter c = true -> replace_rune separators c = c.
Proof.
  intros Hc%is_letter_cases. cbn [replace_rune separators]. unfold slash, space, colon.
  destruct (Z.eqb_spec c 47); [lia|].
  destruct (Z.eqb_spec c 32); [lia|].
  destruct (Z.eqb_spec c 58); [lia|]. reflexivity.
Qed.

Lemma upper_letter c :
  is_letter c = true ->
  unicode_ToUpper c = (if is_lower c then c - 32 else c) /\ unicode_ToUpper c <> dash.
Proof.
  intros Hc%is_letter_cases. unfold unicode_ToUpper, dash.
  destruct (Z.leb_spec c 127); [|lia]. split; [reflexivity|].
  unfold is_lower, in_range.
  destruct (Z.leb_spec 97 c); destruct (Z.leb_spec c 122); cbn [andb]; lia.
Qed.

Lemma upper_letter_no_dash c :
  is_letter c = true ->
  negb (unicode_ToUpper (replace_rune separators c) =? dash) = true.
Proof.
  intros Hc. rewrite (replace_letter c Hc).
  destruct (upper_letter c Hc) as [_ Hne].
  apply negb_true_iff. by apply Z.eqb_neq.
Qed.

Lemma formatTicketID_app a b : formatTicketID (a ++ b) = formatTicketID a ++ formatTicketID b.
Proof. unfold formatTicketID, ToUpper, Replace. by rewrite !map_app. Qed.

Lemma formatTicketID_letters w :
  all_in is_letter w -> all_in (fun c => negb (c =? dash)) (formatTicketID w).
Proof.
  unfold formatTicketID, ToUpper, Replace, all_in. rewrite map_map.
  induction 1 as [|c w Hc _ IH]; simpl; constructor; [|assumption].
  by apply upper_letter_no_dash.
Qed.

Lemma formatTicketID_letters_eq w : all_in is_letter w -> formatTicketID w = ToUpper w.
Proof.
  unfold formatTicketID, ToUpper, Replace, all_in. rewrite map_map.
  induction 1 as [|c w Hc _ IH]; [reflexivity|].
  cbn [map]. rewrite (replace_letter c Hc). f_equal. assumption.
Qed.

Lemma formatTicketID_sep c :
  c ∈ [slash; space; colon; dash] -> formatTicketID [c] = [dash].
Proof.
  intros Hc.
  apply elem_of_cons in Hc as [->|Hc]; [reflexivity|].
  apply elem_of_cons in Hc as [->|Hc]; [reflexivity|].
  apply elem_of_cons in Hc as [->|Hc]; [reflexivity|].
  apply elem_of_cons in Hc as [->|Hc]; [reflexivity|].
  by apply elem_of_nil in Hc.
Qed.

(** C7, amended.  [getMRType] never fails.  It returns the empty string when
    the title does not start with a type token (ASCII letters, a non-word
    rune, ASCII letters, a non-word rune, two to five digits).  Otherwise it
    returns the first [-]-separated segment of the normalized longest such
    prefix; when the letters are followed by [/], a space, [:] or [-] that
    segment is the upper-cased letters.  It maps
    [feature/ABC-123: add login] to [FEATURE] and [ABC-123 only] to the empty
    string. *)
Theorem getMRType_leading_token (s : gostring) :
  (exists t, getMRType s = Some t) /\
  ((forall m, occurs_at [] m s -> ~ type_token m) -> getMRType s = Some []) /\
  (forall m0, occurs_at [] m0 s -> type_token m0 ->
     exists m, occurs_at [] m s /\ type_token m /\
       (forall m', occurs_at [] m' s -> type_token m' -> (length m' <= length m)%nat) /\
       getMRType s = Some (first_segment (formatTicketID m)) /\
       (forall w c rest, m = w ++ c :: rest -> all_in is_letter w ->
          c ∈ [slash; space; colon; dash] -> getMRType s = Some (ToUpper w))) /\
  getMRType (runes "feature/ABC-123: add login") = Some (runes "FEATURE") /\
  getMRType (runes "ABC-123 only") = Some [].
Proof.
  split; [rewrite getMRType_total; eauto|].
  split; [|split; [|split; vm_compute; reflexivity]].
  - intros Hnone. rewrite getMRType_total, FindString_mrtype.
    destruct (ends type_body true s) as [|n l] eqn:E; [reflexivity|]. exfalso.
    assert (Hn : n ∈ ends type_body true s) by (rewrite E; left).
    apply elem_of_ends_type_body in Hn as [Hn Htok].
    apply (Hnone (take n s)); [|assumption].
    exists (drop n s). simpl. by rewrite take_drop.
  - intros m0 Ho0 Ht0. rewrite getMRType_total, FindString_mrtype.
    assert (Hfrom : forall m, occurs_at [] m s -> type_token m ->
              length m ∈ ends type_body true s).
    { intros m Ho Ht. apply occurs_at_drop in Ho as (_ & Hlen & E).
      change (length (@nil rune)) with 0%nat in Hlen, E. rewrite drop_0 in Hlen, E.
      apply elem_of_ends_type_body. split; [assumption|]. by rewrite E. }
    destruct (ends type_body true s) as [|n l] eqn:E.
    { specialize (Hfrom m0 Ho0 Ht0). by apply elem_of_nil in Hfrom. }
    assert (Hn : n ∈ ends type_body true s) by (rewrite E; left).
    apply elem_of_ends_type_body in Hn as [Hn Htok].
    exists (take n s).
    split; [exists (drop n s); simpl; by rewrite take_drop|].
    split; [assumption|]. split; [|split; [reflexivity|]].
    + intros m' Ho' Ht'. specialize (Hfrom m' Ho' Ht').
      pose proof (ends_type_body_head _ _ _ _ E _ Hfrom). rewrite length_take. lia.
    + intros w c rest Em Hw Hc. f_equal. rewrite Em.
      change (w ++ c :: rest) with (w ++ [c] ++ rest).
      rewrite !formatTicketID_app, (formatTicketID_sep c Hc).
      rewrite <- (formatTicketID_letters_eq w Hw).
      apply first_segment_app. by apply formatTicketID_letters.
Qed.

End Text.

Lemma type_token_spec_v2 : type_token_spec (runes "v2/ABC-123").
Proof.
  exists (runes "v2"), slash, (runes "ABC"), dash, (runes "123").
  split; [reflexivity|]. split; [discriminate|].
  split; [repeat constructor|]. split; [reflexivity|].
  split; [discriminate|]. split; [repeat constructor|]. split; [reflexivity|].
  split; [repeat constructor|]. simpl. lia.
Qed.

(** C7 as stated fails: [v2/ABC-123] starts with word characters, a
    separator, word characters, a separator and three digits, and the
    pattern worded that way yields [V2], but [getMRType] returns the empty
    string, because its pattern asks for letters. *)
Lemma getMRType_word_chars_counterexample :
  type_token_spec (runes "v2/ABC-123") /\
  (forall U : UnicodeTables,
     @getMRType_spec U (runes "v2/ABC-123") = Some (runes "V2") /\
     @getMRType U (runes "v2/ABC-123") = Some []) /\
  ~ (forall (U : UnicodeTables) (s : gostring), @getMRType U s = @getMRType_spec U s).
Proof.
  split; [apply type_token_spec_v2|].
  split; [intros U; split; vm_compute; reflexivity|].
  intros Hclaim. specialize (Hclaim caseless_tables (runes "v2/ABC-123")).
  vm_compute in Hclaim. discriminate.
Qed.

Section Text.
Context `{UnicodeTables}.

Lemma normalize_rune_twice c :
  upper_stable c ->
  unicode_ToUpper (replace_rune separators (unicode_ToUpper (replace_rune separators c))) =
  unicode_ToUpper (replace_rune separators c).
Proof.
  intros Hc.
  assert (Hsep : forall d,
            replace_rune separators d = if (d =? 47) || (d =? 32) || (d =? 58) then 45 else d).
  { intros d. cbn [replace_rune separators]. unfold slash, space, colon, dash.
    destruct (Z.eqb_spec d 47); [reflexivity|].
    destruct (Z.eqb_spec d 32); [reflexivity|].
    destruct (Z.eqb_spec d 58); reflexivity. }
  assert (Hup : forall d, d <= 127 ->
            unicode_ToUpper d = if (97 <=? d) && (d <=? 122) then d - 32 else d).
  { intros d Hd. unfold unicode_ToUpper, is_lower, in_range.
    destruct (Z.leb_spec d 127); [reflexivity | lia]. }
  destruct (Z.le_gt_cases c 127) as [Hle|Hgt].
  - rewrite (Hsep c).
    destruct (Z.eqb_spec c 47); [reflexivity|].
    destruct (Z.eqb_spec c 32); [reflexivity|].
    destruct (Z.eqb_spec c 58); [reflexivity|].
    cbn [orb]. rewrite (Hup c Hle).
    destruct ((97 <=? c) && (c <=? 122)) eqn:El.
    + apply andb_true_iff in El as [El1%Z.leb_le El2%Z.leb_le].
      rewrite Hsep.
      destruct (Z.eqb_spec (c - 32) 47); [lia|].
      destruct (Z.eqb_spec (c - 32) 32); [lia|].
      destruct (Z.eqb_spec (c - 32) 58); [lia|]. cbn [orb].
      rewrite Hup by lia.
      destruct (Z.leb_spec 97 (c - 32)); [lia|]. reflexivity.
    + rewrite Hsep.
      destruct (Z.eqb_spec c 47); [lia|].
      destruct (Z.eqb_spec c 32); [lia|].
      destruct (Z.eqb_spec c 58); [lia|]. cbn [orb].
      rewrite Hup by lia. rewrite El. reflexivity.
  - destruct Hc as [Hc|[Hc1 Hc2]]; [lia|].
    rewrite (Hsep c).
    destruct (Z.eqb_spec c 47); [lia|].
    destruct (Z.eqb_spec c 32); [lia|].
    destruct (Z.eqb_spec c 58); [lia|]. cbn [orb].
    assert (Eu : unicode_ToUpper c = To_UpperCase c).
    { unfold unicode_ToUpper. destruct (Z.leb_spec c 127); [lia | reflexivity]. }
    rewrite Eu, Hc2, Hc1. reflexivity.
Qed.

(** C8. Normalizing twice is normalizing once, for every string whose runes
    above ASCII the case table maps to runes that upper-casing leaves alone
    and that are not separators; every ASCII string is such a string, and so
    is every normalized one under that condition on the table. *)
Theorem formatTicketID_idempotent (x : gostring) :
  Forall upper_stable x -> formatTicketID (formatTicketID x) = formatTicketID x.
Proof.
  unfold formatTicketID, ToUpper, Replace.
  induction 1 as [|c x Hc _ IH]; [reflexivity|].
  cbn [map]. f_equal; [by apply normalize_rune_twice | exact IH].
Qed.

End Text.

(** C8 at [abc/123]. *)
Lemma formatTicketID_idempotent_witness :
  Forall (@upper_stable caseless_tables) (runes "abc/123") /\
  @formatTicketID caseless_tables (@formatTicketID caseless_tables (runes "abc/123")) =
  @formatTicketID caseless_tables (runes "abc/123").
Proof.
  assert (Hst : Forall (@upper_stable caseless_tables) (runes "abc/123")).
  { repeat (apply List.Forall_cons; [left; vm_compute; discriminate|]). apply List.Forall_nil. }
  split; [exact Hst | exact (@formatTicketID_idempotent caseless_tables _ Hst)].
Defined.

Lemma range_AddFields_total {A} (mk : A -> option metric) (f : A -> metric) items :
  (forall x, mk x = Some (f x)) ->
  range_AddFields mk items = (true, map (fun x => EvAddFields (f x)) items).
Proof.
  intros Hmk. induction items as [|x items IH]; [reflexivity|].
  cbn [range_AddFields map]. rewrite Hmk, IH. reflexivity.
Qed.

Lemma metrics_app a b : metrics (a ++ b) = metrics a ++ metrics b.
Proof. unfold metrics. apply omap_app. Qed.

Lemma metrics_AddFields {A} (f : A -> metric) items :
  metrics (map (fun x => EvAddFields (f x)) items) = map f items.
Proof. induction items as [|x items IH]; [reflexivity|]. cbn. f_equal. exact IH. Qed.

Lemma fetches_app a b : fetches (a ++ b) = fetches a ++ fetches b.
Proof. unfold fetches. apply filter_app. Qed.

Lemma fetches_AddFields {A} (f : A -> metric) items :
  fetches (map (fun x => EvAddFields (f x)) items) = [].
Proof. induction items as [|x items IH]; [reflexivity|]. exact IH. Qed.

Lemma requests_S ask first n :
  requests ask first (S n) = ask first :: requests ask (first + 1) n.
Proof.
  unfold requests. cbn [seq map]. f_equal; [f_equal; lia|].
  rewrite <- seq_shift, map_map. apply map_ext. intros i. f_equal. lia.
Qed.

(** A run over pages: its metrics are those of the items in order, its
    requests the page numbers in order. *)
Lemma walk_trace_metrics {A} ask (mk : A -> metric) pages :
  (forall page, metrics [ask page] = []) ->
  forall page, metrics (walk_trace ask mk page pages) = map mk (concat pages).
Proof.
  intros Hask. induction pages as [|p pages IH]; intros page; [reflexivity|].
  cbn [walk_trace concat]. change (ask page :: ?l) with ([ask page] ++ l).
  rewrite !metrics_app, Hask, metrics_AddFields, IH, map_app. reflexivity.
Qed.

Lemma walk_trace_fetches {A} ask (mk : A -> metric) pages :
  (forall page, fetches [ask page] = [ask page]) ->
  forall page, fetches (walk_trace ask mk page pages) = requests ask page (length pages).
Proof.
  intros Hask. induction pages as [|p pages IH]; intros page; [reflexivity|].
  cbn [walk_trace length]. change (ask page :: ?l) with ([ask page] ++ l).
  rewrite !fetches_app, Hask, fetches_AddFields, IH, requests_S. reflexivity.
Qed.

Lemma pagination_loop_full {A} iter ask (mk : A -> metric) pp : forall full k,
  turns_on iter ask mk pp k full ->
  Forall (fun p => pp <= len p) full ->
  forall fuel rest_o rest_t,
    pagination_loop iter fuel (Z.of_nat (k + length full)) = (rest_o, rest_t) ->
    pagination_loop iter (length full + fuel) (Z.of_nat k) =
    (rest_o, walk_trace ask mk (Z.of_nat k) full ++ rest_t).
Proof.
  induction full as [|p full IH]; intros k Hs Hfull fuel rest_o rest_t Hrest.
  - simpl. rewrite Nat.add_0_r in Hrest. exact Hrest.
  - pose proof (Hs 0%nat p eq_refl) as Hturn. rewrite Nat.add_0_r in Hturn.
    inversion Hfull as [|? ? Hp Hfull']; subst.
    cbn [length Nat.add pagination_loop]. rewrite Hturn. unfold turn_on.
    destruct (Z.ltb_spec (len p) pp) as [Hlt|_]; [lia|].
    replace (Z.of_nat k + 1) with (Z.of_nat (S k)) by lia.
    assert (Hs' : turns_on iter ask mk pp (S k) full).
    { intros i q Hq. replace (S k + i)%nat with (k + S i)%nat by lia. by apply Hs. }
    assert (Hrest' : pagination_loop iter fuel (Z.of_nat (S k + length full)) = (rest_o, rest_t)).
    { rewrite <- Hrest. f_equal. cbn [length]. lia. }
    rewrite (IH (S k) Hs' Hfull' fuel rest_o rest_t Hrest').
    cbn [walk_trace]. replace (Z.of_nat k + 1) with (Z.of_nat (S k)) by lia.
    by rewrite <- !app_comm_cons, app_assoc.
Qed.

Lemma pagination_loop_short {A} iter ask (mk : A -> metric) pp k short fuel :
  turns_on iter ask mk pp k [short] -> len short < pp ->
  pagination_loop iter (S fuel) (Z.of_nat k) =
  (Return None, walk_trace ask mk (Z.of_nat k) [short]).
Proof.
  intros Hs Hshort. pose proof (Hs 0%nat short eq_refl) as Hturn.
  rewrite Nat.add_0_r in Hturn.
  cbn [pagination_loop]. rewrite Hturn. unfold turn_on.
  destruct (Z.ltb_spec (len short) pp) as [_|Hge]; [|lia].
  cbn [walk_trace]. rewrite app_nil_r. reflexivity.
Qed.

Lemma turns_on_app {A} iter ask (mk : A -> metric) pp k a b :
  turns_on iter ask mk pp k (a ++ b) ->
  turns_on iter ask mk pp k a /\ turns_on iter ask mk pp (k + length a) b.
Proof.
  intros Hs. split.
  - intros i p Hp. apply Hs. by apply lookup_app_l_Some.
  - intros i p Hp. replace (k + length a + i)%nat with (k + (length a + i))%nat by lia.
    apply Hs. rewrite lookup_app_r by lia.
    replace (length a + i - length a)%nat with i by lia. exact Hp.
Qed.

Lemma walk_trace_app {A} ask (mk : A -> metric) a b k :
  walk_trace ask mk (Z.of_nat k) (a ++ b) =
  walk_trace ask mk (Z.of_nat k) a ++ walk_trace ask mk (Z.of_nat (k + length a)) b.
Proof.
  revert k. induction a as [|p a IH]; intros k.
  - simpl. by rewrite Nat.add_0_r.
  - cbn [app walk_trace length]. replace (Z.of_nat k + 1) with (Z.of_nat (S k)) by lia.
    rewrite IH, <- app_assoc. replace (S k + length a)%nat with (k + S (length a))%nat by lia.
    reflexivity.
Qed.

(** The loop over pages that end in a short one: it returns, having asked
    for every page once and emitted every item once, in order. *)
Lemma pagination_loop_walk {A} iter ask (mk : A -> metric) pp pages fuel :
  turns_on iter ask mk pp 0 pages -> ends_short pp pages -> (length pages <= fuel)%nat ->
  pagination_loop iter fuel 0 = (Return None, walk_trace ask mk 0 pages).
Proof.
  intros Hs (full & short & -> & Hfull & Hshort) Hfuel.
  apply turns_on_app in Hs as [Hs1 Hs2].
  rewrite length_app in Hfuel. cbn [length] in Hfuel.
  replace fuel with (length full + S (fuel - length full - 1))%nat by lia.
  change 0 with (Z.of_nat 0).
  rewrite (pagination_loop_full iter ask mk pp full 0 Hs1 Hfull _ _ _
             (pagination_loop_short iter ask mk pp _ short _ Hs2 Hshort)).
  rewrite walk_trace_app. reflexivity.
Qed.

(** The loop over full pages only: after as many turns as there are pages it
    has not left the loop. *)
Lemma pagination_loop_running {A} iter ask (mk : A -> metric) pp pages :
  turns_on iter ask mk pp 0 pages -> Forall (fun p => pp <= len p) pages ->
  pagination_loop iter (length pages) 0 = (OutOfFuel, walk_trace ask mk 0 pages).
Proof.
  intros Hs Hfull.
  pose proof (pagination_loop_full iter ask mk pp pages 0 Hs Hfull 0 OutOfFuel [] eq_refl) as E.
  rewrite Nat.add_0_r, app_nil_r in E. exact E.
Qed.

Lemma commits_loop_shape cl rep key pp fuel page :
  commits_loop cl rep key pp fuel page = pagination_loop (commits_iter cl rep key pp) fuel page.
Proof.
  revert page. induction fuel as [|fuel IH]; intros page; [reflexivity|].
  cbn [commits_loop pagination_loop]. destruct (commits_iter cl rep key pp page) as [[p'| |] evs];
    [rewrite IH|..]; reflexivity.
Qed.

Lemma commits_iter_served cl rep key pp page :
  fr_err (ListCommits cl key page pp) = None ->
  is_Some (fr_resp (ListCommits cl key page pp)) ->
  commits_iter cl rep key pp page =
  turn_on (ask_commits key pp) commit_metric pp page (fr_items (ListCommits cl key page pp)).
Proof.
  intros Herr [rs Hrs]. unfold commits_iter, turn_on. rewrite Herr.
  rewrite (range_AddFields_total _ commit_metric) by reflexivity.
  cbn [negb]. rewrite Hrs.
  destruct (len (fr_items (ListCommits cl key page pp)) <? pp); reflexivity.
Qed.

Lemma serves_commits_turns cl rep key pp pages :
  serves_commits cl key pp pages ->
  turns_on (commits_iter cl rep key pp) (ask_commits key pp) commit_metric pp 0 pages.
Proof.
  intros Hs i p Hp. destruct (Hs i p Hp) as (Hitems & Herr & Hresp).
  cbn [Nat.add]. rewrite (commits_iter_served _ _ _ _ _ Herr Hresp), Hitems. reflexivity.
Qed.

Section Walk.
Context `{UnicodeTables}.

Lemma mr_metric_total projects mr : mr_metric projects mr = Some (mr_record projects mr).
Proof. unfold mr_metric. rewrite getMRType_total. reflexivity. Qed.

Lemma mr_loop_shape cl projects pp fuel page :
  mr_loop cl projects pp fuel page = pagination_loop (mr_iter cl projects pp) fuel page.
Proof.
  revert page. induction fuel as [|fuel IH]; intros page; [reflexivity|].
  cbn [mr_loop pagination_loop]. destruct (mr_iter cl projects pp page) as [[p'| |] evs];
    [rewrite IH|..]; reflexivity.
Qed.

(** One turn of the merge-request loop on a page that came without error
    and with a response. *)
Lemma mr_iter_served cl projects pp page :
  fr_err (ListMergeRequests cl page pp) = None ->
  is_Some (fr_resp (ListMergeRequests cl page pp)) ->
  mr_iter cl projects pp page =
  turn_on (ask_mrs pp) (mr_record projects) pp page (fr_items (ListMergeRequests cl page pp)).
Proof.
  intros Herr [rs Hrs]. unfold mr_iter, turn_on. rewrite Herr.
  rewrite (range_AddFields_total _ _ _ (mr_metric_total projects)).
  cbn [negb]. rewrite Hrs.
  destruct (len (fr_items (ListMergeRequests cl page pp)) <? pp); reflexivity.
Qed.

Lemma mr_iter_error cl projects pp page e :
  fr_err (ListMergeRequests cl page pp) = Some e ->
  mr_iter cl projects pp page =
  (Break, [EvListMergeRequests page pp; EvAddError (ErrListMergeRequests e)]).
Proof. intros Herr. unfold mr_iter. rewrite Herr. reflexivity. Qed.

Lemma serves_mrs_turns cl projects pp pages :
  serves_mrs cl pp pages ->
  turns_on (mr_iter cl projects pp) (ask_mrs pp) (mr_record projects) pp 0 pages.
Proof.
  intros Hs i p Hp. destruct (Hs i p Hp) as (Hitems & Herr & Hresp).
  cbn [Nat.add]. rewrite (mr_iter_served _ _ _ _ Herr Hresp), Hitems. reflexivity.
Qed.

(** The loop reads the items, the error and whether there is a response at
    all, and nothing else of what a call returns: two clients that agree on
    these drive it the same way, whatever their responses hold. *)
Lemma mr_loop_ignores_response cl cl' projects pp :
  (forall page,
     fr_items (ListMergeRequests cl' page pp) = fr_items (ListMergeRequests cl page pp) /\
     fr_err (ListMergeRequests cl' page pp) = fr_err (ListMergeRequests cl page pp) /\
     (is_Some (fr_resp (ListMergeRequests cl' page pp)) <->
      is_Some (fr_resp (ListMergeRequests cl page pp)))) ->
  forall fuel page, mr_loop cl' projects pp fuel page = mr_loop cl projects pp fuel page.
Proof.
  intros Hsame.
  assert (Hiter : forall page, mr_iter cl' projects pp page = mr_iter cl projects pp page).
  { intros page. destruct (Hsame page) as (Hi & He & Hr). unfold mr_iter.
    rewrite Hi, He.
    destruct (fr_resp (ListMergeRequests cl' page pp)) as [rs'|];
      destruct (fr_resp (ListMergeRequests cl page pp)) as [rs|]; try reflexivity.
    - destruct (proj1 Hr ltac:(by eexists)) as [? [=]].
    - destruct (proj2 Hr ltac:(by eexists)) as [? [=]]. }
  induction fuel as [|fuel IH]; intros page; [reflexivity|].
  cbn [mr_loop]. rewrite Hiter.
  destruct (mr_iter cl projects pp page) as [[page'| |] evs]; [rewrite IH|..]; reflexivity.
Qed.

End Walk.

Lemma metrics_ask_mrs pp page : metrics [ask_mrs pp page] = [].
Proof. reflexivity. Qed.

Lemma fetches_ask_mrs pp page : fetches [ask_mrs pp page] = [ask_mrs pp page].
Proof. reflexivity. Qed.

Lemma metrics_ask_commits pid pp page : metrics [ask_commits pid pp page] = [].
Proof. reflexivity. Qed.

Lemma fetches_ask_commits pid pp page :
  fetches [ask_commits pid pp page] = [ask_commits pid pp page].
Proof. reflexivity. Qed.

Section Claims.
Context `{UnicodeTables}.

(** C1. Over pages of size 100 that the client serves without error, the
    merge-request walker asks for the pages in order, each once, and calls
    [AddFields] once per item, in page order and item order within a page.
    It returns on the first page with fewer than 100 items, and while every
    page so far was full it is still in its loop.  What it does is fixed by
    the items, the error and the presence of a response: the contents of the
    response (a total, a next-page hint) play no part. *)
Theorem fetchMergeRequests_walks_pages (h : Gitlab) (cl : Client)
    (pages : list (list MergeRequest.t)) :
  client h = Some cl ->
  serves_mrs cl 100 pages ->
  (ends_short 100 pages -> forall fuel, (length pages <= fuel)%nat ->
     fetchMergeRequests h fuel =
     (Return None, walk_trace (ask_mrs 100) (mr_record (projects h)) 0 pages)) /\
  (Forall (fun p => 100 <= len p) pages ->
     fetchMergeRequests h (length pages) =
     (OutOfFuel, walk_trace (ask_mrs 100) (mr_record (projects h)) 0 pages)) /\
  metrics (walk_trace (ask_mrs 100) (mr_record (projects h)) 0 pages) =
    map (mr_record (projects h)) (concat pages) /\
  fetches (walk_trace (ask_mrs 100) (mr_record (projects h)) 0 pages) =
    requests (ask_mrs 100) 0 (length pages) /\
  (forall cl',
     (forall page,
        fr_items (ListMergeRequests cl' page 100) = fr_items (ListMergeRequests cl page 100) /\
        fr_err (ListMergeRequests cl' page 100) = fr_err (ListMergeRequests cl page 100) /\
        (is_Some (fr_resp (ListMergeRequests cl' page 100)) <->
         is_Some (fr_resp (ListMergeRequests cl page 100)))) ->
     forall fuel,
       fetchMergeRequests (with_client h (Some cl')) fuel = fetchMergeRequests h fuel).
Proof.
  intros Hcl Hs. unfold fetchMergeRequests. rewrite Hcl.
  pose proof (serves_mrs_turns cl (projects h) 100 pages Hs) as Hturns.
  split; [|split; [|split; [|split]]].
  - intros Hshort fuel Hfuel. rewrite mr_loop_shape.
    by apply (pagination_loop_walk _ _ _ 100).
  - intros Hfull. rewrite mr_loop_shape. by apply (pagination_loop_running _ _ _ 100).
  - apply walk_trace_metrics, metrics_ask_mrs.
  - apply walk_trace_fetches, fetches_ask_mrs.
  - intros cl' Hsame fuel. cbn [with_client client projects].
    by apply mr_loop_ignores_response.
Qed.

End Claims.

Lemma two_page_client_serves : serves_mrs two_page_client 100 two_pages.
Proof.
  intros i p Hp. destruct i as [|[|i]]; cbn in Hp; [| |discriminate].
  - injection Hp as <-. split; [vm_compute; reflexivity|]. split; [reflexivity|]. by eexists.
  - injection Hp as <-. split; [vm_compute; reflexivity|]. split; [reflexivity|]. by eexists.
Qed.

Lemma two_pages_end_short : ends_short 100 two_pages.
Proof.
  exists [replicate 100 blank_mr], [blank_mr]. split; [reflexivity|].
  split; [|vm_compute; reflexivity].
  apply List.Forall_cons; [vm_compute; discriminate | apply List.Forall_nil].
Qed.

(** C1, on a server with 101 merge requests: two pages, the second short. *)
Lemma fetchMergeRequests_walks_pages_witness :
  client (started two_page_client []) = Some two_page_client /\
  serves_mrs two_page_client 100 two_pages /\
  ends_short 100 two_pages /\
  @fetchMergeRequests caseless_tables (started two_page_client []) 2 =
  (Return None,
   walk_trace (ask_mrs 100) (@mr_record caseless_tables (projects (started two_page_client [])))
     0 two_pages).
Proof.
  split; [reflexivity|]. split; [exact two_page_client_serves|].
  split; [exact two_pages_end_short|].
  exact (proj1 (@fetchMergeRequests_walks_pages caseless_tables
                  (started two_page_client []) two_page_client two_pages
                  eq_refl two_page_client_serves)
           two_pages_end_short 2%nat (le_n 2)).
Defined.

Lemma chunks_length {A} n pp (l : list A) : length (chunks n pp l) = S n.
Proof. revert l. induction n as [|n IH]; intros l; [reflexivity|]. cbn. by rewrite IH. Qed.

Lemma concat_chunks {A} n pp (l : list A) : concat (chunks n pp l) = l.
Proof.
  revert l. induction n as [|n IH]; intros l; cbn [chunks concat].
  - apply app_nil_r.
  - rewrite IH. apply take_drop.
Qed.

Lemma chunks_lookup {A} pp : forall n (l : list A) i p,
  (length l < S n * pp)%nat ->
  chunks n pp l !! i = Some p -> p = take pp (drop (i * pp) l).
Proof.
  induction n as [|n IH]; intros l i p Hlen Hp.
  - destruct i as [|i]; [|discriminate]. injection Hp as <-.
    cbn. rewrite drop_0. symmetry. apply take_ge. lia.
  - destruct i as [|i]; cbn in Hp.
    + injection Hp as <-. cbn. by rewrite drop_0.
    + assert (Hl : (length (drop pp l) < S n * pp)%nat) by (rewrite length_drop; lia).
      rewrite (IH _ _ _ Hl Hp), drop_drop. do 2 f_equal; lia.
Qed.

Lemma chunks_ends_short {A} pp : forall n (l : list A),
  (n * pp <= length l < S n * pp)%nat ->
  exists full short, chunks n pp l = full ++ [short] /\
    Forall (fun p => length p = pp) full /\ (length short < pp)%nat.
Proof.
  induction n as [|n IH]; intros l Hlen.
  - exists [], l. split; [reflexivity|]. split; [constructor | lia].
  - destruct (IH (drop pp l)) as (full & short & E & Hfull & Hshort);
      [rewrite length_drop; lia|].
    exists (take pp l :: full), short. cbn [chunks]. rewrite E. split; [reflexivity|].
    split; [|assumption]. constructor; [|assumption]. rewrite length_take. lia.
Qed.

(** The number of full pages of a source. *)
Lemma full_pages_bounds (N P : Z) :
  0 <= N -> 0 < P ->
  (Z.to_nat (N / P) * Z.to_nat P <= Z.to_nat N < S (Z.to_nat (N / P)) * Z.to_nat P)%nat.
Proof.
  intros HN HP.
  pose proof (Z.div_pos N P HN HP) as Hq.
  pose proof (Z.mul_div_le N P HP) as Hlo.
  pose proof (Z.mul_succ_div_gt N P HP) as Hhi.
  split.
  - apply Nat2Z.inj_le. rewrite Nat2Z.inj_mul, !Z2Nat.id by lia. lia.
  - apply Nat2Z.inj_lt. rewrite Nat2Z.inj_mul, Nat2Z.inj_succ, !Z2Nat.id by lia. lia.
Qed.

Lemma full_pages_bounds_len {A} (items : list A) (P : Z) :
  0 < P ->
  (Z.to_nat (len items / P) * Z.to_nat P <= length items
   < S (Z.to_nat (len items / P)) * Z.to_nat P)%nat.
Proof.
  intros HP.
  pose proof (full_pages_bounds (len items) P ltac:(unfold len; lia) HP) as Hb.
  assert (E : Z.to_nat (len items) = length items) by (unfold len; apply Nat2Z.id).
  rewrite E in Hb. exact Hb.
Qed.

Lemma pages_of_ends_short {A} (items : list A) (P : Z) :
  0 < P -> ends_short P (pages_of items P).
Proof.
  intros HP. unfold pages_of.
  pose proof (full_pages_bounds_len items P HP) as Hb.
  destruct (chunks_ends_short (Z.to_nat P) _ items Hb) as (full & short & E & Hfull & Hshort).
  exists full, short. split; [exact E|]. split.
  - eapply Forall_impl; [exact Hfull|]. intros p Hp. cbv beta in Hp. clear Hb E. unfold len. lia.
  - clear Hb E. unfold len. lia.
Qed.

Lemma pages_of_lookup {A} (items : list A) (P : Z) (i : nat) p :
  0 < P -> pages_of items P !! i = Some p -> p = page_of items P (Z.of_nat i).
Proof.
  intros HP Hp. unfold pages_of in Hp.
  pose proof (full_pages_bounds_len items P HP) as Hb.
  apply chunks_lookup in Hp; [|lia]. rewrite Hp. unfold page_of.
  do 2 f_equal. rewrite Z2Nat.inj_mul, Nat2Z.id by lia. reflexivity.
Qed.

Lemma pages_of_length {A} (items : list A) (P : Z) :
  0 < P -> len (pages_of items P) = len items / P + 1.
Proof.
  intros HP. unfold pages_of, len at 1. rewrite chunks_length.
  assert (0 <= len items / P) by (apply Z.div_pos; unfold len; lia). lia.
Qed.

Lemma source_serves_mrs ps mrs commits P :
  0 < P -> serves_mrs (source_client ps mrs commits) P (pages_of mrs P).
Proof.
  intros HP i p Hp. cbn. split; [|split; [reflexivity | by eexists]].
  symmetry. by apply pages_of_lookup.
Qed.

Lemma source_serves_commits ps mrs commits key P :
  0 < P -> serves_commits (source_client ps mrs commits) key P (pages_of (commits key) P).
Proof.
  intros HP i p Hp. cbn. split; [|split; [reflexivity | by eexists]].
  symmetry. by apply pages_of_lookup.
Qed.

(** Pages before the last full page count [P] items, the page after them
    fewer. *)
Lemma page_of_sizes {A} (items : list A) (P : Z) :
  0 < P ->
  (forall i, 0 <= i < len items / P -> len (page_of items P i) = P) /\
  len (page_of items P (len items / P)) < P.
Proof.
  intros HP.
  assert (HN : 0 <= len items) by (unfold len; lia).
  pose proof (Z.mul_div_le (len items) P HP) as Hlo.
  pose proof (Z.mul_succ_div_gt (len items) P HP) as Hhi.
  split.
  - intros i Hi. unfold page_of, len at 1. rewrite length_take, length_drop.
    assert (H1 : i * P + P <= len items) by nia.
    assert (H2 : 0 <= i * P) by nia.
    clear Hlo Hhi Hi. unfold len in *. set (k := i * P) in *. clearbody k. lia.
  - unfold page_of, len at 1. rewrite length_take, length_drop.
    pose proof (Z.div_pos (len items) P HN HP) as Hq.
    assert (H1 : 0 <= len items / P * P) by nia.
    assert (H2 : len items < len items / P * P + P) by nia.
    clear Hlo Hhi Hq. unfold len in *.
    set (k := Z.of_nat (length items) / P * P) in *. clearbody k. lia.
Qed.

Lemma fetch_count_ceil (N P : Z) :
  0 <= N -> 0 < P ->
  N / P + 1 = if N mod P =? 0 then ceil_div N P + 1 else ceil_div N P.
Proof.
  intros HN HP. unfold ceil_div.
  pose proof (Z.div_mod N P ltac:(lia)) as Hdm.
  pose proof (Z.mod_pos_bound N P HP) as Hr.
  destruct (Z.eqb_spec (N mod P) 0) as [E|E].
  - f_equal. apply (Z.div_unique _ _ _ (P - 1)); lia.
  - apply (Z.div_unique _ _ _ (N mod P - 1)); lia.
Qed.

Lemma requests_length ask first n : length (requests ask first n) = n.
Proof. unfold requests. by rewrite length_map, length_seq. Qed.

Lemma ends_short_length {A} pp (pages : list (list A)) :
  ends_short pp pages -> (1 <= length pages)%nat.
Proof. intros (full & short & -> & _). rewrite length_app. simpl. lia. Qed.

Section Claims.
Context `{UnicodeTables}.

(** C5. For every page size [P > 0] and every source of [N] items, the
    merge-request loop and the commit loop return after [N/P + 1] requests,
    for the pages [0 .. N/P] in order, with one metric per item in order.
    The pages before page [N/P] hold [P] items and page [N/P] fewer, so the
    loop ends on the first short page.  [N/P + 1] is [ceil(N/P)] when [P]
    does not divide [N], and [ceil(N/P) + 1], the extra request for an empty
    last page, when it does. *)
Theorem walkers_fetch_count (P : Z) (ps : list Project.t) (mrs : list MergeRequest.t)
    (commits : Z -> list Commit.t) (projects : gmap Z gostring) (rep : gostring)
    (key : Z) (fuel : nat) :
  0 < P ->
  len mrs / P < Z.of_nat fuel ->
  len (commits key) / P < Z.of_nat fuel ->
  (exists t,
     mr_loop (source_client ps mrs commits) projects P fuel 0 = (Return None, t) /\
     metrics t = map (mr_record projects) mrs /\
     fetches t = requests (ask_mrs P) 0 (Z.to_nat (len mrs / P + 1)) /\
     len (fetches t) = len mrs / P + 1) /\
  (exists t,
     commits_loop (source_client ps mrs commits) rep key P fuel 0 = (Return None, t) /\
     metrics t = map commit_metric (commits key) /\
     fetches t = requests (ask_commits key P) 0 (Z.to_nat (len (commits key) / P + 1)) /\
     len (fetches t) = len (commits key) / P + 1) /\
  (forall A (items : list A),
     (forall i, 0 <= i < len items / P -> len (page_of items P i) = P) /\
     len (page_of items P (len items / P)) < P) /\
  (forall N, 0 <= N ->
     N / P + 1 = if N mod P =? 0 then ceil_div N P + 1 else ceil_div N P).
Proof.
  intros HP Hfuel1 Hfuel2.
  assert (Hcount : forall A (items : list A),
            Z.to_nat (len items / P + 1) = length (pages_of items P)).
  { intros A items. pose proof (pages_of_length items P HP) as E. unfold len at 1 in E. lia. }
  split; [|split; [|split]].
  - exists (walk_trace (ask_mrs P) (mr_record projects) 0 (pages_of mrs P)).
    split; [|split; [|split]].
    + rewrite mr_loop_shape. apply (pagination_loop_walk _ _ _ P).
      * apply serves_mrs_turns, source_serves_mrs, HP.
      * apply pages_of_ends_short, HP.
      * rewrite <- Hcount. lia.
    + rewrite (walk_trace_metrics _ _ _ (metrics_ask_mrs P)). unfold pages_of.
      by rewrite concat_chunks.
    + rewrite (walk_trace_fetches _ _ _ (fetches_ask_mrs P)). by rewrite Hcount.
    + rewrite (walk_trace_fetches _ _ _ (fetches_ask_mrs P)). unfold len at 1.
      rewrite requests_length. apply pages_of_length, HP.
  - exists (walk_trace (ask_commits key P) commit_metric 0 (pages_of (commits key) P)).
    split; [|split; [|split]].
    + rewrite commits_loop_shape. apply (pagination_loop_walk _ _ _ P).
      * apply serves_commits_turns, source_serves_commits, HP.
      * apply pages_of_ends_short, HP.
      * rewrite <- Hcount. lia.
    + rewrite (walk_trace_metrics _ _ _ (metrics_ask_commits key P)). unfold pages_of.
      by rewrite concat_chunks.
    + rewrite (walk_trace_fetches _ _ _ (fetches_ask_commits key P)). by rewrite Hcount.
    + rewrite (walk_trace_fetches _ _ _ (fetches_ask_commits key P)). unfold len at 1.
      rewrite requests_length. apply pages_of_length, HP.
  - intros A items. apply page_of_sizes, HP.
  - intros N HN. apply fetch_count_ceil; assumption.
Qed.

End Claims.

(** C5 at [P = 2] and four merge requests: three requests. *)
Lemma walkers_fetch_count_witness :
  0 < 2 /\
  len [blank_mr; blank_mr; blank_mr; blank_mr] / 2 < Z.of_nat 5 /\
  len [blank_commit] / 2 < Z.of_nat 5 /\
  (exists t,
     @mr_loop caseless_tables
       (source_client two_projects [blank_mr; blank_mr; blank_mr; blank_mr]
          (fun _ => [blank_commit])) ∅ 2 5 0 = (Return None, t) /\
     metrics t = map (@mr_record caseless_tables ∅) [blank_mr; blank_mr; blank_mr; blank_mr] /\
     len (fetches t) = 3).
Proof.
  split; [lia|]. split; [vm_compute; reflexivity|]. split; [vm_compute; reflexivity|].
  destruct (proj1 (@walkers_fetch_count caseless_tables 2 two_projects
                     [blank_mr; blank_mr; blank_mr; blank_mr] (fun _ => [blank_commit])
                     ∅ (runes "a") 1 5 ltac:(lia) ltac:(vm_compute; reflexivity)
                     ltac:(vm_compute; reflexivity)))
    as (t & Hrun & Hmetrics & _ & Hcount).
  exists t. split; [exact Hrun|]. split; [exact Hmetrics | exact Hcount].
Defined.

(** One pass of the early variant from its label, on a call without error. *)
Lemma getmr_pass_noerr cl projects cp :
  fr_err (ListMergeRequests cl cp 100) = None ->
  Early.getmr_pass cl projects cp =
  (match fr_resp (ListMergeRequests cl cp 100) with
   | None => Early.Panics
   | Some _ =>
       if len (fr_items (ListMergeRequests cl cp 100)) =? 100
       then Early.Goto (cp + 1) else Early.Returns None
   end,
   EvListMergeRequests cp 100 :: EvPrint (len (fr_items (ListMergeRequests cl cp 100))) ::
     map (fun mr => EvAddFields (Early.mr_metric projects mr))
       (fr_items (ListMergeRequests cl cp 100))).
Proof.
  intros Herr. unfold Early.getmr_pass. rewrite Herr.
  rewrite (range_AddFields_total _ (Early.mr_metric projects)) by reflexivity.
  cbn [negb]. destruct (fr_resp (ListMergeRequests cl cp 100)); [|reflexivity].
  destruct (len (fr_items (ListMergeRequests cl cp 100)) =? 100); reflexivity.
Qed.

Section Claims.
Context `{UnicodeTables}.

Lemma mr_iter_noerr cl projects pp page :
  fr_err (ListMergeRequests cl page pp) = None ->
  mr_iter cl projects pp page =
  (match fr_resp (ListMergeRequests cl page pp) with
   | None => Panic
   | Some _ =>
       if len (fr_items (ListMergeRequests cl page pp)) <? pp then Break
       else Continue (page + 1)
   end,
   EvListMergeRequests page pp ::
     map (fun mr => EvAddFields (mr_record projects mr))
       (fr_items (ListMergeRequests cl page pp))).
Proof.
  intros Herr. unfold mr_iter. rewrite Herr.
  rewrite (range_AddFields_total _ _ _ (mr_metric_total projects)).
  cbn [negb]. destruct (fr_resp (ListMergeRequests cl page pp)); [|reflexivity].
  destruct (len (fr_items (ListMergeRequests cl page pp)) <? pp); reflexivity.
Qed.

(** C9. When no call fails and no page holds more than 100 items, the
    early variant's pass from its label and the final variant's loop end the
    same way, ask for the same pages in the same order, and emit metrics of
    the same items in the same order.  The early pass jumps back exactly when
    the page holds 100 items, the final loop goes round again exactly when
    the page does not hold fewer than 100. *)
Theorem goto_loop_equivalent (cl : Client) (projects0 projects : gmap Z gostring) (fuel : nat) :
  (forall page, fr_err (ListMergeRequests cl page 100) = None /\
                len (fr_items (ListMergeRequests cl page 100)) <= 100) ->
  (forall cp,
     fst (Early.getmr cl projects0 fuel cp) = fst (mr_loop cl projects 100 fuel cp) /\
     exists n items,
       fetches (snd (Early.getmr cl projects0 fuel cp)) = requests (ask_mrs 100) cp n /\
       fetches (snd (mr_loop cl projects 100 fuel cp)) = requests (ask_mrs 100) cp n /\
       metrics (snd (Early.getmr cl projects0 fuel cp)) = map (Early.mr_metric projects0) items /\
       metrics (snd (mr_loop cl projects 100 fuel cp)) = map (mr_record projects) items) /\
  (forall cp, is_Some (fr_resp (ListMergeRequests cl cp 100)) ->
     (fst (Early.getmr_pass cl projects0 cp) = Early.Goto (cp + 1) <->
      len (fr_items (ListMergeRequests cl cp 100)) = 100) /\
     (fst (mr_iter cl projects 100 cp) = Continue (cp + 1) <->
      ~ len (fr_items (ListMergeRequests cl cp 100)) < 100)).
Proof.
  intros Hcl. split.
  - induction fuel as [|fuel IH]; intros cp.
    + split; [reflexivity|]. exists 0%nat, []. repeat split; reflexivity.
    + destruct (Hcl cp) as [Herr Hlen].
      cbn [Early.getmr mr_loop].
      rewrite (getmr_pass_noerr cl projects0 cp Herr), (mr_iter_noerr cl projects 100 cp Herr).
      set (items := fr_items (ListMergeRequests cl cp 100)) in *.
      destruct (fr_resp (ListMergeRequests cl cp 100)) as [rs|].
      2:{ split; [reflexivity|]. exists 1%nat, items. cbn [fst snd].
          change (EvListMergeRequests cp 100 :: EvPrint (len items) :: ?l)
            with ([EvListMergeRequests cp 100; EvPrint (len items)] ++ l).
          change (EvListMergeRequests cp 100 :: map ?f items)
            with ([EvListMergeRequests cp 100] ++ map f items).
          rewrite !fetches_app, !metrics_app, !fetches_AddFields, !metrics_AddFields.
          repeat split; try reflexivity.
          all: unfold requests; cbn; by rewrite Z.add_0_r. }
      destruct (Z.eqb_spec (len items) 100) as [E|E];
        destruct (Z.ltb_spec (len items) 100) as [Hlt|Hge]; try lia.
      * destruct (IH (cp + 1)) as (Ho & n & rest & Hf1 & Hf2 & Hm1 & Hm2).
        destruct (Early.getmr cl projects0 fuel (cp + 1)) as [o1 t1].
        destruct (mr_loop cl projects 100 fuel (cp + 1)) as [o2 t2].
        cbn [fst snd] in *. split; [exact Ho|].
        exists (S n), (items ++ rest).
        change (EvListMergeRequests cp 100 :: EvPrint (len items) :: ?l)
          with ([EvListMergeRequests cp 100; EvPrint (len items)] ++ l).
        change (EvListMergeRequests cp 100 :: map ?f items)
          with ([EvListMergeRequests cp 100] ++ map f items).
        rewrite !fetches_app, !metrics_app, !fetches_AddFields, !metrics_AddFields.
        rewrite Hf1, Hf2, Hm1, Hm2, requests_S, !map_app. repeat split; reflexivity.
      * split; [reflexivity|]. exists 1%nat, items. cbn [fst snd].
        change (EvListMergeRequests cp 100 :: EvPrint (len items) :: ?l)
          with ([EvListMergeRequests cp 100; EvPrint (len items)] ++ l).
        change (EvListMergeRequests cp 100 :: map ?f items)
          with ([EvListMergeRequests cp 100] ++ map f items).
        rewrite !fetches_app, !metrics_app, !fetches_AddFields, !metrics_AddFields.
        repeat split; try reflexivity.
        all: unfold requests; cbn; by rewrite Z.add_0_r.
  - intros cp [rs Hrs]. destruct (Hcl cp) as [Herr Hlen].
    rewrite (getmr_pass_noerr cl projects0 cp Herr), (mr_iter_noerr cl projects 100 cp Herr), Hrs.
    cbn [fst].
    destruct (Z.eqb_spec (len (fr_items (ListMergeRequests cl cp 100))) 100) as [E|E];
      destruct (Z.ltb_spec (len (fr_items (ListMergeRequests cl cp 100))) 100) as [Hlt|Hge];
      split; split; intros; try done; try lia.
Qed.

End Claims.

(** [mapkey]'s loop finds nothing when no entry holds the value, in whatever
    order the entries are visited. *)
Lemma mapkey_range_unresolved entries value :
  (forall k v, (k, v) ∈ entries -> v <> value) -> mapkey_range entries value = (0, false).
Proof.
  induction entries as [|[k v] entries IH]; intros Hno; [reflexivity|].
  cbn [mapkey_range]. rewrite bool_decide_eq_false_2 by (apply (Hno k); left).
  apply IH. intros k' v' Hin. apply (Hno k'). by right.
Qed.

Lemma mapkey_range_resolved entries value k :
  mapkey_range entries value = (k, true) -> (k, value) ∈ entries.
Proof.
  induction entries as [|[k' v] entries IH]; [discriminate|].
  cbn [mapkey_range]. case_bool_decide as Hv.
  - intros [= ->]. subst. left.
  - intros Hk. right. by apply IH.
Qed.

Lemma mapkey_range_false entries value k :
  mapkey_range entries value = (k, false) ->
  k = 0 /\ forall k' v, (k', v) ∈ entries -> v <> value.
Proof.
  induction entries as [|[k0 v0] entries IH]; cbn [mapkey_range].
  - intros [= <-]. split; [reflexivity|]. intros k' v Hin. by apply elem_of_nil in Hin.
  - case_bool_decide as Hv; [discriminate|]. intros Hr. destruct (IH Hr) as [Hk Hno].
    split; [exact Hk|]. intros k' v [[= -> ->]|Hin]%elem_of_cons; [exact Hv|].
    by apply (Hno k').
Qed.

(** The two ways the loop can end, for any order of the entries of a map. *)
Lemma mapkey_range_cases (m : gmap Z gostring) (entries : list (Z * gostring))
    (value : gostring) :
  entries ≡ₚ map_to_list m ->
  (exists k, mapkey_range entries value = (k, true) /\ m !! k = Some value) \/
  (mapkey_range entries value = (0, false) /\ forall k, m !! k <> Some value).
Proof.
  intros Hperm.
  assert (Hin : forall k v, (k, v) ∈ entries <-> m !! k = Some v).
  { intros k v. rewrite Hperm. apply elem_of_map_to_list. }
  destruct (mapkey_range entries value) as [k ok] eqn:E. destruct ok.
  - left. exists k. split; [reflexivity|]. by apply Hin, mapkey_range_resolved.
  - right. apply mapkey_range_false in E as [-> Hno]. split; [reflexivity|].
    intros k Hk. apply Hin in Hk. by destruct (Hno k value Hk).
Qed.

Lemma mapkey_cases `{RangeOrder} n (m : gmap Z gostring) value :
  (exists k, mapkey n m value = (k, true) /\ m !! k = Some value) \/
  (mapkey n m value = (0, false) /\ forall k, m !! k <> Some value).
Proof. apply mapkey_range_cases, range_order_perm. Qed.

Lemma mapkey_unresolved `{RangeOrder} n (m : gmap Z gostring) value :
  (forall k, m !! k <> Some value) -> mapkey n m value = (0, false).
Proof.
  intros Hno. destruct (mapkey_cases n m value) as [(k & _ & Hk)|[E _]]; [|exact E].
  by destruct (Hno k).
Qed.

Lemma mapkey_resolved `{RangeOrder} n (m : gmap Z gostring) value k :
  mapkey n m value = (k, true) -> m !! k = Some value.
Proof.
  intros E. destruct (mapkey_cases n m value) as [(k' & E' & Hk)|[E' _]]; congruence.
Qed.

(** A name that one project has, and no other, resolves to that project in
    every order. *)
Lemma mapkey_unique `{RangeOrder} n (m : gmap Z gostring) value k :
  m !! k = Some value -> (forall k', m !! k' = Some value -> k' = k) ->
  mapkey n m value = (k, true).
Proof.
  intros Hk Huniq. destruct (mapkey_cases n m value) as [(k' & E & Hk')|[_ Hno]].
  - by rewrite E, (Huniq k' Hk').
  - by destruct (Hno k).
Qed.

Lemma mapkey_distinct (O O' : RangeOrder) n n' (m : gmap Z gostring) value :
  distinct_names m -> @mapkey O n m value = @mapkey O' n' m value.
Proof.
  intros Hd.
  destruct (@mapkey_cases O n m value) as [(k & -> & Hk)|[-> Hno]];
    destruct (@mapkey_cases O' n' m value) as [(k' & -> & Hk')|[-> Hno']].
  - f_equal. by apply (Hd k k' value).
  - by destruct (Hno' k).
  - by destruct (Hno k').
  - reflexivity.
Qed.

Lemma resolve_repo_distinct (O O' : RangeOrder) n n' projects rep :
  distinct_names projects ->
  @resolve_repo O n projects rep = @resolve_repo O' n' projects rep.
Proof. intros Hd. unfold resolve_repo. by rewrite (mapkey_distinct O O' n n'). Qed.

Lemma commits_range_distinct (O O' : RangeOrder) cl projects fuel repos :
  distinct_names projects ->
  @commits_range O cl projects fuel repos = @commits_range O' cl projects fuel repos.
Proof.
  intros Hd. induction repos as [|rep rest IH]; [reflexivity|].
  cbn [commits_range]. rewrite (resolve_repo_distinct O O' _ (length rest)) by exact Hd.
  by rewrite IH.
Qed.

Lemma fetchCommits_distinct (O O' : RangeOrder) h fuel :
  distinct_names (projects h) -> @fetchCommits O h fuel = @fetchCommits O' h fuel.
Proof.
  intros Hd. unfold fetchCommits. destruct (Repos h) as [|rep rest]; [reflexivity|].
  destruct (client h) as [cl|].
  - by apply commits_range_distinct.
  - by rewrite (resolve_repo_distinct O O' _ (length rest)).
Qed.

Lemma step_keeps_projects `{UnicodeTables} `{RangeOrder} a s s' :
  step a s = Some s' -> projects (st_h s') = projects (st_h s).
Proof.
  unfold step. destruct (st_crashed s); [discriminate|]. destruct a.
  - unfold step_mr. destruct (st_mr s) as [page|]; [|discriminate].
    destruct (client (st_h s)) as [cl|]; [|by intros [= <-]].
    destruct (mr_iter cl (projects (st_h s)) 100 page) as [[page'| |] evs];
      [by intros [= <-]| |by intros [= <-]].
    unfold wg_Done. destruct (wg (st_h s)) as [n|]; [|by intros [= <-]].
    destruct (n - 1 <? 0); by intros [= <-].
  - unfold step_cm.
    destruct (st_cm s) as [[|rep rest]|rep key page rest|]; [by intros [= <-]| | |discriminate].
    + destruct (resolve_repo (length rest) (projects (st_h s)) rep). by intros [= <-].
    + destruct (client (st_h s)) as [cl|]; [|by intros [= <-]].
      destruct (commits_iter cl rep key 100 page) as [[page'| |] evs]; by intros [= <-].
  - unfold step_stop, Stop_cancel, Stop_wait. destruct (st_stop s); [| |discriminate].
    + destruct (cancel (st_h s)) as [[]|]; by intros [= <-].
    + destruct (wg (st_h s)) as [n|]; [|by intros [= <-]].
      destruct (n =? 0); [by intros [= <-] | discriminate].
Qed.

Lemma step_distinct (U : UnicodeTables) (O O' : RangeOrder) a s :
  distinct_names (projects (st_h s)) -> @step U O a s = @step U O' a s.
Proof.
  intros Hd. unfold step. destruct (st_crashed s); [reflexivity|].
  destruct a; [reflexivity| |reflexivity].
  unfold step_cm. destruct (st_cm s) as [[|rep rest]|rep key page rest|]; try reflexivity.
  by rewrite (resolve_repo_distinct O O' _ (length rest)).
Qed.

(** With distinct project names a run of the goroutines is the same run in
    every order of the map. *)
Lemma run_distinct (U : UnicodeTables) (O O' : RangeOrder) sched : forall s,
  distinct_names (projects (st_h s)) -> @run U O sched s = @run U O' sched s.
Proof.
  induction sched as [|a sched IH]; intros s Hd; [reflexivity|].
  cbn [run]. rewrite (step_distinct U O O') by exact Hd.
  destruct (@step U O' a s) as [s'|] eqn:Es; [|reflexivity].
  cbn. apply IH. by rewrite (step_keeps_projects a s s' Es).
Qed.

Lemma two_projects_lookup k v :
  build_projects two_projects !! k = Some v ->
  (k = 1 /\ v = runes "a") \/ (k = 2 /\ v = runes "b").
Proof.
  unfold build_projects, two_projects. cbn [foldl Project.ID Project.Name].
  rewrite lookup_insert_Some. intros [[<- <-]|[Hne Hk]]; [by right|].
  rewrite lookup_insert_Some in Hk. destruct Hk as [[<- <-]|[_ Hk]]; [by left|].
  by rewrite lookup_empty in Hk.
Qed.

Lemma two_projects_distinct : distinct_names (build_projects two_projects).
Proof.
  intros k k' v Hk Hk'.
  destruct (two_projects_lookup _ _ Hk) as [[-> ->]|[-> ->]];
    destruct (two_projects_lookup _ _ Hk') as [[-> E]|[-> E]];
    first [reflexivity | discriminate].
Qed.

(** A failed call of the commit list: the turn reports it and goes on.  With
    a nil response it panics at [rs.Body.Close()]; with a response it goes on
    to the short-page test with whatever came back. *)
Lemma commits_iter_error cl rep key pp page e :
  fr_err (ListCommits cl key page pp) = Some e ->
  exists evs,
    snd (commits_iter cl rep key pp page) =
      EvListCommits key page pp :: EvAddError (ErrListProject rep e) :: evs /\
    fst (commits_iter cl rep key pp page) =
      match fr_resp (ListCommits cl key page pp) with
      | None => Panic
      | Some _ =>
          if len (fr_items (ListCommits cl key page pp)) <? pp then Break
          else Continue (page + 1)
      end.
Proof.
  intros Herr. unfold commits_iter. rewrite Herr.
  rewrite (range_AddFields_total _ commit_metric) by reflexivity. cbn [negb].
  eexists. destruct (fr_resp (ListCommits cl key page pp)).
  - destruct (len (fr_items (ListCommits cl key page pp)) <? pp); split; reflexivity.
  - split; reflexivity.
Qed.

Lemma commits_range_unresolved `{RangeOrder} cl projects fuel rep rest :
  mapkey (length rest) projects rep = (0, false) ->
  exists evs,
    snd (commits_range cl projects (S fuel) (rep :: rest)) =
    EvAddError ErrValueNotInMap :: EvListCommits 0 0 100 :: evs.
Proof.
  intros Hkey. cbn [commits_range]. unfold resolve_repo. rewrite Hkey.
  cbn [commits_loop]. unfold commits_iter.
  rewrite (range_AddFields_total _ commit_metric) by reflexivity. cbn [negb].
  destruct (fr_resp (ListCommits cl 0 0 100)).
  - destruct (len (fr_items (ListCommits cl 0 0 100)) <? 100).
    + destruct (commits_range cl projects (S fuel) rest) as [o t]. eexists. reflexivity.
    + destruct (commits_loop cl rep 0 100 fuel (0 + 1)) as [[e| |] t].
      * destruct (commits_range cl projects (S fuel) rest) as [o' t']. eexists. reflexivity.
      * eexists. reflexivity.
      * eexists. reflexivity.
  - eexists. reflexivity.
Qed.

(** C3 at a server that cannot be reached.  The merge-request walker reports
    the error and leaves its loop.  The commit walker, in whatever order the
    project map is visited, reports the error, goes on in the same turn and
    panics on the nil response; in the goroutine model that panic ends the
    process while the merge-request walker still has pages to fetch. *)
Theorem fetchCommits_error_goes_on :
  (forall (U : UnicodeTables) fuel,
     @fetchMergeRequests U (started unreachable_client [runes "a"]) (S fuel) =
     (Return None,
      [EvListMergeRequests 0 100; EvAddError (ErrListMergeRequests "connection refused")])) /\
  (forall (O : RangeOrder) fuel,
     @fetchCommits O (started unreachable_client [runes "a"]) (S fuel) =
     (Panicked,
      [EvListCommits 1 0 100; EvAddError (ErrListProject (runes "a") "connection refused")])) /\
  (forall (U : UnicodeTables) (O : RangeOrder),
     exists s,
       @run U O [CommitWalker; CommitWalker] (launched (started unreachable_client [runes "a"]))
         = Some s /\
       st_crashed s = true /\ st_mr s = MRRun 0 /\
       @step U O MergeRequestWalker s = None).
Proof.
  split; [|split].
  - intros U fuel. reflexivity.
  - intros O fuel. rewrite (fetchCommits_distinct O listed_order) by apply two_projects_distinct.
    vm_compute. reflexivity.
  - intros U O. rewrite (run_distinct U O listed_order) by apply two_projects_distinct.
    eexists. split; [vm_compute; reflexivity|]. repeat split.
Qed.

(** C4 at the projects [{1,a},{2,b}] and the repositories [c] and [b]: in
    whatever order the project map is visited, the name [c] resolves to
    nothing, the error is reported, and the walker then asks for the commits
    of project 0 before it turns to [b]. *)
Theorem fetchCommits_unresolved_fetches :
  (forall (O : RangeOrder) n,
     @mapkey O n (build_projects two_projects) (runes "c") = (0, false)) /\
  forall (O : RangeOrder) fuel,
    @fetchCommits O (started small_client [runes "c"; runes "b"]) (S fuel) =
    (Return None,
     [EvAddError ErrValueNotInMap;
      EvListCommits 0 0 100;
      EvAddError (ErrListProject (runes "c") "404 Project Not Found");
      EvListCommits 2 0 100;
      EvAddFields (commit_metric blank_commit)]).
Proof.
  split.
  - intros O n. rewrite (mapkey_distinct O listed_order n 0) by apply two_projects_distinct.
    vm_compute. reflexivity.
  - intros O fuel.
    rewrite (fetchCommits_distinct O listed_order) by apply two_projects_distinct.
    vm_compute. reflexivity.
Qed.

Lemma apply_ops_app w a b h :
  apply_ops w (a ++ b) h = apply_ops w a h ≫= apply_ops w b.
Proof.
  revert h. induction a as [|o a IH]; intros h; [reflexivity|].
  cbn [app apply_ops]. destruct (apply_op w o h) as [h'|]; [apply IH | reflexivity].
Qed.

Lemma Stop_nil_cancel h : cancel h = None -> Stop h = (h, StopPanics).
Proof. intros Hc. unfold Stop, Stop_cancel. by rewrite Hc. Qed.

Lemma apply_ops_keeps_nil w ops : forall h0 h,
  Forall (fun o => o <> OpStart) ops ->
  cancel h0 = None -> wg h0 = None ->
  apply_ops w ops h0 = Some h -> cancel h = None /\ wg h = None.
Proof.
  induction ops as [|o ops IH]; intros h0 h Hops Hc Hw Hrun.
  - injection Hrun as <-. by split.
  - inversion Hops as [|? ? Ho Hops']; subst. cbn [apply_ops] in Hrun.
    destruct o; cbn [apply_op] in Hrun; try done.
    + by apply (IH h0).
    + by apply (IH h0).
    + by apply (IH h0).
    + rewrite (Stop_nil_cancel h0 Hc) in Hrun. discriminate.
Qed.

(** C10. On every collector whose [h.cancel] and [h.wg] are nil, as they are
    on the collector the factory builds and on one that has only had its
    settings read, and after any calls other than [Start], [h.cancel] and
    [h.wg] are still nil and [Stop] panics at [h.cancel()]; a nil [h.wg]
    would panic at [Wait] as well.  [Start] sets both before anything else
    can make it return. *)
Theorem Stop_before_Start_panics (w : World) (ops : list op) (h0 : Gitlab) :
  cancel h0 = None -> wg h0 = None ->
  Forall (fun o => o <> OpStart) ops ->
  apply_ops w (ops ++ [OpStop]) h0 = None /\
  (forall h, apply_ops w ops h0 = Some h ->
     cancel h = None /\ wg h = None /\ Stop h = (h, StopPanics)) /\
  Stop_cancel h0 = None /\
  Stop_wait h0 = None /\
  (cancel Gitlab_zero = None /\ wg Gitlab_zero = None) /\
  (forall h, cancel (fst (Start w h)) = Some cancel_ctx /\ wg (fst (Start w h)) = Some 1).
Proof.
  intros Hc0 Hw0 Hops.
  assert (Hnil : forall h, apply_ops w ops h0 = Some h ->
            cancel h = None /\ wg h = None /\ Stop h = (h, StopPanics)).
  { intros h Hrun.
    destruct (apply_ops_keeps_nil w ops h0 h Hops Hc0 Hw0 Hrun) as [Hc Hw].
    split; [exact Hc|]. split; [exact Hw|]. by apply Stop_nil_cancel. }
  split; [|split; [exact Hnil|split; [|split; [|split; [by split|]]]]].
  - rewrite apply_ops_app. destruct (apply_ops w ops h0) as [h|] eqn:E; [|reflexivity].
    destruct (Hnil h eq_refl) as (_ & _ & Hstop). cbn. by rewrite Hstop.
  - unfold Stop_cancel. by rewrite Hc0.
  - unfold Stop_wait. by rewrite Hw0.
  - intros h. unfold Start.
    destruct (negb (url_Parse w _)); [by split|].
    destruct (fr_err _); [by split|].
    destruct (fr_resp _) as [resp|]; [|by split].
    destruct (negb (StatusCode resp =? 200)); by split.
Qed.

(** C10 on a configured collector, after [Gather] and [Description]. *)
Lemma Stop_before_Start_panics_witness :
  cancel configured = None /\ wg configured = None /\
  Forall (fun o => o <> OpStart) [OpGather; OpDescription] /\
  apply_ops (world_of small_client) ([OpGather; OpDescription] ++ [OpStop]) configured = None.
Proof.
  assert (Hops : Forall (fun o => o <> OpStart) [OpGather; OpDescription]).
  { apply List.Forall_cons; [discriminate|].
    apply List.Forall_cons; [discriminate | apply List.Forall_nil]. }
  split; [reflexivity|]. split; [reflexivity|]. split; [exact Hops|].
  exact (proj1 (Stop_before_Start_panics (world_of small_client) _ configured
                  eq_refl eq_refl Hops)).
Defined.

Section Claims.
Context `{UnicodeTables} `{RangeOrder}.

Lemma run_app a b s : run (a ++ b) s = run a s ≫= run b.
Proof.
  revert s. induction a as [|x a IH]; intros s; [reflexivity|].
  cbn [app run]. destruct (step x s) as [s'|]; [apply IH | reflexivity].
Qed.

Lemma step_mr_ignores_ctx s s' c :
  step_mr s = Some s' -> step_mr (set_ctx c s) = Some (set_ctx c s').
Proof.
  unfold step_mr. cbn [set_ctx st_mr st_h with_sync client projects].
  destruct (st_mr s) as [page|]; [|discriminate].
  destruct (client (st_h s)) as [cl|]; [|by intros [= <-]].
  destruct (mr_iter cl (projects (st_h s)) 100 page) as [[page'| |] evs].
  - by intros [= <-].
  - unfold wg_Done. cbn [wg with_sync].
    destruct (wg (st_h s)) as [n|]; [|by intros [= <-]].
    destruct (n - 1 <? 0); by intros [= <-].
  - by intros [= <-].
Qed.

Lemma step_cm_ignores_ctx s s' c :
  step_cm s = Some s' -> step_cm (set_ctx c s) = Some (set_ctx c s').
Proof.
  unfold step_cm. cbn [set_ctx st_cm st_h with_sync client projects].
  destruct (st_cm s) as [[|rep rest]|rep key page rest|]; [by intros [= <-]| | |discriminate].
  - destruct (resolve_repo (length rest) (projects (st_h s)) rep) as [key reported].
      by intros [= <-].
  - destruct (client (st_h s)) as [cl|]; [|by intros [= <-]].
    destruct (commits_iter cl rep key 100 page) as [[page'| |] evs]; by intros [= <-].
Qed.

Lemma step_keeps_wg_tracks a s s' : step a s = Some s' -> wg_tracks_mr s -> wg_tracks_mr s'.
Proof.
  unfold step. destruct (st_crashed s); [discriminate|].
  destruct a.
  - unfold step_mr, wg_tracks_mr.
    destruct (st_mr s) as [page|] eqn:Emr; [|discriminate].
    destruct (client (st_h s)) as [cl|].
    2:{ intros [= <-]. cbn. by rewrite Emr. }
    destruct (mr_iter cl (projects (st_h s)) 100 page) as [[page'| |] evs].
    + intros [= <-]. by cbn.
    + intros Hs [Hwg Hstop]. unfold wg_Done in Hs. rewrite Hwg in Hs. cbn in Hs.
      injection Hs as <-. reflexivity.
    + intros [= <-]. cbn. by rewrite Emr.
  - unfold step_cm, wg_tracks_mr.
    destruct (st_cm s) as [[|rep rest]|rep key page rest|]; [by intros [= <-]| | |discriminate].
    + destruct (resolve_repo (length rest) (projects (st_h s)) rep) as [key reported].
      by intros [= <-].
    + destruct (client (st_h s)) as [cl|]; [|by intros [= <-]].
      destruct (commits_iter cl rep key 100 page) as [[page'| |] evs]; by intros [= <-].
  - unfold step_stop, wg_tracks_mr, Stop_cancel, Stop_wait.
    destruct (st_stop s) eqn:Est; [| |discriminate].
    + destruct (cancel (st_h s)) as [[]|].
      * intros [= <-]. cbn. destruct (st_mr s); [|done]. intros [Hwg _]. by split.
      * intros [= <-]. cbn. by rewrite Est.
    + destruct (wg (st_h s)) as [n|] eqn:Ewg.
      * destruct (Z.eqb_spec n 0) as [->|Hn]; [|discriminate].
        intros [= <-]. cbn. rewrite Ewg. destruct (st_mr s); [|done]. by intros [[=] _].
      * intros [= <-]. cbn. rewrite Ewg, Est. done.
Qed.

Lemma run_keeps_wg_tracks sched : forall s s',
  run sched s = Some s' -> wg_tracks_mr s -> wg_tracks_mr s'.
Proof.
  induction sched as [|a sched IH]; intros s s' Hrun Hinv.
  - by injection Hrun as <-.
  - cbn [run] in Hrun. destruct (step a s) as [s1|] eqn:Es; [|discriminate].
    apply (IH s1 s' Hrun). by apply (step_keeps_wg_tracks a s).
Qed.

(** What the code does with the signal and the wait group.  A step of a
    walker is the same step whatever the cancellation signal says; [Stop]
    first fires the signal and changes nothing else; [Stop] has returned only
    in states where the merge-request walker has exited, and once that walker
    has exited a waiting [Stop] can return. *)
Lemma walkers_ignore_cancellation :
  (forall a s s' c, a <> Stopper -> step a s = Some s' ->
     step a (set_ctx c s) = Some (set_ctx c s')) /\
  (forall s, st_crashed s = false -> st_stop s = StopNotCalled ->
     cancel (st_h s) = Some cancel_ctx ->
     exists s', step Stopper s = Some s' /\ ctx (st_h s') = Some true /\
       st_stop s' = StopWaiting /\ st_mr s' = st_mr s /\ st_cm s' = st_cm s /\
       st_acc s' = st_acc s /\ wg (st_h s') = wg (st_h s)) /\
  (forall h sched s, wg h = Some 1 -> run sched (launched h) = Some s ->
     st_stop s = StopReturned -> st_mr s = MRExited) /\
  (forall h sched s, wg h = Some 1 -> run sched (launched h) = Some s ->
     st_crashed s = false -> st_stop s = StopWaiting -> st_mr s = MRExited ->
     exists s', step Stopper s = Some s' /\ st_stop s' = StopReturned).
Proof.
  split; [|split; [|split]].
  - intros a s s' c Ha. unfold step. cbn [set_ctx st_crashed].
    destruct (st_crashed s); [discriminate|].
    destruct a; [apply step_mr_ignores_ctx | apply step_cm_ignores_ctx | done].
  - intros s Hc Hst Hcancel. unfold step, step_stop, Stop_cancel.
    rewrite Hc, Hst, Hcancel. eexists. split; [reflexivity|]. by cbn.
  - intros h sched s Hwg Hrun Hst.
    assert (Hinv : wg_tracks_mr s).
    { apply (run_keeps_wg_tracks sched _ _ Hrun). unfold wg_tracks_mr. cbn. by split. }
    unfold wg_tracks_mr in Hinv. destruct (st_mr s); [|reflexivity].
    destruct Hinv as [_ Hne]. contradiction.
  - intros h sched s Hwg Hrun Hc Hst Hmr.
    assert (Hinv : wg_tracks_mr s).
    { apply (run_keeps_wg_tracks sched _ _ Hrun). unfold wg_tracks_mr. cbn. by split. }
    unfold wg_tracks_mr in Hinv. rewrite Hmr in Hinv.
    unfold step, step_stop, Stop_wait. rewrite Hc, Hst, Hinv. cbn.
    eexists. split; reflexivity.
Qed.

End Claims.

Lemma mr_fetches_app a b : mr_fetches (a ++ b) = mr_fetches a ++ mr_fetches b.
Proof. unfold mr_fetches. apply filter_app. Qed.

Lemma mr_fetches_AddFields {A} (f : A -> metric) items :
  mr_fetches (map (fun x => EvAddFields (f x)) items) = [].
Proof. induction items as [|x items IH]; [reflexivity|]. exact IH. Qed.

(** A turn of the merge-request goroutine on a full page: one more request,
    and the goroutine stays in its loop, whatever the signal says. *)
Lemma step_mr_full_page `{UnicodeTables} `{RangeOrder} s page cl :
  st_crashed s = false -> st_mr s = MRRun page -> client (st_h s) = Some cl ->
  fr_err (ListMergeRequests cl page 100) = None ->
  is_Some (fr_resp (ListMergeRequests cl page 100)) ->
  100 <= len (fr_items (ListMergeRequests cl page 100)) ->
  exists s', step MergeRequestWalker s = Some s' /\
    st_crashed s' = false /\ st_mr s' = MRRun (page + 1) /\ st_h s' = st_h s /\
    length (mr_fetches (st_acc s')) = S (length (mr_fetches (st_acc s))).
Proof.
  intros Hc Hmr Hcl Herr Hresp Hfull. unfold step, step_mr. rewrite Hc, Hmr, Hcl.
  rewrite (mr_iter_served cl (projects (st_h s)) 100 page Herr Hresp). unfold turn_on.
  destruct (Z.ltb_spec (len (fr_items (ListMergeRequests cl page 100))) 100); [lia|].
  eexists. split; [reflexivity|]. cbn [st_crashed st_mr st_h st_acc].
  repeat split.
  change (ask_mrs 100 page :: ?l) with ([ask_mrs 100 page] ++ l).
  rewrite !mr_fetches_app, mr_fetches_AddFields, !length_app.
  change (mr_fetches [ask_mrs 100 page]) with [ask_mrs 100 page]. cbn [length]. lia.
Qed.

Lemma endless_client_full page :
  fr_err (ListMergeRequests endless_client page 100) = None /\
  is_Some (fr_resp (ListMergeRequests endless_client page 100)) /\
  100 <= len (fr_items (ListMergeRequests endless_client page 100)).
Proof.
  split; [reflexivity|]. split; [by eexists|].
  cbn [endless_client ListMergeRequests fr_items]. unfold len. rewrite length_replicate. lia.
Qed.

Lemma endless_client_two_turns (U : UnicodeTables) (O : RangeOrder) :
  exists s2,
    @run U O [MergeRequestWalker; MergeRequestWalker]
      (after_stop_request (started endless_client [])) = Some s2 /\
    length (mr_fetches (st_acc s2)) = 2%nat /\ st_mr s2 = MRRun 2.
Proof.
  destruct (endless_client_full 0) as (He0 & Hr0 & Hf0).
  destruct (@step_mr_full_page U O
              (after_stop_request (started endless_client [])) 0 endless_client
              eq_refl eq_refl eq_refl He0 Hr0 Hf0) as (sa & Hsa & Hca & Hma & Hha & Hna).
  destruct (endless_client_full (0 + 1)) as (He1 & Hr1 & Hf1).
  assert (Hcla : client (st_h sa) = Some endless_client) by (by rewrite Hha).
  destruct (@step_mr_full_page U O sa (0 + 1) endless_client
              Hca Hma Hcla He1 Hr1 Hf1) as (sb & Hsb & Hcb & Hmb & Hhb & Hnb).
  exists sb. cbn [run]. rewrite Hsa. cbn [mbind option_bind]. rewrite Hsb.
  split; [reflexivity|]. split; [|exact Hmb].
  rewrite Hnb, Hna. reflexivity.
Qed.

(** C2 at two inputs, for every case table and every order of the project
    map.  With no merge requests and one commit in each of the projects [a]
    and [b]: [Stop] fires the signal before anything has been asked; the
    merge-request walker then asks for its page and exits; [Stop] returns
    while the commit walker has not started on its first repository; after
    that the commit walker asks for a page of [a] and a page of [b] and
    emits their commits.  Against a server whose merge-request pages are all
    full, the merge-request walker asks for two pages after the signal and
    is still in its loop, so that the cancellation property, as the
    specification words it, does not hold. *)
Theorem Stop_leaves_walkers_running (U : UnicodeTables) (O : RangeOrder) :
  (exists s1,
     @run U O [Stopper] (launched (started one_commit_client [runes "a"; runes "b"])) = Some s1 /\
     ctx (st_h s1) = Some true /\ st_stop s1 = StopWaiting /\ st_acc s1 = []) /\
  (exists s2,
     @run U O [Stopper; MergeRequestWalker; Stopper]
       (launched (started one_commit_client [runes "a"; runes "b"])) = Some s2 /\
     ctx (st_h s2) = Some true /\ st_stop s2 = StopReturned /\
     st_mr s2 = MRExited /\ st_cm s2 = CMRange [runes "a"; runes "b"] /\
     st_acc s2 = [EvListMergeRequests 0 100]) /\
  (exists s3,
     @run U O ([Stopper; MergeRequestWalker; Stopper] ++ replicate 5 CommitWalker)
       (launched (started one_commit_client [runes "a"; runes "b"])) = Some s3 /\
     st_stop s3 = StopReturned /\ st_cm s3 = CMExited /\ st_crashed s3 = false /\
     st_acc s3 =
       [EvListMergeRequests 0 100;
        EvListCommits 1 0 100; EvAddFields (commit_metric blank_commit);
        EvListCommits 2 0 100; EvAddFields (commit_metric blank_commit)]) /\
  (exists s4,
     @run U O [Stopper; MergeRequestWalker; MergeRequestWalker]
       (launched (started endless_client [])) = Some s4 /\
     length (mr_fetches (st_acc s4)) = 2%nat /\ st_mr s4 = MRRun 2) /\
  ~ @stops_after_current_page U O.
Proof.
  assert (Hd : distinct_names
                 (projects (st_h (launched (started one_commit_client [runes "a"; runes "b"])))))
    by apply two_projects_distinct.
  destruct (endless_client_two_turns U O) as (s4 & H4 & Hn4 & Hm4).
  split; [|split; [|split; [|split]]].
  - eexists. split; [reflexivity|]. repeat split.
  - rewrite (run_distinct U O listed_order _ _ Hd).
    eexists. split; [vm_compute; reflexivity|]. repeat split.
  - rewrite (run_distinct U O listed_order _ _ Hd).
    eexists. split; [vm_compute; reflexivity|]. repeat split.
  - exists s4. split; [exact H4|]. by split.
  - intros Hclaim.
    specialize (Hclaim (started endless_client []) [Stopper]
                  (after_stop_request (started endless_client []))
                  [MergeRequestWalker; MergeRequestWalker] s4 eq_refl eq_refl H4).
    rewrite Hn4 in Hclaim. cbn in Hclaim. lia.
Qed.

Lemma two_page_client_bounded page :
  fr_err (ListMergeRequests two_page_client page 100) = None /\
  len (fr_items (ListMergeRequests two_page_client page 100)) <= 100.
Proof.
  split; [reflexivity|].
  unfold two_page_client, source_client, serve, page_of.
  cbn [ListMergeRequests fr_items]. unfold len. rewrite length_take. lia.
Qed.

(** C9 on a server with 101 merge requests. *)
Lemma goto_loop_equivalent_witness :
  (forall page,
     fr_err (ListMergeRequests two_page_client page 100) = None /\
     len (fr_items (ListMergeRequests two_page_client page 100)) <= 100) /\
  fst (Early.getmr two_page_client ∅ 5 0) =
  fst (@mr_loop caseless_tables two_page_client ∅ 100 5 0).
Proof.
  split; [exact two_page_client_bounded|].
  exact (proj1 (proj1 (@goto_loop_equivalent caseless_tables two_page_client ∅ ∅ 5
                         two_page_client_bounded) 0)).
Defined.

Lemma ticket_token_ABC : ticket_token (runes "ABC-1234").
Proof.
  exists (runes "ABC"), dash, (runes "1234").
  split; [reflexivity|]. split; [discriminate|].
  split; [repeat (apply List.Forall_cons; [reflexivity|]); apply List.Forall_nil|].
  split; [reflexivity|].
  split; [repeat (apply List.Forall_cons; [reflexivity|]); apply List.Forall_nil|].
  cbn. lia.
Qed.

(** C6, amended, at [Fix ABC-1234: bug]. *)
Lemma findTicketID_leftmost_token_witness :
  occurs_at (runes "Fix ") (runes "ABC-1234") (runes "Fix ABC-1234: bug") /\
  ticket_token (runes "ABC-1234") /\
  exists pre,
    occurs_at pre (findTicketID (runes "Fix ABC-1234: bug")) (runes "Fix ABC-1234: bug") /\
    ticket_token (findTicketID (runes "Fix ABC-1234: bug")).
Proof.
  assert (Ho : occurs_at (runes "Fix ") (runes "ABC-1234") (runes "Fix ABC-1234: bug"))
    by (exists (runes ": bug"); reflexivity).
  split; [exact Ho|]. split; [exact ticket_token_ABC|].
  destruct (proj1 (proj2 (findTicketID_leftmost_token (runes "Fix ABC-1234: bug")))
              (runes "Fix ") (runes "ABC-1234") Ho ticket_token_ABC)
    as (pre & Hpre & Htok & _).
  exists pre. split; [exact Hpre | exact Htok].
Defined.

Lemma type_token_feature : type_token (runes "feature/ABC-123").
Proof.
  exists (runes "feature"), slash, (runes "ABC"), dash, (runes "123").
  split; [reflexivity|]. split; [discriminate|].
  split; [repeat (apply List.Forall_cons; [reflexivity|]); apply List.Forall_nil|].
  split; [reflexivity|]. split; [discriminate|].
  split; [repeat (apply List.Forall_cons; [reflexivity|]); apply List.Forall_nil|].
  split; [reflexivity|].
  split; [repeat (apply List.Forall_cons; [reflexivity|]); apply List.Forall_nil|].
  cbn. lia.
Qed.

(** C7, amended, at [feature/ABC-123: add login]. *)
Lemma getMRType_leading_token_witness :
  occurs_at [] (runes "feature/ABC-123") (runes "feature/ABC-123: add login") /\
  type_token (runes "feature/ABC-123") /\
  exists m,
    occurs_at [] m (runes "feature/ABC-123: add login") /\ type_token m /\
    @getMRType caseless_tables (runes "feature/ABC-123: add login") =
    Some (first_segment (@formatTicketID caseless_tables m)).
Proof.
  assert (Ho : occurs_at [] (runes "feature/ABC-123") (runes "feature/ABC-123: add login"))
    by (exists (runes ": add login"); reflexivity).
  split; [exact Ho|]. split; [exact type_token_feature|].
  destruct (proj1 (proj2 (proj2 (@getMRType_leading_token caseless_tables
                                   (runes "feature/ABC-123: add login"))))
              (runes "feature/ABC-123") Ho type_token_feature)
    as (m & Hm & Htok & _ & Hget & _).
  exists m. split; [exact Hm|]. split; [exact Htok | exact Hget].
Defined.

(** X1. In whatever order [range] visits the map, [mapkey] answers [ok]
    exactly when some project has the name; then the key it returns is one
    of a project with that name, and otherwise the key is 0. *)
Theorem mapkey_any_order (m : gmap Z gostring) (entries : list (Z * gostring))
    (value : gostring) :
  entries ≡ₚ map_to_list m ->
  (snd (mapkey_range entries value) = true <-> exists k, m !! k = Some value) /\
  (snd (mapkey_range entries value) = true ->
     m !! fst (mapkey_range entries value) = Some value) /\
  (snd (mapkey_range entries value) = false -> fst (mapkey_range entries value) = 0).
Proof.
  intros Hperm.
  destruct (mapkey_range_cases m entries value Hperm) as [(k & -> & Hk)|[-> Hno]];
    cbn [fst snd].
  - split; [split; [by exists k | reflexivity]|]. split; [by intros _ | discriminate].
  - split; [|split; [discriminate | reflexivity]].
    split; [discriminate|]. intros [k Hk]. by destruct (Hno k).
Qed.

(** X2. When at most one project has the name, the answer of [mapkey] does
    not depend on the order in which the map is visited: any two orders, and
    so any two calls, give the same key and the same [ok]. *)
Theorem mapkey_order_irrelevant (O : RangeOrder) (n : nat) (m : gmap Z gostring)
    (entries : list (Z * gostring)) (value : gostring) :
  entries ≡ₚ map_to_list m ->
  (forall k k', m !! k = Some value -> m !! k' = Some value -> k = k') ->
  mapkey_range entries value = @mapkey O n m value.
Proof.
  intros Hperm Huniq. unfold mapkey.
  destruct (mapkey_range_cases m entries value Hperm) as [(k & -> & Hk)|[-> Hno]];
    destruct (mapkey_range_cases m (range_order n m) value (range_order_perm n m))
      as [(k' & -> & Hk')|[-> Hno']].
  - f_equal. by apply Huniq.
  - by destruct (Hno' k).
  - by destruct (Hno k').
  - reflexivity.
Qed.

(** X1 at the projects [{1,a},{2,b}] and the name [b]. *)
Lemma mapkey_any_order_witness :
  map_to_list (build_projects two_projects) ≡ₚ map_to_list (build_projects two_projects) /\
  (snd (mapkey_range (map_to_list (build_projects two_projects)) (runes "b")) = true <->
   exists k, build_projects two_projects !! k = Some (runes "b")) /\
  mapkey_range (map_to_list (build_projects two_projects)) (runes "b") = (2, true).
Proof.
  split; [reflexivity|].
  split; [|vm_compute; reflexivity].
  exact (proj1 (mapkey_any_order (build_projects two_projects)
                  (map_to_list (build_projects two_projects)) (runes "b")
                  (Permutation_refl _))).
Defined.

(** X2 at the projects [{1,a},{2,b}], visited in reverse. *)
Lemma mapkey_order_irrelevant_witness :
  rev (map_to_list (build_projects two_projects)) ≡ₚ map_to_list (build_projects two_projects) /\
  (forall k k', build_projects two_projects !! k = Some (runes "b") ->
                build_projects two_projects !! k' = Some (runes "b") -> k = k') /\
  mapkey_range (rev (map_to_list (build_projects two_projects))) (runes "b") =
  @mapkey listed_order 0 (build_projects two_projects) (runes "b").
Proof.
  assert (Hperm : rev (map_to_list (build_projects two_projects))
                  ≡ₚ map_to_list (build_projects two_projects)).
  { symmetry. apply Permutation_rev. }
  assert (Huniq : forall k k', build_projects two_projects !! k = Some (runes "b") ->
                    build_projects two_projects !! k' = Some (runes "b") -> k = k').
  { intros k k' Hk Hk'.
    destruct (two_projects_lookup _ _ Hk) as [[_ [=]]|[-> _]].
    destruct (two_projects_lookup _ _ Hk') as [[_ [=]]|[-> _]]. reflexivity. }
  split; [exact Hperm|]. split; [exact Huniq|].
  exact (mapkey_order_irrelevant listed_order 0 _ _ _ Hperm Huniq).
Defined.

Lemma foldl_projects_lookup (ps : list Project.t) : forall (m0 : gmap Z gostring) (id : Z),
  foldl (fun m p => <[Project.ID p := Project.Name p]> m) m0 ps !! id =
  match last_with_id id ps with
  | Some p => Some (Project.Name p)
  | None => m0 !! id
  end.
Proof.
  unfold last_with_id.
  induction ps as [|p ps IH]; intros m0 id; [reflexivity|].
  cbn [foldl]. rewrite IH. rewrite filter_cons.
  destruct (decide (Project.ID p = id)) as [Hid|Hid].
  - destruct (filter (fun p0 => Project.ID p0 = id) ps) as [|q l] eqn:Ef.
    + cbn. rewrite <- Hid. apply lookup_insert_eq.
    + change (last (p :: q :: l)) with (last (q :: l)).
      destruct (last (q :: l)) eqn:El; [reflexivity|]. by apply last_None in El.
  - destruct (last (filter (fun p0 => Project.ID p0 = id) ps)); [reflexivity|].
    by apply lookup_insert_ne.
Qed.

Lemma build_projects_last (ps : list Project.t) (id : Z) :
  build_projects ps !! id = Project.Name <$> last_with_id id ps.
Proof.
  unfold build_projects. rewrite foldl_projects_lookup.
  destruct (last_with_id id ps); [reflexivity | apply lookup_empty].
Qed.

(** X3. The lookup [Start] builds maps an identifier to the name of the
    last listed project that carries it, and has no entry for an identifier
    no listed project carries; [h.projects[id]] is then the empty string. *)
Theorem build_projects_lookup (ps : list Project.t) (id : Z) :
  build_projects ps !! id = Project.Name <$> last_with_id id ps /\
  (last_with_id id ps = None <-> Forall (fun p => Project.ID p <> id) ps) /\
  (Forall (fun p => Project.ID p <> id) ps -> project_name (build_projects ps) id = []).
Proof.
  assert (Hlook : build_projects ps !! id = Project.Name <$> last_with_id id ps).
  { apply build_projects_last. }
  assert (Hnone : last_with_id id ps = None <-> Forall (fun p => Project.ID p <> id) ps).
  { unfold last_with_id. rewrite last_None. split.
    - intros Hf. apply Forall_forall. intros p Hp Hid.
      assert (Hin : p ∈ filter (fun p => Project.ID p = id) ps)
        by (apply list_elem_of_filter; by split).
      rewrite Hf in Hin. by apply elem_of_nil in Hin.
    - intros Hall. clear Hlook. induction Hall as [|p l Hp _ IH]; [reflexivity|].
      rewrite filter_cons. destruct (decide (Project.ID p = id)); [done | exact IH]. }
  split; [exact Hlook|]. split; [exact Hnone|].
  intros Hall. rewrite (proj2 Hnone Hall) in Hlook.
  exact (f_equal (default []) Hlook).
Qed.

(** X4. [Start] returns nil exactly when the endpoint parses, the project
    list comes back without error and with a response, and its status is
    200.  The collector then holds the client for its token and endpoint and
    a lookup of exactly the listed projects, the last listed name winning;
    whatever [h.projects] held before is gone. *)
Theorem Start_returns_nil (w : World) (h : Gitlab) :
  (snd (Start w h) = Return None <->
   url_Parse w (Endpoint h) = true /\
   fr_err (ListProjects (NewClient w (Token h) (Endpoint h))) = None /\
   exists resp, fr_resp (ListProjects (NewClient w (Token h) (Endpoint h))) = Some resp /\
                StatusCode resp = 200) /\
  (snd (Start w h) = Return None ->
   client (fst (Start w h)) = Some (NewClient w (Token h) (Endpoint h)) /\
   forall id,
     project_name (projects (fst (Start w h))) id =
     default [] (Project.Name <$>
                   last_with_id id (fr_items (ListProjects (NewClient w (Token h) (Endpoint h)))))).
Proof.
  unfold Start. cbn [with_sync with_client with_projects Endpoint Token].
  set (cl := NewClient w (Token h) (Endpoint h)).
  destruct (url_Parse w (Endpoint h)) eqn:Eurl; cbn [negb].
  2:{ split; [split; [discriminate | by intros [[=] _]] | discriminate]. }
  destruct (fr_err (ListProjects cl)) as [e|] eqn:Eerr.
  { split; [split; [discriminate | by intros (_ & [=] & _)] | discriminate]. }
  destruct (fr_resp (ListProjects cl)) as [resp|] eqn:Eresp.
  2:{ split; [split; [discriminate | by intros (_ & _ & ? & [=] & _)] | discriminate]. }
  destruct (Z.eqb_spec (StatusCode resp) 200) as [E200|E200]; cbn [negb fst snd].
  - split.
    + split; [intros _; repeat split; eauto | reflexivity].
    + intros _. split; [reflexivity|]. intros id. cbn [projects].
      unfold project_name.
      exact (f_equal (default []) (build_projects_last _ id)).
  - split; [split; [discriminate|] | discriminate].
    intros (_ & _ & resp' & [= <-] & E). contradiction.
Qed.

(** X5. A [Start] that returns an error has already set up the wait group
    with a count of one and has launched nothing that would count it down:
    a [Stop] after it fires the signal and then waits for ever. *)
Theorem Stop_after_failed_Start_blocks (w : World) (h : Gitlab) (e : plugin_error) :
  snd (Start w h) = Return (Some e) ->
  snd (Stop (fst (Start w h))) = StopBlocks /\
  wg (fst (Stop (fst (Start w h)))) = Some 1 /\
  ctx (fst (Stop (fst (Start w h)))) = Some true.
Proof.
  intros _.
  assert (Hset : cancel (fst (Start w h)) = Some cancel_ctx /\ wg (fst (Start w h)) = Some 1).
  { unfold Start.
    destruct (negb (url_Parse w _)); [by split|].
    destruct (fr_err _); [by split|].
    destruct (fr_resp _) as [resp|]; [|by split].
    destruct (negb (StatusCode resp =? 200)); by split. }
  destruct Hset as [Hc Hw].
  unfold Stop, Stop_cancel. rewrite Hc. unfold Stop_wait. cbn [wg with_sync].
  rewrite Hw. change (1 =? 0) with false. cbn [fst snd wg ctx with_sync].
  repeat split.
Qed.

(** X5 at an endpoint that does not parse. *)
Lemma Stop_after_failed_Start_blocks_witness :
  snd (Start (world_rejecting_url small_client) Gitlab_zero) =
    Return (Some (ErrInvalidURL [])) /\
  snd (Stop (fst (Start (world_rejecting_url small_client) Gitlab_zero))) = StopBlocks.
Proof.
  split; [reflexivity|].
  exact (proj1 (Stop_after_failed_Start_blocks (world_rejecting_url small_client)
                  Gitlab_zero (ErrInvalidURL []) eq_refl)).
Defined.

Lemma add_errors_app a b : add_errors (a ++ b) = add_errors a ++ add_errors b.
Proof. unfold add_errors. apply omap_app. Qed.

Lemma add_errors_AddFields {A} (f : A -> metric) items :
  add_errors (map (fun x => EvAddFields (f x)) items) = [].
Proof. induction items as [|x items IH]; [reflexivity|]. exact IH. Qed.

Lemma walk_trace_add_errors {A} ask (mk : A -> metric) pages :
  (forall page, add_errors [ask page] = []) ->
  forall page, add_errors (walk_trace ask mk page pages) = [].
Proof.
  intros Hask. induction pages as [|p pages IH]; intros page; [reflexivity|].
  cbn [walk_trace]. change (ask page :: ?l) with ([ask page] ++ l).
  rewrite !add_errors_app, Hask, add_errors_AddFields, IH. reflexivity.
Qed.

Lemma add_errors_ask_mrs pp page : add_errors [ask_mrs pp page] = [].
Proof. reflexivity. Qed.

Lemma add_errors_ask_commits pid pp page : add_errors [ask_commits pid pp page] = [].
Proof. reflexivity. Qed.

(** One turn of the commit loop on a call that failed, in full. *)
Lemma commits_iter_failed cl rep key pp page e :
  fr_err (ListCommits cl key page pp) = Some e ->
  commits_iter cl rep key pp page =
  (match fr_resp (ListCommits cl key page pp) with
   | None => Panic
   | Some _ =>
       if len (fr_items (ListCommits cl key page pp)) <? pp then Break
       else Continue (page + 1)
   end,
   EvListCommits key page pp :: EvAddError (ErrListProject rep e) ::
     map (fun c => EvAddFields (commit_metric c)) (fr_items (ListCommits cl key page pp))).
Proof.
  intros Herr. unfold commits_iter. rewrite Herr.
  rewrite (range_AddFields_total _ commit_metric) by reflexivity. cbn [negb].
  destruct (fr_resp (ListCommits cl key page pp)); [|reflexivity].
  destruct (len (fr_items (ListCommits cl key page pp)) <? pp); reflexivity.
Qed.

Section Extras.
Context `{UnicodeTables} `{RangeOrder}.

(** X6. When the call for page [k] fails after [k] full pages, the
    merge-request loop returns with the metrics of those [k] pages emitted
    and the error reported once, last; it asks for no page after [k]. *)
Theorem mr_loop_error_after_pages (cl : Client) (projects : gmap Z gostring) (pp : Z)
    (full : list (list MergeRequest.t)) (e : string) (fuel : nat) :
  serves_mrs cl pp full ->
  Forall (fun p => pp <= len p) full ->
  fr_err (ListMergeRequests cl (len full) pp) = Some e ->
  (length full < fuel)%nat ->
  mr_loop cl projects pp fuel 0 =
    (Return None,
     walk_trace (ask_mrs pp) (mr_record projects) 0 full ++
       [EvListMergeRequests (len full) pp; EvAddError (ErrListMergeRequests e)]) /\
  metrics (snd (mr_loop cl projects pp fuel 0)) = map (mr_record projects) (concat full) /\
  add_errors (snd (mr_loop cl projects pp fuel 0)) = [ErrListMergeRequests e] /\
  fetches (snd (mr_loop cl projects pp fuel 0)) = requests (ask_mrs pp) 0 (S (length full)).
Proof.
  intros Hs Hfull Herr Hfuel.
  assert (Hrun : mr_loop cl projects pp fuel 0 =
    (Return None,
     walk_trace (ask_mrs pp) (mr_record projects) 0 full ++
       [EvListMergeRequests (len full) pp; EvAddError (ErrListMergeRequests e)])).
  { rewrite mr_loop_shape.
    replace fuel with (length full + S (fuel - length full - 1))%nat by lia.
    change 0 with (Z.of_nat 0).
    apply (pagination_loop_full _ _ _ pp full 0 (serves_mrs_turns cl projects pp full Hs) Hfull).
    cbn [pagination_loop Nat.add]. fold (len full).
    rewrite (mr_iter_error cl projects pp (len full) e Herr). reflexivity. }
  rewrite Hrun. cbn [snd]. split; [reflexivity|].
  rewrite metrics_app, add_errors_app, fetches_app.
  rewrite (walk_trace_metrics _ _ _ (metrics_ask_mrs pp)).
  rewrite (walk_trace_add_errors _ _ _ (add_errors_ask_mrs pp)).
  rewrite (walk_trace_fetches _ _ _ (fetches_ask_mrs pp)).
  split; [apply app_nil_r|]. split; [reflexivity|].
  change (fetches [EvListMergeRequests (len full) pp; EvAddError (ErrListMergeRequests e)])
    with [ask_mrs pp (len full)].
  unfold requests. rewrite seq_S, map_app. cbn [map Nat.add]. unfold len.
  do 2 f_equal; lia.
Qed.

End Extras.

(** X7. When the call for page [k] of a repository's commits fails after [k]
    full pages, the commit loop has emitted the metrics of those pages and
    reports the error.  It then panics if the call returned no response; if
    it returned one and fewer items than a page, the loop returns, and it
    has asked for no page after [k]. *)
Theorem commits_loop_error_after_pages (cl : Client) (rep : gostring) (key pp : Z)
    (full : list (list Commit.t)) (e : string) (fuel : nat) :
  serves_commits cl key pp full ->
  Forall (fun p => pp <= len p) full ->
  fr_err (ListCommits cl key (len full) pp) = Some e ->
  (length full < fuel)%nat ->
  (fr_resp (ListCommits cl key (len full) pp) = None ->
   commits_loop cl rep key pp fuel 0 =
     (Panicked,
      walk_trace (ask_commits key pp) commit_metric 0 full ++
        EvListCommits key (len full) pp :: EvAddError (ErrListProject rep e) ::
          map (fun c => EvAddFields (commit_metric c))
            (fr_items (ListCommits cl key (len full) pp)))) /\
  (is_Some (fr_resp (ListCommits cl key (len full) pp)) ->
   len (fr_items (ListCommits cl key (len full) pp)) < pp ->
   commits_loop cl rep key pp fuel 0 =
     (Return None,
      walk_trace (ask_commits key pp) commit_metric 0 full ++
        EvListCommits key (len full) pp :: EvAddError (ErrListProject rep e) ::
          map (fun c => EvAddFields (commit_metric c))
            (fr_items (ListCommits cl key (len full) pp)))).
Proof.
  intros Hs Hfull Herr Hfuel.
  assert (Hshape : forall o t,
    pagination_loop (commits_iter cl rep key pp) (S (fuel - length full - 1))
      (Z.of_nat (0 + length full)) = (o, t) ->
    commits_loop cl rep key pp fuel 0 =
      (o, walk_trace (ask_commits key pp) commit_metric 0 full ++ t)).
  { intros o t Hrest. rewrite commits_loop_shape.
    replace fuel with (length full + S (fuel - length full - 1))%nat at 1 by lia.
    change 0 with (Z.of_nat 0) at 1 2.
    exact (pagination_loop_full _ _ _ pp full 0
             (serves_commits_turns cl rep key pp full Hs) Hfull _ o t Hrest). }
  split.
  - intros Hnil. apply Hshape. cbn [pagination_loop Nat.add]. fold (len full).
    rewrite (commits_iter_failed cl rep key pp (len full) e Herr), Hnil. reflexivity.
  - intros [rs Hrs] Hshort. apply Hshape. cbn [pagination_loop Nat.add]. fold (len full).
    rewrite (commits_iter_failed cl rep key pp (len full) e Herr), Hrs.
    destruct (Z.ltb_spec (len (fr_items (ListCommits cl key (len full) pp))) pp); [|lia].
    reflexivity.
Qed.

(** X8. When every configured name is the name of exactly one project and
    the server holds, for each of these projects, pages that end in a short
    one, then in whatever order the project map is visited [fetchCommits]
    returns after walking the repositories in the configured order, each
    one's pages in order; it emits one metric per commit and reports no
    error. *)
Theorem fetchCommits_all_resolved (O : RangeOrder) (h : Gitlab) (cl : Client)
    (plan : list repo_run)
    (fuel : nat) :
  client h = Some cl ->
  Repos h = map rr_name plan ->
  Forall (fun r =>
            projects h !! rr_key r = Some (rr_name r) /\
            (forall k, projects h !! k = Some (rr_name r) -> k = rr_key r) /\
            serves_commits cl (rr_key r) 100 (rr_pages r) /\
            ends_short 100 (rr_pages r) /\
            (length (rr_pages r) <= fuel)%nat) plan ->
  fetchCommits h fuel = (Return None, concat (map repo_trace plan)) /\
  metrics (concat (map repo_trace plan)) =
    map commit_metric (concat (concat (map rr_pages plan))) /\
  add_errors (concat (map repo_trace plan)) = [].
Proof.
  intros Hcl Hrepos Hplan.
  assert (Hrange : commits_range cl (projects h) fuel (map rr_name plan) =
                   (Return None, concat (map repo_trace plan))).
  { clear Hrepos.
    induction Hplan as [|r plan (Hname & Huniq & Hs & Hshort & Hfuel) _ IH]; [reflexivity|].
    cbn [map commits_range concat]. unfold resolve_repo.
    rewrite (mapkey_unique _ _ _ _ Hname Huniq).
    rewrite commits_loop_shape.
    rewrite (pagination_loop_walk _ _ _ 100 (rr_pages r) fuel
               (serves_commits_turns cl (rr_name r) (rr_key r) 100 (rr_pages r) Hs)
               Hshort Hfuel).
    rewrite IH. reflexivity. }
  split; [|split].
  - unfold fetchCommits. rewrite Hcl, Hrepos.
    destruct plan as [|r plan]; [reflexivity | exact Hrange].
  - clear. induction plan as [|r plan IH]; [reflexivity|].
    cbn [map concat]. rewrite metrics_app, IH, concat_app, map_app. f_equal.
    apply (walk_trace_metrics _ _ _ (metrics_ask_commits (rr_key r) 100)).
  - clear. induction plan as [|r plan IH]; [reflexivity|].
    cbn [map concat]. rewrite add_errors_app, IH, app_nil_r.
    apply (walk_trace_add_errors _ _ _ (add_errors_ask_commits (rr_key r) 100)).
Qed.

Lemma failing_client_serves_mrs : serves_mrs failing_client 100 three_full_pages.
Proof.
  intros i p Hp. destruct i as [|[|[|i]]]; cbn in Hp; [| | |discriminate];
    injection Hp as <-; (split; [reflexivity|]; split; [reflexivity | by eexists]).
Qed.

Lemma three_full_pages_full : Forall (fun p => 100 <= len p) three_full_pages.
Proof.
  repeat (apply List.Forall_cons; [vm_compute; discriminate|]). apply List.Forall_nil.
Qed.

(** X6 at a server that fails on the fourth call, after three full pages. *)
Lemma mr_loop_error_after_pages_witness :
  serves_mrs failing_client 100 three_full_pages /\
  Forall (fun p => 100 <= len p) three_full_pages /\
  fr_err (ListMergeRequests failing_client (len three_full_pages) 100) =
    Some "500 Internal Server Error"%string /\
  (length three_full_pages < 5)%nat /\
  add_errors (snd (@mr_loop caseless_tables failing_client ∅ 100 5 0)) =
    [ErrListMergeRequests "500 Internal Server Error"].
Proof.
  split; [exact failing_client_serves_mrs|]. split; [exact three_full_pages_full|].
  split; [reflexivity|]. split; [vm_compute; lia|].
  exact (proj1 (proj2 (proj2 (@mr_loop_error_after_pages caseless_tables failing_client ∅ 100
                                three_full_pages "500 Internal Server Error" 5
                                failing_client_serves_mrs three_full_pages_full eq_refl
                                ltac:(vm_compute; lia))))).
Defined.

Lemma failing_client_serves_commits : serves_commits failing_client 7 100 one_full_page.
Proof.
  intros i p Hp. destruct i as [|i]; cbn in Hp; [|discriminate].
  injection Hp as <-. split; [reflexivity|]. split; [reflexivity | by eexists].
Qed.

Lemma one_full_page_full : Forall (fun p => 100 <= len p) one_full_page.
Proof.
  apply List.Forall_cons; [vm_compute; discriminate | apply List.Forall_nil].
Qed.

(** X7 at a server that fails on the second call for commits. *)
Lemma commits_loop_error_after_pages_witness :
  serves_commits failing_client 7 100 one_full_page /\
  Forall (fun p => 100 <= len p) one_full_page /\
  fr_err (ListCommits failing_client 7 (len one_full_page) 100) =
    Some "500 Internal Server Error"%string /\
  (length one_full_page < 3)%nat /\
  fst (commits_loop failing_client (runes "a") 7 100 3 0) = Return None.
Proof.
  split; [exact failing_client_serves_commits|]. split; [exact one_full_page_full|].
  split; [reflexivity|]. split; [vm_compute; lia|].
  exact (f_equal fst
           (proj2 (commits_loop_error_after_pages failing_client (runes "a") 7 100
                     one_full_page "500 Internal Server Error" 3
                     failing_client_serves_commits one_full_page_full eq_refl
                     ltac:(vm_compute; lia))
              ltac:(by eexists) ltac:(vm_compute; reflexivity))).
Defined.

Lemma plan_b_resolves :
  Forall (fun r =>
            projects (started small_client [runes "b"]) !! rr_key r = Some (rr_name r) /\
            (forall k, projects (started small_client [runes "b"]) !! k = Some (rr_name r) ->
                       k = rr_key r) /\
            serves_commits small_client (rr_key r) 100 (rr_pages r) /\
            ends_short 100 (rr_pages r) /\
            (length (rr_pages r) <= 1)%nat) plan_b.
Proof.
  apply List.Forall_cons; [|apply List.Forall_nil].
  split; [vm_compute; reflexivity|].
  split.
  { intros k Hk. cbn [projects started rr_name plan_b] in Hk.
    destruct (two_projects_lookup _ _ Hk) as [[_ [=]]|[-> _]]. reflexivity. }
  split; [|split; [|cbn; lia]].
  - intros i p Hp. destruct i as [|i]; cbn in Hp; [|discriminate].
    injection Hp as <-. split; [reflexivity|]. split; [reflexivity | by eexists].
  - exists [], [blank_commit]. split; [reflexivity|].
    split; [apply List.Forall_nil | vm_compute; reflexivity].
Qed.

(** X8 at the repository [b] with one commit. *)
Lemma fetchCommits_all_resolved_witness :
  client (started small_client [runes "b"]) = Some small_client /\
  Repos (started small_client [runes "b"]) = map rr_name plan_b /\
  @fetchCommits listed_order (started small_client [runes "b"]) 1 =
    (Return None, concat (map repo_trace plan_b)).
Proof.
  split; [reflexivity|]. split; [reflexivity|].
  exact (proj1 (fetchCommits_all_resolved listed_order (started small_client [runes "b"]) small_client
                  plan_b 1 eq_refl eq_refl plan_b_resolves)).
Defined.

Lemma range_AddFields_no_mr_fetch {A} (mk : A -> option metric) items :
  mr_fetches (snd (range_AddFields mk items)) = [].
Proof.
  induction items as [|x items IH]; [reflexivity|].
  cbn [range_AddFields]. destruct (mk x) as [m|]; [|reflexivity].
  destruct (range_AddFields mk items) as [ok evs]. exact IH.
Qed.

Lemma commits_iter_no_mr_fetch cl rep key pp page :
  mr_fetches (snd (commits_iter cl rep key pp page)) = [].
Proof.
  unfold commits_iter.
  pose proof (range_AddFields_no_mr_fetch (fun c => Some (commit_metric c))
                (fr_items (ListCommits cl key page pp))) as Hr.
  destruct (range_AddFields _ (fr_items (ListCommits cl key page pp))) as [ok evs].
  cbn [snd] in Hr.
  assert (Hall : mr_fetches
            ([EvListCommits key page pp] ++
             match fr_err (ListCommits cl key page pp) with
             | Some e => [EvAddError (ErrListProject rep e)]
             | None => []
             end ++ evs) = []).
  { rewrite !mr_fetches_app, Hr. by destruct (fr_err (ListCommits cl key page pp)). }
  destruct (negb ok); [exact Hall|].
  destruct (fr_resp (ListCommits cl key page pp)); [|exact Hall].
  destruct (len (fr_items (ListCommits cl key page pp)) <? pp); exact Hall.
Qed.

Lemma resolve_repo_no_mr_fetch `{RangeOrder} n projects rep :
  mr_fetches (snd (resolve_repo n projects rep)) = [].
Proof. unfold resolve_repo. by destruct (mapkey n projects rep) as [k []]. Qed.

Lemma requests_snoc ask first n :
  requests ask first n ++ [ask (first + Z.of_nat n)] = requests ask first (S n).
Proof. unfold requests. by rewrite seq_S, map_app. Qed.

Section Extras.
Context `{UnicodeTables} `{RangeOrder}.

(** A turn of the merge-request loop asks once, first, for its own page, and
    goes on to the next page if it goes on at all. *)
Lemma mr_iter_asks_once cl projects pp page :
  mr_fetches (snd (mr_iter cl projects pp page)) = [ask_mrs pp page] /\
  forall page', fst (mr_iter cl projects pp page) = Continue page' -> page' = page + 1.
Proof.
  unfold mr_iter. destruct (fr_err (ListMergeRequests cl page pp)) as [e|].
  { split; [reflexivity | discriminate]. }
  pose proof (range_AddFields_no_mr_fetch (mr_metric projects)
                (fr_items (ListMergeRequests cl page pp))) as Hr.
  destruct (range_AddFields _ (fr_items (ListMergeRequests cl page pp))) as [ok evs].
  cbn [snd] in Hr.
  assert (Hall : mr_fetches ([EvListMergeRequests page pp] ++ evs) = [ask_mrs pp page])
    by (by rewrite mr_fetches_app, Hr).
  destruct (negb ok); [split; [exact Hall | discriminate]|].
  destruct (fr_resp (ListMergeRequests cl page pp)); [|split; [exact Hall | discriminate]].
  destruct (len (fr_items (ListMergeRequests cl page pp)) <? pp);
    (split; [exact Hall|]); [discriminate | by intros page' [= <-]].
Qed.

Lemma step_keeps_pages_in_order a s s' :
  step a s = Some s' -> mr_pages_in_order s -> mr_pages_in_order s'.
Proof.
  unfold step. destruct (st_crashed s) eqn:Ec; [discriminate|].
  intros Hstep (n & Hacc & Hpage). specialize (Hpage Ec).
  destruct a.
  - unfold step_mr in Hstep. destruct (st_mr s) as [page|] eqn:Emr; [|discriminate].
    specialize (Hpage page eq_refl). subst page.
    destruct (client (st_h s)) as [cl|].
    2:{ injection Hstep as <-. exists n. split; [by cbn; rewrite app_nil_r | discriminate]. }
    destruct (mr_iter_asks_once cl (projects (st_h s)) 100 (Z.of_nat n)) as [Hask Hnext].
    destruct (mr_iter cl (projects (st_h s)) 100 (Z.of_nat n)) as [r evs].
    cbn [fst snd] in Hask, Hnext.
    assert (Hacc' : mr_fetches (st_acc s ++ evs) = requests (ask_mrs 100) 0 (S n)).
    { rewrite mr_fetches_app, Hacc, Hask, <- requests_snoc. reflexivity. }
    destruct r as [page'| |].
    + injection Hstep as <-. exists (S n). cbn. split; [exact Hacc'|].
      intros _ p [= <-]. rewrite (Hnext page' eq_refl). lia.
    + destruct (wg_Done (st_h s)); injection Hstep as <-; exists (S n);
        (split; [exact Hacc' | cbn; discriminate]).
    + injection Hstep as <-. exists (S n). split; [exact Hacc' | discriminate].
  - assert (Hsame : forall g evs c,
              mr_fetches evs = [] ->
              mr_pages_in_order
                {| st_h := st_h s; st_mr := st_mr s; st_cm := g; st_stop := st_stop s;
                   st_acc := st_acc s ++ evs; st_crashed := c |}).
    { intros g evs c Hevs. exists n. cbn. rewrite mr_fetches_app, Hevs, app_nil_r.
      split; [exact Hacc|]. intros _ p Hp.
      destruct (st_mr s) eqn:Emr; [|discriminate]. injection Hp as <-.
      unfold mr_pages_in_order in *. 
      match goal with H : forall p0, MRRun _ = MRRun p0 -> _ |- _ => exact (H _ eq_refl) end. }
    unfold step_cm in Hstep.
    destruct (st_cm s) as [[|rep rest]|rep key page rest|]; [| | |discriminate].
    + injection Hstep as <-. by apply Hsame.
    + pose proof (resolve_repo_no_mr_fetch (length rest) (projects (st_h s)) rep) as Hr.
      destruct (resolve_repo (length rest) (projects (st_h s)) rep) as [key reported].
      injection Hstep as <-. by apply Hsame.
    + destruct (client (st_h s)) as [cl|].
      2:{ injection Hstep as <-. unfold crash. by apply Hsame. }
      pose proof (commits_iter_no_mr_fetch cl rep key 100 page) as Hr.
      destruct (commits_iter cl rep key 100 page) as [[page'| |] evs];
        injection Hstep as <-; by apply Hsame.
  - unfold step_stop in Hstep.
    destruct (st_stop s); [| |discriminate].
    + destruct (Stop_cancel (st_h s)); injection Hstep as <-; exists n; cbn;
        rewrite ?app_nil_r; (split; [exact Hacc | try discriminate]).
      intros _ p Hp. by apply Hpage.
    + destruct (Stop_wait (st_h s)) as [[]|]; [| discriminate |];
        injection Hstep as <-; exists n; cbn; rewrite ?app_nil_r;
        (split; [exact Hacc | try discriminate]).
      intros _ p Hp. by apply Hpage.
Qed.

(** X9. However the goroutines and a call of [Stop] are interleaved, the
    merge-request pages asked for so far are the pages [0, 1, ..., n-1], in
    that order and each once, and a walker still in its loop is about to ask
    for page [n]. *)
Theorem mr_requests_in_order (h : Gitlab) (sched : list actor) (s : State) :
  run sched (launched h) = Some s ->
  exists n : nat,
    mr_fetches (st_acc s) = requests (ask_mrs 100) 0 n /\
    (st_crashed s = false -> forall p, st_mr s = MRRun p -> p = Z.of_nat n).
Proof.
  intros Hrun.
  assert (Hgen : forall sched s0 s1, run sched s0 = Some s1 ->
            mr_pages_in_order s0 -> mr_pages_in_order s1).
  { clear. induction sched as [|a sched IH]; intros s0 s1 Hrun Hinv.
    - by injection Hrun as <-.
    - cbn [run] in Hrun. destruct (step a s0) as [s'|] eqn:Es; [|discriminate].
      apply (IH s' s1 Hrun). by apply (step_keeps_pages_in_order a s0). }
  apply (Hgen sched (launched h) s Hrun).
  exists 0%nat. split; [reflexivity|]. by intros _ p [= <-].
Qed.

End Extras.

(** X9 on a schedule that mixes the three actors. *)
Lemma mr_requests_in_order_witness :
  exists s n,
    @run caseless_tables listed_order [MergeRequestWalker; CommitWalker; Stopper; CommitWalker]
      (launched (started small_client [runes "b"])) = Some s /\
    mr_fetches (st_acc s) = requests (ask_mrs 100) 0 n.
Proof.
  destruct (@run caseless_tables listed_order [MergeRequestWalker; CommitWalker; Stopper; CommitWalker]
              (launched (started small_client [runes "b"]))) as [s|] eqn:E;
    [|vm_compute in E; discriminate].
  destruct (@mr_requests_in_order caseless_tables listed_order (started small_client [runes "b"])
              [MergeRequestWalker; CommitWalker; Stopper; CommitWalker] s E)
    as (n & Hn & _).
  exists s, n. split; [reflexivity | exact Hn].
Defined.

Section Completion.
Context `{UnicodeTables} `{RangeOrder}.

Lemma run_replicate_S a k s :
  run (replicate (S k) a) s = step a s ≫= run (replicate k a).
Proof. reflexivity. Qed.

(** The goroutine stepped until it leaves its loop does what the loop of
    [fetchMergeRequests] does. *)
Lemma run_mr_to_exit cl : forall fuel page s t,
  st_crashed s = false -> st_mr s = MRRun page ->
  client (st_h s) = Some cl -> wg (st_h s) = Some 1 ->
  mr_loop cl (projects (st_h s)) 100 fuel page = (Return None, t) ->
  exists k s',
    (k <= fuel)%nat /\ run (replicate k MergeRequestWalker) s = Some s' /\
    st_acc s' = st_acc s ++ t /\ st_mr s' = MRExited /\ st_crashed s' = false /\
    st_stop s' = st_stop s /\ st_cm s' = st_cm s /\
    wg (st_h s') = Some 0 /\ cancel (st_h s') = cancel (st_h s).
Proof.
  induction fuel as [|fuel IH]; intros page s t Hc Hmr Hcl Hwg Hloop; [discriminate|].
  cbn [mr_loop] in Hloop.
  destruct (mr_iter cl (projects (st_h s)) 100 page) as [[page'| |] evs] eqn:Eiter.
  - destruct (mr_loop cl (projects (st_h s)) 100 fuel page') as [o evs'] eqn:Eloop.
    injection Hloop as -> <-.
    set (s1 := {| st_h := st_h s; st_mr := MRRun page'; st_cm := st_cm s;
                  st_stop := st_stop s; st_acc := st_acc s ++ evs;
                  st_crashed := false |}).
    destruct (IH page' s1 evs' eq_refl eq_refl Hcl Hwg Eloop)
      as (k & s' & Hk & Hrun & Hacc & Hmr' & Hc' & Hst & Hcm & Hwg' & Hcancel).
    exists (S k), s'. split; [lia|]. split.
    { rewrite run_replicate_S. unfold step, step_mr. rewrite Hc, Hmr, Hcl, Eiter.
      exact Hrun. }
    split; [rewrite Hacc; cbn; by rewrite app_assoc|]. repeat split; assumption.
  - injection Hloop as <-.
    exists 1%nat. eexists. split; [lia|]. split.
    { rewrite run_replicate_S. unfold step, step_mr, wg_Done.
      rewrite Hc, Hmr, Hcl, Eiter, Hwg. reflexivity. }
    cbn. repeat split.
  - discriminate.
Qed.

(** X10. When [fetchMergeRequests] returns with a trace, the goroutine that
    runs it reaches its exit after at most as many turns as the loop took,
    with that trace in the accumulator and the wait group counted down, and
    a [Stop] called then fires the signal and returns, although the commit
    walker has not taken a step yet: [Stop] does not wait for it. *)
Theorem walker_completes_then_Stop_returns (h : Gitlab) (fuel : nat) (t : list event) :
  wg h = Some 1 ->
  cancel h = Some cancel_ctx ->
  fetchMergeRequests h fuel = (Return None, t) ->
  exists k s,
    (k <= fuel)%nat /\
    run (replicate k MergeRequestWalker ++ [Stopper; Stopper]) (launched h) = Some s /\
    st_acc s = t /\ st_mr s = MRExited /\ st_stop s = StopReturned /\
    st_crashed s = false /\ ctx (st_h s) = Some true /\ wg (st_h s) = Some 0 /\
    st_cm s = CMRange (Repos h).
Proof.
  intros Hwg Hcancel Hfetch. unfold fetchMergeRequests in Hfetch.
  destruct (client h) as [cl|] eqn:Hcl; [|discriminate].
  destruct (run_mr_to_exit cl fuel 0 (launched h) t eq_refl eq_refl Hcl Hwg Hfetch)
    as (k & s' & Hk & Hrun & Hacc & Hmr & Hc & Hst & Hcm & Hwg' & Hcancel').
  cbn in Hacc, Hst, Hcm, Hcancel'. rewrite Hcancel in Hcancel'.
  set (s1 := {| st_h := with_sync (st_h s') (Some true) (Some cancel_ctx) (Some 0);
                st_mr := st_mr s'; st_cm := st_cm s'; st_stop := StopWaiting;
                st_acc := st_acc s'; st_crashed := false |}).
  set (s2 := {| st_h := st_h s1; st_mr := st_mr s1; st_cm := st_cm s1;
                st_stop := StopReturned; st_acc := st_acc s1; st_crashed := false |}).
  assert (H1 : step Stopper s' = Some s1).
  { unfold step, step_stop, Stop_cancel. rewrite Hc, Hst, Hcancel', Hwg'. reflexivity. }
  assert (H2 : step Stopper s1 = Some s2).
  { reflexivity. }
  exists k, s2. split; [exact Hk|]. split.
  { rewrite run_app, Hrun. cbn [mbind option_bind run]. rewrite H1.
    cbn [mbind option_bind]. rewrite H2. reflexivity. }
  cbn. repeat split; assumption.
Qed.

End Completion.

(** X10 at a server without merge requests. *)
Lemma walker_completes_then_Stop_returns_witness :
  wg (started small_client []) = Some 1 /\
  cancel (started small_client []) = Some cancel_ctx /\
  @fetchMergeRequests caseless_tables (started small_client []) 1 =
    (Return None, [EvListMergeRequests 0 100]) /\
  exists k s,
    @run caseless_tables listed_order (replicate k MergeRequestWalker ++ [Stopper; Stopper])
      (launched (started small_client [])) = Some s /\
    st_acc s = [EvListMergeRequests 0 100] /\ st_stop s = StopReturned.
Proof.
  split; [reflexivity|]. split; [reflexivity|]. split; [reflexivity|].
  destruct (@walker_completes_then_Stop_returns caseless_tables listed_order (started small_client []) 1
              [EvListMergeRequests 0 100] eq_refl eq_refl eq_refl)
    as (k & s & _ & Hrun & Hacc & _ & Hst & _).
  exists k, s. split; [exact Hrun|]. split; [exact Hacc | exact Hst].
Defined.

Lemma find_from_head r bot s n l :
  ends r bot s = n :: l -> find_from r bot s = Some (take n s).
Proof. intros E. destruct s; cbn [find_from]; by rewrite E. Qed.

Lemma find_from_skip r : forall (i : nat) s bot,
  (i <= length s)%nat ->
  (forall j, (j < i)%nat -> ends r (bot && bool_decide (j = 0%nat)) (drop j s) = []) ->
  find_from r bot s = find_from r (bot && bool_decide (i = 0%nat)) (drop i s).
Proof.
  induction i as [|i IH]; intros s bot Hlen Hnone.
  - cbn. by rewrite andb_true_r.
  - destruct s as [|c s]; [cbn in Hlen; lia|].
    pose proof (Hnone 0%nat ltac:(lia)) as H0. cbn in H0. rewrite andb_true_r in H0.
    cbn [find_from]. rewrite H0. cbn [drop]. rewrite andb_false_r.
    rewrite (IH s false); [reflexivity | cbn in Hlen; lia |].
    intros j Hj. specialize (Hnone (S j) ltac:(lia)). cbn in Hnone.
    rewrite andb_false_r in Hnone. exact Hnone.
Qed.

Lemma span_all p s : all_in p s -> span p s = length s.
Proof. induction 1 as [|c s Hc _ IH]; cbn; [reflexivity|]. by rewrite Hc, IH. Qed.

Lemma letter_not_digit c : is_letter c = true -> is_digit c = false.
Proof.
  intros Hc%is_letter_cases. unfold is_digit, in_range.
  destruct (Z.leb_spec 48 c); destruct (Z.leb_spec c 57); cbn [andb]; lia.
Qed.

(** The search of the ticket pattern in a text that starts with a token:
    its first match is the token with all its digits, up to five. *)
Lemma ends_ticket_token bot w c ds rest :
  w <> [] -> all_in is_letter w -> is_nonword c = true ->
  ends ticket_re bot (w ++ c :: ds ++ rest) =
  (fun n => length w + (1 + n))%nat <$>
    countdown (span is_digit (ds ++ rest) `min` 5) 2.
Proof.
  intros Hw Hall Hc. unfold ticket_re. rewrite ends_letters_sep.
  rewrite (span_app is_letter w c (ds ++ rest) Hall (nonword_not_letter c Hc)).
  rewrite drop_app_length, Hc.
  destruct w as [|d w]; [done|]. cbn [length Nat.leb andb]. by rewrite ends_digits.
Qed.

(** X11. The ticket found in a title is found again, whole, in itself. *)
Theorem findTicketID_idempotent (s : gostring) :
  findTicketID (findTicketID s) = findTicketID s.
Proof.
  unfold findTicketID at 2 3, FindString.
  destruct (find_from ticket_re true s) as [m|] eqn:Ef; [|reflexivity].
  apply find_from_Some in Ef as (i & n & rest & Hi & _ & Hat & ->). cbn [default].
  assert (Hm : Matches ticket_re (true && bool_decide (i = 0%nat)) (drop i s) n).
  { apply ends_sound. rewrite Hat. left. }
  apply Matches_ticket in Hm as [Hn (w & c & ds & E & Hw & Hall & Hc & Hds & Hlen)].
  rewrite E. unfold findTicketID, FindString.
  pose proof (ends_ticket_token true w c ds [] Hw Hall Hc) as Hends.
  rewrite app_nil_r in Hends.
  rewrite (span_all is_digit ds Hds) in Hends.
  rewrite countdown_top in Hends by lia. rewrite fmap_cons in Hends.
  etransitivity; [exact (f_equal (default []) (find_from_head _ _ _ _ _ Hends))|].
  cbn [default from_option]. unfold id.
  apply take_ge. rewrite length_app. cbn [length]. lia.
Qed.

(** X12. When a title starts with a match of the type pattern, that match is
    letters, a non-word rune, and then exactly what [findTicketID] finds in
    the title: the ticket of a typed title is the rest of its type prefix. *)
Theorem type_match_holds_ticket (s : gostring) :
  FindString mrtype_re s <> [] ->
  exists w c,
    FindString mrtype_re s = w ++ c :: findTicketID s /\
    w <> [] /\ all_in is_letter w /\ is_nonword c = true /\ ticket_token (findTicketID s).
Proof.
  rewrite FindString_mrtype.
  change type_body with
    (Seq (Repeat is_letter 1 None) (Seq (Class is_nonword) ticket_re)).
  rewrite ends_letters_sep.
  set (sp := span is_letter s).
  destruct (drop sp s) as [|c rest] eqn:Ed; [done|].
  destruct (Nat.leb_spec 1 sp) as [Hsp|Hsp]; [|done].
  destruct (is_nonword c) eqn:Hc; [|done]. cbn [andb].
  destruct (ends ticket_re false rest) as [|n' l'] eqn:Et; [done|].
  rewrite fmap_cons. intros _.
  assert (Hs : s = take sp s ++ c :: rest) by (by apply split_at_letters).
  assert (Hletters : all_in is_letter (take sp s)) by apply span_take.
  assert (Hlen : length (take sp s) = sp).
  { rewrite length_take. pose proof (span_le is_letter s). fold sp in H. lia. }
  assert (Hn' : n' ∈ ends ticket_re false rest) by (rewrite Et; left).
  pose proof Hn' as Hm'. apply ends_sound, Matches_ticket in Hm' as [Hn'len Htok].
  unfold ticket_re in Hn'.
  apply elem_of_ends_letters_sep in Hn'
    as (w2 & c2 & rest2 & k2 & Hrest & Hw2 & Hall2 & _).
  (* no ticket starts before the end of the separator *)
  assert (Hnodigit : span is_digit rest = 0%nat).
  { rewrite Hrest. destruct w2 as [|d w2]; [done|]. cbn [app span].
    inversion Hall2 as [|? ? Hd _]; subst. by rewrite (letter_not_digit d Hd). }
  assert (Hbefore : forall j, (j < sp + 1)%nat ->
            ends ticket_re (true && bool_decide (j = 0%nat)) (drop j s) = []).
  { intros j Hj. destruct (decide (j = sp)) as [->|Hne].
    - rewrite Ed. unfold ticket_re. rewrite ends_letters_sep. cbn [span].
      rewrite (nonword_not_letter c Hc). reflexivity.
    - assert (Hdrop : drop j s = drop j (take sp s) ++ c :: ([] ++ rest)).
      { rewrite Hs at 1. rewrite drop_app_le by lia. reflexivity. }
      rewrite Hdrop. rewrite ends_ticket_token.
      + cbn [app]. rewrite Hnodigit. reflexivity.
      + intros E0. apply (f_equal length) in E0. rewrite length_drop, Hlen in E0.
        cbn in E0. lia.
      + by apply Forall_drop.
      + exact Hc. }
  assert (Hfind : findTicketID s = take n' rest).
  { unfold findTicketID, FindString.
    rewrite (find_from_skip ticket_re (sp + 1) s true).
    - replace (drop (sp + 1) s) with rest.
      + cbn [andb]. replace (bool_decide (sp + 1 = 0)%nat) with false
          by (symmetry; apply bool_decide_eq_false; lia).
        by rewrite (find_from_head _ _ _ _ _ Et).
      + rewrite Hs at 1. rewrite drop_app_add' by (symmetry; exact Hlen). reflexivity.
    - rewrite Hs, length_app, Hlen. cbn [length]. lia.
    - exact Hbefore. }
  exists (take sp s), c. rewrite Hfind.
  split.
  { rewrite Hs at 1. rewrite take_app_add' by (symmetry; exact Hlen). reflexivity. }
  split; [intros E0; rewrite E0 in Hlen; cbn in Hlen; lia|].
  split; [exact Hletters|]. split; [exact Hc | exact Htok].
Qed.


(** X12 at [fix/abc-123: x 45]. *)
Lemma type_match_holds_ticket_witness :
  FindString mrtype_re (runes "fix/abc-123: x 45") <> [] /\
  exists w c,
    FindString mrtype_re (runes "fix/abc-123: x 45") =
      w ++ c :: findTicketID (runes "fix/abc-123: x 45") /\
    w <> [] /\ all_in is_letter w /\ is_nonword c = true /\
    ticket_token (findTicketID (runes "fix/abc-123: x 45")).
Proof.
  split; [vm_compute; discriminate|].
  apply (type_match_holds_ticket (runes "fix/abc-123: x 45")). vm_compute. discriminate.
Defined.

Lemma is_digit_cases c : is_digit c = true -> 48 <= c <= 57.
Proof. unfold is_digit, in_range. lia. Qed.

Section TextExtras.
Context `{UnicodeTables}.

Lemma format_rune_no_separator r :
  (127 < r -> To_UpperCase r ∉ [slash; space; colon]) ->
  unicode_ToUpper (replace_rune separators r) ∉ [slash; space; colon].
Proof.
  intros Htab. cbn [replace_rune separators]. unfold slash, space, colon, dash in *.
  assert (Hnot : forall x : Z, x <> 47 -> x <> 32 -> x <> 58 -> x ∉ [47; 32; 58]).
  { intros x ? ? ? Hx. repeat (apply elem_of_cons in Hx as [Hx|Hx]; [lia|]).
    by apply elem_of_nil in Hx. }
  destruct (Z.eqb_spec r 47); [apply Hnot; vm_compute; discriminate|].
  destruct (Z.eqb_spec r 32); [apply Hnot; vm_compute; discriminate|].
  destruct (Z.eqb_spec r 58); [apply Hnot; vm_compute; discriminate|].
  unfold unicode_ToUpper. destruct (Z.leb_spec r 127); [|apply Htab; lia].
  unfold is_lower, in_range.
  destruct (Z.leb_spec 97 r); destruct (Z.leb_spec r 122); cbn [andb]; apply Hnot; lia.
Qed.

Lemma formatTicketID_digits ds : all_in is_digit ds -> formatTicketID ds = ds.
Proof.
  unfold formatTicketID, ToUpper, Replace, all_in. rewrite map_map.
  induction 1 as [|c ds Hc%is_digit_cases _ IH]; [reflexivity|].
  cbn [map]. rewrite IH. f_equal.
  cbn [replace_rune separators]. unfold slash, space, colon.
  destruct (Z.eqb_spec c 47); [lia|].
  destruct (Z.eqb_spec c 32); [lia|].
  destruct (Z.eqb_spec c 58); [lia|].
  unfold unicode_ToUpper, is_lower, in_range.
  destruct (Z.leb_spec c 127); [|lia].
  destruct (Z.leb_spec 97 c); [lia|]. reflexivity.
Qed.

Lemma ToUpper_letters_upper w : all_in is_letter w -> all_in is_upper (ToUpper w).
Proof.
  unfold ToUpper, all_in. induction 1 as [|c w Hc _ IH]; cbn [map]; constructor; [|exact IH].
  destruct (upper_letter c Hc) as [-> _]. apply is_letter_cases in Hc.
  unfold is_lower, is_upper, in_range.
  destruct (Z.leb_spec 97 c); destruct (Z.leb_spec c 122); cbn [andb]; lia.
Qed.

(** X13. [formatTicketID] keeps the length of its input, and leaves none of
    the three separators it replaces in its output, as long as the case table
    sends no rune above ASCII to one of them. *)
Theorem formatTicketID_no_separators (x : gostring) :
  Forall (fun r => 127 < r -> To_UpperCase r ∉ [slash; space; colon]) x ->
  length (formatTicketID x) = length x /\
  Forall (fun c => c ∉ [slash; space; colon]) (formatTicketID x).
Proof.
  intros Hx. unfold formatTicketID, ToUpper, Replace. rewrite map_map. split.
  - apply length_map.
  - induction Hx as [|r x Hr _ IH]; cbn [map]; constructor; [|exact IH].
    by apply format_rune_no_separator.
Qed.

(** X14. On a ticket written as letters, one of the runes [/], space, [:] and
    [-], and digits, [formatTicketID] gives the letters in upper case, a dash
    and the digits unchanged. *)
Theorem formatTicketID_token (w : gostring) (c : rune) (ds : gostring) :
  all_in is_letter w -> c ∈ [slash; space; colon; dash] -> all_in is_digit ds ->
  formatTicketID (w ++ c :: ds) = ToUpper w ++ dash :: ds /\
  all_in is_upper (ToUpper w) /\ length (ToUpper w) = length w.
Proof.
  intros Hw Hc Hds. split; [|split].
  - change (c :: ds) with ([c] ++ ds). rewrite !formatTicketID_app.
    rewrite (formatTicketID_letters_eq w Hw), (formatTicketID_sep c Hc).
    by rewrite (formatTicketID_digits ds Hds).
  - by apply ToUpper_letters_upper.
  - apply length_map.
Qed.

(** X15. [getMRType] always returns a label (the index expression never
    panics); the label contains no dash and is the start of the formatted
    type match, up to its first dash or its end. *)
Theorem getMRType_label_no_dash (s : gostring) :
  exists t rest,
    getMRType s = Some t /\ (dash ∉ t) /\
    formatTicketID (FindString mrtype_re s) = t ++ rest /\
    (rest = [] \/ exists rest', rest = dash :: rest').
Proof.
  rewrite getMRType_total. unfold first_segment.
  set (x := formatTicketID (FindString mrtype_re s)).
  set (p := fun c : rune => negb (c =? dash)).
  exists (take (span p x) x), (drop (span p x) x).
  split; [reflexivity|]. split; [|split].
  - intros Hin. pose proof (span_take p x) as Hall.
    rewrite Forall_forall in Hall. specialize (Hall _ Hin).
    unfold p in Hall. by rewrite Z.eqb_refl in Hall.
  - symmetry. apply take_drop.
  - clearbody x. induction x as [|c x IH]; [by left|].
    cbn [span]. assert (Hp : p c = negb (c =? dash)) by reflexivity. rewrite Hp.
    destruct (Z.eqb_spec c dash) as [->|Hne]; cbn [negb drop].
    + right. by exists x.
    + exact IH.
Qed.

End TextExtras.

(** X13 at [ab c/1:2]. *)
Lemma formatTicketID_no_separators_witness :
  Forall (fun r => 127 < r -> @To_UpperCase caseless_tables r ∉ [slash; space; colon])
    (runes "ab c/1:2") /\
  length (@formatTicketID caseless_tables (runes "ab c/1:2")) = length (runes "ab c/1:2") /\
  Forall (fun c => c ∉ [slash; space; colon]) (@formatTicketID caseless_tables (runes "ab c/1:2")).
Proof.
  assert (Hx : Forall (fun r => 127 < r -> @To_UpperCase caseless_tables r ∉ [slash; space; colon])
                 (runes "ab c/1:2")).
  { repeat (apply List.Forall_cons; [intros Hr; vm_compute in Hr; discriminate|]).
    apply List.Forall_nil. }
  split; [exact Hx|].
  exact (@formatTicketID_no_separators caseless_tables (runes "ab c/1:2") Hx).
Defined.

(** X14 at [abc/123]. *)
Lemma formatTicketID_token_witness :
  all_in is_letter (runes "abc") /\ slash ∈ [slash; space; colon; dash] /\
  all_in is_digit (runes "123") /\
  @formatTicketID caseless_tables (runes "abc" ++ slash :: runes "123") =
    @ToUpper caseless_tables (runes "abc") ++ dash :: runes "123" /\
  all_in is_upper (@ToUpper caseless_tables (runes "abc")) /\
  length (@ToUpper caseless_tables (runes "abc")) = length (runes "abc").
Proof.
  assert (Hw : all_in is_letter (runes "abc")) by (repeat constructor).
  assert (Hc : slash ∈ [slash; space; colon; dash]) by left.
  assert (Hds : all_in is_digit (runes "123")) by (repeat constructor).
  split; [exact Hw|]. split; [exact Hc|]. split; [exact Hds|].
  exact (@formatTicketID_token caseless_tables (runes "abc") slash (runes "123") Hw Hc Hds).
Defined.

Lemma getmr_pass_shape cl projects cp :
  exists items,
    snd (Early.getmr_pass cl projects cp) =
      ask_mrs 100 cp ::
        match fr_err (ListMergeRequests cl cp 100) with
        | Some _ => []
        | None => EvPrint (len (fr_items (ListMergeRequests cl cp 100))) ::
                  map (fun mr => EvAddFields (Early.mr_metric projects mr)) items
        end /\
    (forall cp', fst (Early.getmr_pass cl projects cp) = Early.Goto cp' -> cp' = cp + 1) /\
    (forall e, fst (Early.getmr_pass cl projects cp) = Early.Returns (Some e) ->
       exists x, e = ErrListMergeRequests x /\ fr_err (ListMergeRequests cl cp 100) = Some x).
Proof.
  unfold Early.getmr_pass.
  destruct (fr_err (ListMergeRequests cl cp 100)) as [x|] eqn:Herr.
  { exists []. split; [reflexivity|]. split; [discriminate|].
    intros e [= <-]. by exists x. }
  rewrite (range_AddFields_total _ (Early.mr_metric projects)) by reflexivity.
  exists (fr_items (ListMergeRequests cl cp 100)). cbn [negb].
  destruct (fr_resp (ListMergeRequests cl cp 100)).
  - destruct (len (fr_items (ListMergeRequests cl cp 100)) =? 100); cbn [fst snd].
    + split; [reflexivity|]. split; [by intros cp' [= <-] | discriminate].
    + split; [reflexivity|]. split; discriminate.
  - split; [reflexivity|]. split; discriminate.
Qed.

Lemma getmr_trace cl projects : forall fuel cp,
  add_errors (snd (Early.getmr cl projects fuel cp)) = [] /\
  (exists n, fetches (snd (Early.getmr cl projects fuel cp)) = requests (ask_mrs 100) cp n) /\
  (forall e, fst (Early.getmr cl projects fuel cp) = Return (Some e) ->
     exists x page, e = ErrListMergeRequests x /\
       fr_err (ListMergeRequests cl page 100) = Some x /\
       last (fetches (snd (Early.getmr cl projects fuel cp))) = Some (ask_mrs 100 page)).
Proof.
  induction fuel as [|fuel IH]; intros cp.
  { cbn. split; [reflexivity|]. split; [by exists 0%nat | discriminate]. }
  cbn [Early.getmr].
  destruct (getmr_pass_shape cl projects cp) as (items & Hsnd & Hgoto & Hret).
  destruct (Early.getmr_pass cl projects cp) as [r evs]. cbn [fst snd] in *.
  assert (Herrs : add_errors evs = []).
  { rewrite Hsnd. destruct (fr_err (ListMergeRequests cl cp 100)); [reflexivity|].
    cbn. apply (add_errors_AddFields (Early.mr_metric projects)). }
  assert (Hfetch : fetches evs = [ask_mrs 100 cp]).
  { rewrite Hsnd. destruct (fr_err (ListMergeRequests cl cp 100)); [reflexivity|].
    change (fetches (?a :: ?b :: ?l)) with (a :: fetches l).
    by rewrite (fetches_AddFields (Early.mr_metric projects)). }
  destruct r as [cp'|err|].
  - rewrite (Hgoto cp' eq_refl). destruct (IH (cp + 1)) as (IHe & [n IHf] & IHr).
    destruct (Early.getmr cl projects fuel (cp + 1)) as [o evs']. cbn [fst snd] in *.
    split; [by rewrite add_errors_app, Herrs, IHe|].
    split.
    + exists (S n). by rewrite fetches_app, Hfetch, IHf, requests_S.
    + intros e He. destruct (IHr e He) as (x & page & -> & Hx & Hlast).
      exists x, page. split; [reflexivity|]. split; [exact Hx|].
      rewrite fetches_app, Hfetch. cbn [app].
      destruct (fetches evs') as [|a l]; [discriminate|]. exact Hlast.
  - cbn [fst snd]. split; [exact Herrs|]. split.
    + exists 1%nat. rewrite Hfetch. cbn. by rewrite Z.add_0_r.
    + intros e [= ->]. destruct (Hret e eq_refl) as (x & -> & Hx).
      exists x, cp. by rewrite Hfetch.
  - cbn [fst snd]. split; [exact Herrs|]. split; [|discriminate].
    exists 1%nat. rewrite Hfetch. cbn. by rewrite Z.add_0_r.
Qed.

(** X16. The early [Gather] reports nothing through [AddError]: a failed
    listing of merge requests is the error it returns, after requests for the
    pages 0, 1, 2, ... up to the failing one; with any other error nothing has
    been asked of the merge requests or emitted.  A client it has is kept. *)
Theorem Early_Gather_returns_errors (w : World) (h : Early.Gitlab) (fuel : nat) :
  add_errors (snd (snd (Early.Gather w h fuel))) = [] /\
  (exists n, fetches (snd (snd (Early.Gather w h fuel))) = requests (ask_mrs 100) 0 n) /\
  (forall e, fst (snd (Early.Gather w h fuel)) = Return (Some e) ->
     match e with
     | ErrListMergeRequests x =>
         exists cl page,
           Early.client (fst (Early.Gather w h fuel)) = Some cl /\
           fr_err (ListMergeRequests cl page 100) = Some x /\
           last (fetches (snd (snd (Early.Gather w h fuel)))) = Some (ask_mrs 100 page)
     | _ => snd (snd (Early.Gather w h fuel)) = []
     end) /\
  (forall cl, Early.client h = Some cl ->
     Early.client (fst (Early.Gather w h fuel)) = Some cl).
Proof.
  unfold Early.Gather.
  destruct (url_Parse w (Early.Endpoint h)); cbn [negb fst snd].
  2:{ split; [reflexivity|]. split; [by exists 0%nat|].
      split; [by intros e [= <-] | tauto]. }
  set (cl := match Early.client h with
             | Some cl => cl
             | None => NewClient w (Early.Token h) (Early.Endpoint h)
             end).
  assert (Hkeep : forall c, Early.client h = Some c -> Some cl = Some c).
  { intros c Hc. unfold cl. by rewrite Hc. }
  destruct (fr_err (ListProjects cl)) as [x|]; cbn [fst snd].
  { split; [reflexivity|]. split; [by exists 0%nat|].
    split; [by intros e [= <-] | exact Hkeep]. }
  destruct (fr_resp (ListProjects cl)) as [resp|]; cbn [fst snd].
  2:{ split; [reflexivity|]. split; [by exists 0%nat|].
      split; [discriminate | exact Hkeep]. }
  destruct (StatusCode resp =? 200); cbn [negb fst snd].
  2:{ split; [reflexivity|]. split; [by exists 0%nat|].
      split; [by intros e [= <-] | exact Hkeep]. }
  destruct (getmr_trace cl (build_projects (fr_items (ListProjects cl))) fuel 0)
    as (He & Hf & Hr).
  split; [exact He|]. split; [exact Hf|]. split; [|exact Hkeep].
  intros e Hret. destruct (Hr e Hret) as (x & page & -> & Hx & Hlast).
  by exists cl, page.
Qed.

Section VariantExtras.
Context `{UnicodeTables}.

Lemma mr_tags_without_added projects ticketID mrType mr :
  foldr delete (mr_tags projects ticketID mrType mr) added_tags =
  tags (Middle.mr_metric projects mr).
Proof. vm_compute. reflexivity. Qed.

Lemma mr_record_without_added projects mr :
  without_tags added_tags (EvAddFields (mr_record projects mr)) =
  EvAddFields (Middle.mr_metric projects mr).
Proof.
  unfold without_tags, mr_record. cbn [measurement fields tags timestamp].
  rewrite mr_tags_without_added. reflexivity.
Qed.

Lemma mr_iter_without_added cl projects pp page :
  Middle.mr_iter cl projects pp page =
  (fst (mr_iter cl projects pp page),
   map (without_tags added_tags) (snd (mr_iter cl projects pp page))).
Proof.
  unfold Middle.mr_iter, mr_iter.
  destruct (fr_err (ListMergeRequests cl page pp)); [reflexivity|].
  rewrite (range_AddFields_total _ (Middle.mr_metric projects)) by reflexivity.
  rewrite (range_AddFields_total _ _ _ (mr_metric_total projects)).
  assert (Hmap : map (fun mr => EvAddFields (Middle.mr_metric projects mr))
                   (fr_items (ListMergeRequests cl page pp)) =
                 map (without_tags added_tags)
                   (map (fun mr => EvAddFields (mr_record projects mr))
                      (fr_items (ListMergeRequests cl page pp)))).
  { rewrite map_map. apply map_ext. intros mr. symmetry. apply mr_record_without_added. }
  cbn [negb]. destruct (fr_resp (ListMergeRequests cl page pp)).
  - destruct (len (fr_items (ListMergeRequests cl page pp)) <? pp);
      cbn [fst snd app map without_tags]; by rewrite Hmap.
  - cbn [fst snd app map without_tags]. by rewrite Hmap.
Qed.

Lemma mr_loop_without_added cl projects pp : forall fuel page,
  Middle.mr_loop cl projects pp fuel page =
  (fst (mr_loop cl projects pp fuel page),
   map (without_tags added_tags) (snd (mr_loop cl projects pp fuel page))).
Proof.
  induction fuel as [|fuel IH]; intros page; [reflexivity|].
  cbn [Middle.mr_loop mr_loop]. rewrite mr_iter_without_added.
  destruct (mr_iter cl projects pp page) as [[page'| |] evs]; cbn [fst snd]; try reflexivity.
  rewrite IH. destruct (mr_loop cl projects pp fuel page') as [o evs']. cbn [fst snd].
  by rewrite map_app.
Qed.

Lemma mr_iter_emits_records cl projects pp page m :
  EvAddFields m ∈ snd (mr_iter cl projects pp page) -> exists mr, m = mr_record projects mr.
Proof.
  unfold mr_iter. destruct (fr_err (ListMergeRequests cl page pp)); cbn [snd app].
  { intros Hin. apply elem_of_cons in Hin as [?|Hin]; [discriminate|].
    apply elem_of_cons in Hin as [?|Hin]; [discriminate|]. by apply elem_of_nil in Hin. }
  rewrite (range_AddFields_total _ _ _ (mr_metric_total projects)). cbn [negb].
  assert (Hin : EvAddFields m ∈ [EvListMergeRequests page pp] ++
                  map (fun mr => EvAddFields (mr_record projects mr))
                    (fr_items (ListMergeRequests cl page pp)) ->
                exists mr, m = mr_record projects mr).
  { cbn [app]. intros Hin. apply elem_of_cons in Hin as [?|Hin]; [discriminate|].
    apply list_elem_of_fmap in Hin as (mr & [= ->] & _). by exists mr. }
  destruct (fr_resp (ListMergeRequests cl page pp)); [|exact Hin].
  destruct (len (fr_items (ListMergeRequests cl page pp)) <? pp); exact Hin.
Qed.

Lemma mr_loop_emits_records cl projects pp m : forall fuel page,
  EvAddFields m ∈ snd (mr_loop cl projects pp fuel page) -> exists mr, m = mr_record projects mr.
Proof.
  induction fuel as [|fuel IH]; intros page; [by intros ?%elem_of_nil|].
  cbn [mr_loop]. pose proof (mr_iter_emits_records cl projects pp page m) as Hit.
  destruct (mr_iter cl projects pp page) as [[page'| |] evs]; cbn [snd] in *; try exact Hit.
  specialize (IH page'). destruct (mr_loop cl projects pp fuel page') as [o evs']. cbn [snd] in *.
  intros [Hin|Hin]%elem_of_app; auto.
Qed.

Lemma mr_record_has_added_tags projects mr k :
  k ∈ added_tags -> is_Some (tags (mr_record projects mr) !! k).
Proof.
  unfold added_tags. intros Hk.
  repeat (apply elem_of_cons in Hk as [->|Hk]; [vm_compute; eauto|]).
  by apply elem_of_nil in Hk.
Qed.

(** X17. The merge-request walker of the middle variant and the one of
    gitlab.go end the same way and make the same requests; the metrics of the
    final one are those of the middle one with four tags added
    ([source_project], [target_project], [jira_ticket_id],
    [merge_request_type]), fields and time stamps being the same. *)
Theorem fetchMergeRequests_adds_four_tags (h : Gitlab) (fuel : nat) :
  Middle.fetchMergeRequests (middle_of h) fuel =
  (fst (fetchMergeRequests h fuel),
   map (without_tags added_tags) (snd (fetchMergeRequests h fuel))) /\
  forall m, EvAddFields m ∈ snd (fetchMergeRequests h fuel) ->
    forall k, k ∈ added_tags -> is_Some (tags m !! k).
Proof.
  split.
  - unfold Middle.fetchMergeRequests, fetchMergeRequests, middle_of.
    cbn [Middle.client Middle.projects].
    destruct (client h) as [cl|]; [|reflexivity]. apply mr_loop_without_added.
  - unfold fetchMergeRequests. destruct (client h) as [cl|]; [|by intros m ?%elem_of_nil].
    intros m Hm k Hk. apply mr_loop_emits_records in Hm as [mr ->].
    by apply mr_record_has_added_tags.
Qed.

End VariantExtras.
